(** * GPX_3D: the terrain-aware flyover camera engine

    A shallow embedding of [FlyoverAnimation] (the animation module of the
    repository) and of the part of [GPXMap] it talks to.

    Numbers.  A JavaScript number is modelled as a rational [Q]: arithmetic
    is exact, there is no NaN and no infinity, and a quotient by 0 is 0
    where JavaScript has NaN or an infinity.  Array indices and loop
    counters are [Z].

    Platform.  [Math.sin], [Math.cos], [Math.atan2], [Math.sqrt],
    [Math.log2] and [Math.PI] are operations of the class [JSMath]; the few
    facts about them that a proof needs are the class [JSMathLaws].

    Object state.  The fields of the controller that a method reads or
    writes are the record [FlyoverAnimation]; a method is a function from
    the state before to the state after, together with what it returns.
    Constructor fields that no method and no caller ever assigns are
    constants.  What the controller does to its collaborators (console,
    camera, marker, host callbacks, frame scheduler) is a list of
    [Effect]s in program order. *)

From Stdlib Require Import QArith Qminmax Qround Qabs Lqa.
From Stdlib Require Import ZArith Lia List Bool String.
From Equations Require Import Equations.
Import ListNotations.

Set Implicit Arguments.
Open Scope Q_scope.

(** ** Numbers *)

Module JS.

(** [a < b] on numbers, as a boolean. *)
Definition ltb (a b : Q) : bool := negb (Qle_bool b a).

(** [a > b]. *)
Definition gtb (a b : Q) : bool := ltb b a.

(** [a >= b]. *)
Definition geb (a b : Q) : bool := Qle_bool b a.

(** [a === b] on numbers. *)
Definition eqb (a b : Q) : bool := Qeq_bool a b.

(** The integer part of a number, rounded toward zero. *)
Definition trunc (x : Q) : Z :=
  if Qle_bool 0 x then Qfloor x else Qceiling x.

(** [a % b]: the remainder has the sign of the dividend. *)
Definition rem (a b : Q) : Q := a - b * inject_Z (trunc (a / b)).

(** [Math.floor]. *)
Definition floor (x : Q) : Z := Qfloor x.

(** [x || 0] for an argument that is a number or [null]. *)
Definition orZero (x : option Q) : Q :=
  match x with
  | Some v => v
  | None => 0
  end.

End JS.

(** The functions of [Math] that are not rational. *)
Class JSMath : Type := {
  Math_PI : Q;
  Math_sin : Q -> Q;
  Math_cos : Q -> Q;
  Math_atan2 : Q -> Q -> Q;
  Math_sqrt : Q -> Q;
  Math_log2 : Q -> Q
}.

(** What the proofs use of them. *)
Class JSMathLaws (M : JSMath) : Prop := {
  Math_sqrt_nonneg : forall x, 0 <= Math_sqrt x;
  Math_sqrt_ge_1 : forall x, 1 <= x -> 1 <= Math_sqrt x;
  Math_atan2_nonneg : forall y x, 0 <= y -> 0 <= Math_atan2 y x
}.

(** ** Data model *)

Record TrackPoint : Type := mkPoint {
  lat : Q;
  lon : Q;
  ele : Q
}.

Inductive Mode : Type :=
| follow
| birdseye.

(** What [map.queryTerrainElevation] can do. *)
Inductive TerrainResult : Type :=
| TerrainNull
| TerrainValue (elevation : Q)
| TerrainThrows.

(** What the free camera API does when the controller reaches for it:
    it works, a call throws, or the global [maplibregl] is undefined. *)
Inductive FreeCameraSupport : Type :=
| FreeCameraWorks
| FreeCameraThrows
| MaplibreUndefined.

(** The map engine behind [GPXMap.map]. *)
Record MapEngine : Type := mkEngine {
  engine_queryTerrainElevation : Q -> Q -> TerrainResult;
  engine_freeCamera : FreeCameraSupport
}.

(** [GPXMap]: [map] is [null] until the engine is created;
    [getTrackPoints] is [trackData?.points || []], always an array. *)
Module GPX.

Record GPXMap : Type := mkMap {
  map : option MapEngine;
  getTrackPoints : list TrackPoint
}.

End GPX.

Definition GPXMap : Type := GPX.GPXMap.

(** What [getPointAtProgress] returns. *)
Record TrackPosition : Type := mkTrackPosition {
  position : TrackPoint;
  rawPosition : TrackPoint;
  bearing : Q;
  rawBearing : Q;
  index : Z
}.

Inductive CameraPose : Type :=
| FreeCamera (camLon camLat camAlt : Q) (lookLon lookLat : Q)
             (lookAlt : option Q)
| StandardCamera (centerLon centerLat zoom pitch bearing : Q).

Inductive Effect : Type :=
| ConsoleLog (msg : string)
| ConsoleWarn (msg : string)
| ConsoleError (msg : string)
| InitProgressMarker
| SetProgressMarkerVisible (visible : bool)
| UpdateProgressMarker (position : TrackPoint)
| ApplyCameraPosition (pose : CameraPose)
| TriggerRepaint
| OnProgress (p : Q)
| OnFrame (p : Q)
| OnComplete
| RequestAnimationFrame (handle : Z)
| CancelAnimationFrame (handle : Z)
| UncaughtTypeError.

(** The fields of a [FlyoverAnimation] object. *)
Record FlyoverAnimation : Type := mkAnimation {
  isPlaying : bool;
  isPaused : bool;
  animationFrame : option Z;
  lastTimestamp : Q;
  progress : Q;
  mode : Mode;
  speed : Q;
  cameraAltitude : Q;
  cameraPitch : Q;
  cumulativeDistances : option (list Q);
  totalDistance : Q;
  distanceDataInitialized : bool;
  lastCameraAltitude : option Q;
  lastBearing : option Q;
  bearingHistory : list Q;
  lastSmoothedPosition : option TrackPoint
}.

(** Constructor fields that are never assigned again. *)
Definition terrainSampleCount : Z := 20.
Definition minTerrainClearance : Q := 80.
Definition terrainLookAhead : Q := 400.
Definition cameraDistance : Q := 150.
Definition terrainExaggeration : Q := 1.5.
Definition altitudeSmoothingFactor : Q := 0.05.
Definition bearingSmoothingFactor : Q := 0.06.
Definition bearingHistorySize : Z := 20.
Definition positionSmoothingFactor : Q := 0.15.

(** The object the constructor builds. *)
Definition constructor : FlyoverAnimation := {|
  isPlaying := false;
  isPaused := false;
  animationFrame := None;
  lastTimestamp := 0;
  progress := 0;
  mode := follow;
  speed := 1;
  cameraAltitude := 100;
  cameraPitch := 60;
  cumulativeDistances := None;
  totalDistance := 0;
  distanceDataInitialized := false;
  lastCameraAltitude := None;
  lastBearing := None;
  bearingHistory := [];
  lastSmoothedPosition := None
|}.

(** Field assignments. *)
Definition set_isPlaying (v : bool) (s : FlyoverAnimation) :=
  mkAnimation v (isPaused s) (animationFrame s) (lastTimestamp s)
    (progress s) (mode s) (speed s) (cameraAltitude s) (cameraPitch s)
    (cumulativeDistances s) (totalDistance s) (distanceDataInitialized s)
    (lastCameraAltitude s) (lastBearing s) (bearingHistory s)
    (lastSmoothedPosition s).

Definition set_isPaused (v : bool) (s : FlyoverAnimation) :=
  mkAnimation (isPlaying s) v (animationFrame s) (lastTimestamp s)
    (progress s) (mode s) (speed s) (cameraAltitude s) (cameraPitch s)
    (cumulativeDistances s) (totalDistance s) (distanceDataInitialized s)
    (lastCameraAltitude s) (lastBearing s) (bearingHistory s)
    (lastSmoothedPosition s).

Definition set_animationFrame (v : option Z) (s : FlyoverAnimation) :=
  mkAnimation (isPlaying s) (isPaused s) v (lastTimestamp s)
    (progress s) (mode s) (speed s) (cameraAltitude s) (cameraPitch s)
    (cumulativeDistances s) (totalDistance s) (distanceDataInitialized s)
    (lastCameraAltitude s) (lastBearing s) (bearingHistory s)
    (lastSmoothedPosition s).

Definition set_lastTimestamp (v : Q) (s : FlyoverAnimation) :=
  mkAnimation (isPlaying s) (isPaused s) (animationFrame s) v
    (progress s) (mode s) (speed s) (cameraAltitude s) (cameraPitch s)
    (cumulativeDistances s) (totalDistance s) (distanceDataInitialized s)
    (lastCameraAltitude s) (lastBearing s) (bearingHistory s)
    (lastSmoothedPosition s).

Definition set_progress (v : Q) (s : FlyoverAnimation) :=
  mkAnimation (isPlaying s) (isPaused s) (animationFrame s) (lastTimestamp s)
    v (mode s) (speed s) (cameraAltitude s) (cameraPitch s)
    (cumulativeDistances s) (totalDistance s) (distanceDataInitialized s)
    (lastCameraAltitude s) (lastBearing s) (bearingHistory s)
    (lastSmoothedPosition s).

Definition set_distanceData (ds : option (list Q)) (total : Q) (init : bool)
    (s : FlyoverAnimation) :=
  mkAnimation (isPlaying s) (isPaused s) (animationFrame s) (lastTimestamp s)
    (progress s) (mode s) (speed s) (cameraAltitude s) (cameraPitch s)
    ds total init
    (lastCameraAltitude s) (lastBearing s) (bearingHistory s)
    (lastSmoothedPosition s).

Definition set_lastCameraAltitude (v : option Q) (s : FlyoverAnimation) :=
  mkAnimation (isPlaying s) (isPaused s) (animationFrame s) (lastTimestamp s)
    (progress s) (mode s) (speed s) (cameraAltitude s) (cameraPitch s)
    (cumulativeDistances s) (totalDistance s) (distanceDataInitialized s)
    v (lastBearing s) (bearingHistory s) (lastSmoothedPosition s).

Definition set_bearing (last : option Q) (history : list Q)
    (s : FlyoverAnimation) :=
  mkAnimation (isPlaying s) (isPaused s) (animationFrame s) (lastTimestamp s)
    (progress s) (mode s) (speed s) (cameraAltitude s) (cameraPitch s)
    (cumulativeDistances s) (totalDistance s) (distanceDataInitialized s)
    (lastCameraAltitude s) last history (lastSmoothedPosition s).

Definition set_lastSmoothedPosition (v : option TrackPoint)
    (s : FlyoverAnimation) :=
  mkAnimation (isPlaying s) (isPaused s) (animationFrame s) (lastTimestamp s)
    (progress s) (mode s) (speed s) (cameraAltitude s) (cameraPitch s)
    (cumulativeDistances s) (totalDistance s) (distanceDataInitialized s)
    (lastCameraAltitude s) (lastBearing s) (bearingHistory s) v.

(** ** Running a method

    A method runs on the object and either returns or throws; either way it
    leaves a state behind and a list of effects. *)

Inductive Outcome (A : Type) : Type :=
| Returned (a : A)
| Threw.

Arguments Threw {A}.

Definition Act (A : Type) : Type :=
  FlyoverAnimation -> Outcome A * FlyoverAnimation * list Effect.

Definition ret {A} (a : A) : Act A := fun s => (Returned a, s, []).

Definition bind {A B} (m : Act A) (k : A -> Act B) : Act B :=
  fun s =>
    match m s with
    | (Returned a, s1, out1) =>
        match k a s1 with
        | (r, s2, out2) => (r, s2, out1 ++ out2)
        end
    | (Threw, s1, out1) => (Threw, s1, out1)
    end.

Definition get : Act FlyoverAnimation := fun s => (Returned s, s, []).

Definition modify (f : FlyoverAnimation -> FlyoverAnimation) : Act unit :=
  fun s => (Returned tt, f s, []).

Definition emit (e : Effect) : Act unit := fun s => (Returned tt, s, [e]).

Definition throwTypeError {A} : Act A :=
  fun s => (Threw, s, [UncaughtTypeError]).

(** A method written as a function from state to result and state. *)
Definition lift {A} (f : FlyoverAnimation -> A * FlyoverAnimation) : Act A :=
  fun s => let (a, s') := f s in (Returned a, s', []).

Declare Scope act_scope.
Delimit Scope act_scope with act.
Notation "x <- m ;; k" := (bind m (fun x => k))
  (at level 61, m at next level, right associativity) : act_scope.
Notation "m ;;; k" := (bind m (fun _ => k))
  (at level 61, right associativity) : act_scope.

Definition stateAfter {A} (r : Outcome A * FlyoverAnimation * list Effect)
    : FlyoverAnimation := snd (fst r).

Definition effectsOf {A} (r : Outcome A * FlyoverAnimation * list Effect)
    : list Effect := snd r.

Definition outcomeOf {A} (r : Outcome A * FlyoverAnimation * list Effect)
    : Outcome A := fst (fst r).

(** ** Settings *)

Definition setMode (m : Mode) (s : FlyoverAnimation) :=
  mkAnimation (isPlaying s) (isPaused s) (animationFrame s) (lastTimestamp s)
    (progress s) m (speed s) (cameraAltitude s) (cameraPitch s)
    (cumulativeDistances s) (totalDistance s) (distanceDataInitialized s)
    (lastCameraAltitude s) (lastBearing s) (bearingHistory s)
    (lastSmoothedPosition s).

Definition setSpeed (v : Q) (s : FlyoverAnimation) :=
  mkAnimation (isPlaying s) (isPaused s) (animationFrame s) (lastTimestamp s)
    (progress s) (mode s) v (cameraAltitude s) (cameraPitch s)
    (cumulativeDistances s) (totalDistance s) (distanceDataInitialized s)
    (lastCameraAltitude s) (lastBearing s) (bearingHistory s)
    (lastSmoothedPosition s).

Definition setCameraAltitude (v : Q) (s : FlyoverAnimation) :=
  mkAnimation (isPlaying s) (isPaused s) (animationFrame s) (lastTimestamp s)
    (progress s) (mode s) (speed s) v (cameraPitch s)
    (cumulativeDistances s) (totalDistance s) (distanceDataInitialized s)
    (lastCameraAltitude s) (lastBearing s) (bearingHistory s)
    (lastSmoothedPosition s).

Definition setCameraPitch (v : Q) (s : FlyoverAnimation) :=
  mkAnimation (isPlaying s) (isPaused s) (animationFrame s) (lastTimestamp s)
    (progress s) (mode s) (speed s) (cameraAltitude s) v
    (cumulativeDistances s) (totalDistance s) (distanceDataInitialized s)
    (lastCameraAltitude s) (lastBearing s) (bearingHistory s)
    (lastSmoothedPosition s).

(** Array access [a[i]]; [None] is [undefined]. *)
Definition at_ {A} (a : list A) (i : Z) : option A :=
  if (i <? 0)%Z then None else nth_error a (Z.to_nat i).

(** [0, 1, ..., n-1]. *)
Definition range (n : Z) : list Z :=
  List.map Z.of_nat (seq 0 (Z.to_nat n)).

Definition length_ {A} (a : list A) : Z := Z.of_nat (List.length a).

(** ** Distance data *)

Section Engine.

Context {M : JSMath}.

Definition calculateDistance (point1 point2 : TrackPoint) : Q :=
  let R := 6371000 in
  let lat1 := lat point1 * Math_PI / 180 in
  let lat2 := lat point2 * Math_PI / 180 in
  let dLat := lat2 - lat1 in
  let dLon := (lon point2 - lon point1) * Math_PI / 180 in
  let a := Math_sin (dLat / 2) * Math_sin (dLat / 2) +
           Math_cos lat1 * Math_cos lat2 *
           Math_sin (dLon / 2) * Math_sin (dLon / 2) in
  let c := 2 * Math_atan2 (Math_sqrt a) (Math_sqrt (1 - a)) in
  R * c.

(** The loop of [initializeDistanceData]: [prev] is [points[i - 1]], [rest]
    is [points[i..]], [total] is [this.totalDistance] and [acc] is
    [this.cumulativeDistances]. *)
Fixpoint accumulateDistances (prev : TrackPoint) (rest : list TrackPoint)
    (total : Q) (acc : list Q) : Q * list Q :=
  match rest with
  | [] => (total, acc)
  | p :: rest' =>
      let dist := calculateDistance prev p in
      let total' := total + dist in
      accumulateDistances p rest' total' (acc ++ [total'])
  end.

(** The log line is the fixed part of the message; the numbers in it are
    left out. *)
Definition initializeDistanceData (gpx : GPXMap) : Act unit :=
  match GPX.getTrackPoints gpx with
  | p0 :: (_ :: _) as rest =>
      let (total, ds) := accumulateDistances p0 rest 0 [0] in
      (modify (set_distanceData (Some ds) total true) ;;;
       emit (ConsoleLog "Track initialized"))%act
  | _ =>
      modify (fun s =>
        set_distanceData (cumulativeDistances s) (totalDistance s) false s)
  end.

(** The loop of [findSegmentAtDistance]; [l] and [r] are the variables
    [left] and [right]. *)
Equations? segmentLoop (distances : list Q) (targetDistance : Q)
    (left right : Z) : Z by wf (Z.to_nat (right - left)) lt :=
  segmentLoop distances targetDistance l r with Z_lt_dec l (r - 1) => {
    | Specif.left _ =>
        let mid := ((l + r) / 2)%Z in
        let below :=
          match at_ distances mid with
          | Some d => Qle_bool d targetDistance
          | None => false
          end in
        if below
        then segmentLoop distances targetDistance mid r
        else segmentLoop distances targetDistance l mid;
    | Specif.right _ => l }.
Proof.
  all: subst mid; pose proof (Z.div_mod (l + r) 2);
    pose proof (Z.mod_pos_bound (l + r) 2); lia.
Qed.

Definition findSegmentAtDistance (distances : list Q) (targetDistance : Q)
    : Z :=
  segmentLoop distances targetDistance 0 (length_ distances - 1).

(** ** Geometry *)

(** Normalize bearing to 0-360 range. *)
Definition normalizeBearing (bearing : Q) : Q :=
  JS.rem (JS.rem bearing 360 + 360) 360.

(** Shortest angular difference between two bearings. *)
Definition bearingDifference (b1 b2 : Q) : Q :=
  let diff := normalizeBearing (b2 - b1) in
  if JS.gtb diff 180 then diff - 360 else diff.

Definition calculateBearing (point1 point2 : TrackPoint) : Q :=
  let lat1 := lat point1 * Math_PI / 180 in
  let lat2 := lat point2 * Math_PI / 180 in
  let dLon := (lon point2 - lon point1) * Math_PI / 180 in
  let y := Math_sin dLon * Math_cos lat2 in
  let x := Math_cos lat1 * Math_sin lat2 -
           Math_sin lat1 * Math_cos lat2 * Math_cos dLon in
  let bearing := Math_atan2 y x * 180 / Math_PI in
  JS.rem (bearing + 360) 360.

Definition interpolate (point1 point2 : TrackPoint) (t : Q) : TrackPoint :=
  {| lat := lat point1 + (lat point2 - lat point1) * t;
     lon := lon point1 + (lon point2 - lon point1) * t;
     ele := ele point1 + (ele point2 - ele point1) * t |}.

(** Blend two bearings with given weight for first bearing. *)
Definition blendBearings (bearing1 bearing2 weight1 : Q) : Q :=
  let rad1 := bearing1 * Math_PI / 180 in
  let rad2 := bearing2 * Math_PI / 180 in
  let sinSum := Math_sin rad1 * weight1 + Math_sin rad2 * (1 - weight1) in
  let cosSum := Math_cos rad1 * weight1 + Math_cos rad2 * (1 - weight1) in
  let blendedRad := Math_atan2 sinSum cosSum in
  normalizeBearing (blendedRad * 180 / Math_PI).

(** Convert meters to lat/lon offsets: [(latOffset, lonOffset)]. *)
Definition metersToLatLon (meters bearing latitude : Q) : Q * Q :=
  let bearingRad := bearing * Math_PI / 180 in
  let latOffset := (meters / 111320) * Math_cos bearingRad in
  let lonOffset :=
    (meters / (111320 * Math_cos (latitude * Math_PI / 180))) *
    Math_sin bearingRad in
  (latOffset, lonOffset).

Definition calculateZoom (altitude : Q) : Q :=
  Qmax 10 (Qmin 18 (18 - Math_log2 (altitude / 50))).

End Engine.

(** ** Smoothing *)

Section Smoothers.

Context {M : JSMath}.

Definition smoothAltitude (targetAltitude : Q) (s : FlyoverAnimation)
    : Q * FlyoverAnimation :=
  match lastCameraAltitude s with
  | None => (targetAltitude, set_lastCameraAltitude (Some targetAltitude) s)
  | Some last =>
      if JS.gtb targetAltitude last then
        (targetAltitude, set_lastCameraAltitude (Some targetAltitude) s)
      else
        let next := last + (targetAltitude - last) * altitudeSmoothingFactor in
        (next, set_lastCameraAltitude (Some next) s)
  end.

Definition speedFactor (s : FlyoverAnimation) : Q := Qmax 1 (speed s).

Definition dynamicSmoothingFactor (s : FlyoverAnimation) : Q :=
  Qmax 0.015 (0.06 / Math_sqrt (speedFactor s)).

Definition dynamicHistorySize (s : FlyoverAnimation) : Z :=
  Z.min 60 (JS.floor (20 * Math_sqrt (speedFactor s))).

(** [while (history.length > size) history.shift()].  On an empty history
    and a negative [size] the source loop does not end; [size] is at least
    20 for a square root that obeys [JSMathLaws]. *)
Fixpoint shiftWhileLonger (history : list Q) (size : Z) : list Q :=
  match history with
  | [] => []
  | _ :: rest =>
      if (length_ history >? size)%Z then shiftWhileLonger rest size
      else history
  end.

(** [weights[i] = (i + 1) / length]. *)
Definition recencyWeights (n : Z) : list Q :=
  List.map (fun i => inject_Z (i + 1) / inject_Z n) (range n).

Definition sumWeights (weights : list Q) : Q :=
  fold_left (fun weightSum weight => weightSum + weight) weights 0.

(** The second loop of [smoothBearing]: [(sinSum, cosSum)]. *)
Definition circularSums (history weights : list Q) (weightSum : Q) : Q * Q :=
  fold_left
    (fun (acc : Q * Q) (bw : Q * Q) =>
       let (sinSum, cosSum) := acc in
       let (b, w) := bw in
       let rad := b * Math_PI / 180 in
       let normalizedWeight := w / weightSum in
       (sinSum + Math_sin rad * normalizedWeight,
        cosSum + Math_cos rad * normalizedWeight))
    (combine history weights) (0, 0).

(** The weighted circular mean of the history, normalized. *)
Definition historyMean (history : list Q) : Q :=
  let weights := recencyWeights (length_ history) in
  let weightSum := sumWeights weights in
  let (sinSum, cosSum) := circularSums history weights weightSum in
  let avgBearing := Math_atan2 sinSum cosSum * 180 / Math_PI in
  normalizeBearing avgBearing.

Definition smoothBearing (newBearing : Q) (s : FlyoverAnimation)
    : Q * FlyoverAnimation :=
  match lastBearing s with
  | None => (newBearing, set_bearing (Some newBearing) [newBearing] s)
  | Some last =>
      let history :=
        shiftWhileLonger (bearingHistory s ++ [newBearing])
          (dynamicHistorySize s) in
      let normalizedAvg := historyMean history in
      let diff := bearingDifference last normalizedAvg in
      let next := normalizeBearing (last + diff * dynamicSmoothingFactor s) in
      (next, set_bearing (Some next) history s)
  end.

Definition smoothPosition (newPosition : TrackPoint) (s : FlyoverAnimation)
    : TrackPoint * FlyoverAnimation :=
  match lastSmoothedPosition s with
  | None => (newPosition, set_lastSmoothedPosition (Some newPosition) s)
  | Some last =>
      let dynamicFactor :=
        Qmax 0.04 (positionSmoothingFactor / Math_sqrt (speedFactor s)) in
      let next :=
        {| lat := lat last + (lat newPosition - lat last) * dynamicFactor;
           lon := lon last + (lon newPosition - lon last) * dynamicFactor;
           ele := ele last + (ele newPosition - ele last) * dynamicFactor |} in
      (next, set_lastSmoothedPosition (Some next) s)
  end.

(** ** Terrain *)

(** Query terrain elevation at a point, with fallback to track data. *)
Definition queryTerrainElevation (gpx : GPXMap) (lon lat : Q)
    (fallbackElevation : option Q) : Q :=
  match GPX.map gpx with
  | None => JS.orZero fallbackElevation
  | Some engine =>
      match engine_queryTerrainElevation engine lon lat with
      | TerrainValue elevation =>
          if JS.gtb elevation 0 then elevation * terrainExaggeration
          else JS.orZero fallbackElevation
      | TerrainNull => JS.orZero fallbackElevation
      | TerrainThrows => JS.orZero fallbackElevation
      end
  end.

(** The loop of [getTrackElevationNear]: [minDist] is [None] for
    [Infinity]. *)
Fixpoint nearestElevation (points : list TrackPoint) (lon0 lat0 : Q)
    (minDist : option Q) (nearestEle : Q) : Q :=
  match points with
  | [] => nearestEle
  | point :: rest =>
      let dist :=
        Math_sqrt ((lon point - lon0) * (lon point - lon0) +
                   (lat point - lat0) * (lat point - lat0)) in
      let closer :=
        match minDist with
        | None => true
        | Some m => JS.ltb dist m
        end in
      if closer then nearestElevation rest lon0 lat0 (Some dist) (ele point)
      else nearestElevation rest lon0 lat0 minDist nearestEle
  end.

Definition getTrackElevationNear (gpx : GPXMap) (lon lat : Q) : Q :=
  nearestElevation (GPX.getTrackPoints gpx) lon lat None 0.

(** One turn of the loop of [calculateLineOfSightClearance]. *)
Definition lineOfSightStep (gpx : GPXMap)
    (cameraLon cameraLat lookAtLon lookAtLat lookAtAlt : Q) (numSamples : Z)
    (minRequiredCamAlt : Q) (i : Z) : Q :=
  let clearance := minTerrainClearance in
  let t := inject_Z i / inject_Z numSamples in
  if JS.geb t 0.98 then minRequiredCamAlt
  else
    let lon := cameraLon + (lookAtLon - cameraLon) * t in
    let lat := cameraLat + (lookAtLat - cameraLat) * t in
    let trackEle := getTrackElevationNear gpx lon lat in
    let terrainAlt := queryTerrainElevation gpx lon lat (Some trackEle) in
    let requiredCamAlt := (terrainAlt + clearance - lookAtAlt * t) / (1 - t) in
    Qmax minRequiredCamAlt requiredCamAlt.

(** Minimum camera altitude needed for clear line of sight. *)
Definition calculateLineOfSightClearance (gpx : GPXMap)
    (cameraLon cameraLat lookAtLon lookAtLat lookAtAlt : Q) (numSamples : Z)
    : Q :=
  fold_left
    (lineOfSightStep gpx cameraLon cameraLat lookAtLon lookAtLat lookAtAlt
       numSamples)
    (range (numSamples + 1)) 0.

End Smoothers.

(** ** Track sampling and camera *)

Section Controller.

Context {M : JSMath}.

Local Open Scope act_scope.

(** The interpolation factor within segment [i]: [0] when the segment has
    no length, also when an end of it is [undefined] (the comparison of
    NaN with 0 is false). *)
Definition segmentFraction (distances : list Q) (i : Z) (d : Q) : Q :=
  match at_ distances i,
        at_ distances (Z.min (i + 1) (length_ distances - 1)) with
  | Some segmentStartDist, Some segmentEndDist =>
      let segmentLength := segmentEndDist - segmentStartDist in
      if JS.gtb segmentLength 0 then (d - segmentStartDist) / segmentLength
      else 0
  | _, _ => 0
  end.

(** The position at distance [d] along the track, as the source computes it
    for the look-behind, look-ahead and immediate look-ahead points: find
    the segment, take its two points, interpolate.  [None] when one of the
    two points is [undefined], where [interpolate] throws. *)
Definition positionAtDistance (points : list TrackPoint) (distances : list Q)
    (d : Q) : option TrackPoint :=
  let i := findSegmentAtDistance distances d in
  match at_ points i, at_ points (Z.min (i + 1) (length_ points - 1)) with
  | Some point1, Some point2 =>
      Some (interpolate point1 point2 (segmentFraction distances i d))
  | _, _ => None
  end.

(** Mean direction bearing from past and future distance along track. *)
Definition calculateMeanDirectionBearing (s : FlyoverAnimation)
    (distances : list Q) (currentDistance : Q) (points : list TrackPoint)
    : option Q :=
  let lookDistance := Qmin 1200 (400 * Math_sqrt (speedFactor s)) in
  let pastDistance := Qmax 0 (currentDistance - lookDistance) in
  let futureDistance :=
    Qmin (totalDistance s) (currentDistance + lookDistance) in
  match positionAtDistance points distances pastDistance,
        positionAtDistance points distances futureDistance with
  | Some pastPos, Some futurePos => Some (calculateBearing pastPos futurePos)
  | _, _ => None
  end.

Definition ensureDistanceData (gpx : GPXMap) : Act unit :=
  s <- get ;;
  if distanceDataInitialized s then ret tt else initializeDistanceData gpx.

(** Get point at progress using distance-based interpolation. *)
Definition getPointAtProgress (gpx : GPXMap) (progress : Q)
    : Act (option TrackPosition) :=
  let points := GPX.getTrackPoints gpx in
  if (length_ points <? 2)%Z then ret None
  else
    ensureDistanceData gpx ;;;
    let progress := Qmax 0 (Qmin 1 progress) in
    s <- get ;;
    let targetDistance := progress * totalDistance s in
    match cumulativeDistances s with
    | None => throwTypeError
    | Some distances =>
        let segmentIndex := findSegmentAtDistance distances targetDistance in
        match at_ points segmentIndex,
              at_ points (Z.min (segmentIndex + 1) (length_ points - 1)) with
        | Some point1, Some point2 =>
            let t := segmentFraction distances segmentIndex targetDistance in
            let rawPos := interpolate point1 point2 t in
            currentPos <- lift (smoothPosition rawPos) ;;
            match calculateMeanDirectionBearing s distances targetDistance
                    points with
            | None => throwTypeError
            | Some meanDirectionBearing =>
                let immediateLookAhead :=
                  Qmin (totalDistance s) (targetDistance + 50) in
                match positionAtDistance points distances immediateLookAhead
                with
                | None => throwTypeError
                | Some immediateLookAheadPos =>
                    let immediateBearing :=
                      calculateBearing rawPos immediateLookAheadPos in
                    let meanWeight :=
                      Qmin 0.95 (0.80 + 0.015 * (speedFactor s - 1)) in
                    let blendedBearing :=
                      blendBearings meanDirectionBearing immediateBearing
                        meanWeight in
                    smoothedBearing <- lift (smoothBearing blendedBearing) ;;
                    ret (Some {| position := currentPos;
                                 rawPosition := rawPos;
                                 bearing := smoothedBearing;
                                 rawBearing := blendedBearing;
                                 index := segmentIndex |})
                end
            end
        | _, _ => ret None
        end
    end.

(** The fallback pose. *)
Definition standardCamera (s : FlyoverAnimation) (position : TrackPoint)
    (altitude bearing : Q) : CameraPose :=
  StandardCamera (lon position) (lat position) (calculateZoom altitude)
    (cameraPitch s) bearing.

(** The end of both branches of [getCameraPosition]: the free camera when
    the engine has it, the fallback pose otherwise. *)
Definition emitPose (gpx : GPXMap) (free fallback : CameraPose)
    : Act CameraPose :=
  match GPX.map gpx with
  | None => ret fallback
  | Some engine =>
      match engine_freeCamera engine with
      | FreeCameraWorks => ret free
      | FreeCameraThrows =>
          emit (ConsoleWarn
                  "Free camera API failed, falling back to standard camera:")
          ;;; ret fallback
      | MaplibreUndefined => ret fallback
      end
  end.

(** The loop of the bird's eye branch: [angle] from 0 to 315 by 45. *)
Definition maxTerrainAround (gpx : GPXMap) (position : TrackPoint)
    (trackElevation : Q) : Q :=
  let sampleRadius := 500 in
  fold_left
    (fun maxTerrainHeight k =>
       let angle := inject_Z (45 * k) in
       let (latOffset, lonOffset) :=
         metersToLatLon sampleRadius angle (lat position) in
       let sampleLon := lon position + lonOffset in
       let sampleLat := lat position + latOffset in
       let elevation := queryTerrainElevation gpx sampleLon sampleLat None in
       Qmax maxTerrainHeight elevation)
    (range 8) trackElevation.

(** Terrain-aware camera position. *)
Definition getCameraPosition (gpx : GPXMap) (trackPosition : TrackPosition)
    : Act CameraPose :=
  let position := position trackPosition in
  let bearing := bearing trackPosition in
  let trackPointElevation := ele position * terrainExaggeration in
  s <- get ;;
  match mode s with
  | follow =>
      let offsetDistance := cameraDistance in
      let backBearing := JS.rem (bearing + 180) 360 in
      let (latOffset, lonOffset) :=
        metersToLatLon offsetDistance backBearing (lat position) in
      let cameraLon := lon position + lonOffset in
      let cameraLat := lat position + latOffset in
      let lookAtDistance := 30 in
      let (lookLatOffset, lookLonOffset) :=
        metersToLatLon lookAtDistance bearing (lat position) in
      let lookAtLon := lon position + lookLonOffset in
      let lookAtLat := lat position + lookLatOffset in
      let lookAtTerrainEle :=
        queryTerrainElevation gpx lookAtLon lookAtLat
          (Some trackPointElevation) in
      let lookAtAlt := Qmax trackPointElevation lookAtTerrainEle + 5 in
      let lineOfSightCamAlt :=
        calculateLineOfSightClearance gpx cameraLon cameraLat
          lookAtLon lookAtLat lookAtAlt 30 in
      let cameraGroundElevation :=
        queryTerrainElevation gpx cameraLon cameraLat
          (Some trackPointElevation) in
      let minAltForLoS := lineOfSightCamAlt + cameraAltitude s in
      let minAltForGround :=
        cameraGroundElevation + cameraAltitude s + minTerrainClearance in
      let rawAltitude := Qmax minAltForLoS minAltForGround in
      requiredAltitude <- lift (smoothAltitude rawAltitude) ;;
      emitPose gpx
        (FreeCamera cameraLon cameraLat requiredAltitude
           lookAtLon lookAtLat (Some lookAtAlt))
        (standardCamera s position (cameraAltitude s) bearing)
  | birdseye =>
      let trackElevation :=
        queryTerrainElevation gpx (lon position) (lat position) None in
      let maxTerrainHeight := maxTerrainAround gpx position trackElevation in
      let requiredAltitude :=
        maxTerrainHeight + (cameraAltitude s * 3) + minTerrainClearance in
      let (latOffset, lonOffset) :=
        metersToLatLon 50 bearing (lat position) in
      emitPose gpx
        (FreeCamera (lon position) (lat position) requiredAltitude
           (lon position + lonOffset) (lat position + latOffset) None)
        (standardCamera s position (cameraAltitude s * 3) bearing)
  end.

End Controller.

(** ** Playback *)

Section Playback.

Context {M : JSMath}.

Local Open Scope act_scope.

Definition initProgressMarker (gpx : GPXMap) : Act unit :=
  match GPX.map gpx with
  | None => ret tt
  | Some _ => emit InitProgressMarker
  end.

(** The marker source is created on the way when it is missing. *)
Definition updateProgressMarker (gpx : GPXMap) (position : TrackPoint)
    : Act unit :=
  match GPX.map gpx with
  | None => ret tt
  | Some _ => emit (UpdateProgressMarker position)
  end.

Definition setProgressMarkerVisible (gpx : GPXMap) (visible : bool)
    : Act unit :=
  match GPX.map gpx with
  | None => ret tt
  | Some _ => emit (SetProgressMarkerVisible visible)
  end.

Definition applyCameraPosition (gpx : GPXMap) (cameraPosition : CameraPose)
    : Act unit :=
  match GPX.map gpx with
  | None => ret tt
  | Some _ => emit (ApplyCameraPosition cameraPosition)
  end.

(** [GPXMap.triggerRepaint] calls the engine without a guard. *)
Definition triggerRepaint (gpx : GPXMap) : Act unit :=
  match GPX.map gpx with
  | None => throwTypeError
  | Some _ => emit TriggerRepaint
  end.

(** The four assignments that clear the smoothing state. *)
Definition resetSmoothing (s : FlyoverAnimation) : FlyoverAnimation :=
  set_lastSmoothedPosition None
    (set_bearing None [] (set_lastCameraAltitude None s)).

(** One frame.  [timestamp] is the argument ([None] when the method is
    called without one), [now] is what [performance.now()] reads if it is
    asked, [handle] is what [requestAnimationFrame] returns if it is asked.
    A host callback ([onProgress], [onFrame], [onComplete]) is the effect
    of that name; it takes place when the host has set the callback. *)
Definition animate (gpx : GPXMap) (timestamp : option Q) (now : Q)
    (handle : Z) : Act unit :=
  s <- get ;;
  if negb (isPlaying s) || isPaused s then ret tt
  else
    let timestamp :=
      match timestamp with
      | Some ts => if JS.eqb ts 0 then now else ts
      | None => now
      end in
    let deltaTime := timestamp - lastTimestamp s in
    modify (set_lastTimestamp timestamp) ;;;
    let baseSpeedMps := 160 in
    let effectiveSpeed := baseSpeedMps * speed s in
    let distanceThisFrame := effectiveSpeed * (deltaTime / 1000) in
    let progressIncrement :=
      if JS.gtb (totalDistance s) 0
      then distanceThisFrame / totalDistance s
      else 0 in
    let progress' := Qmin 1 (progress s + progressIncrement) in
    modify (set_progress progress') ;;;
    trackPosition <- getPointAtProgress gpx progress' ;;
    match trackPosition with
    | Some tp =>
        cameraPosition <- getCameraPosition gpx tp ;;
        applyCameraPosition gpx cameraPosition ;;;
        updateProgressMarker gpx (rawPosition tp)
    | None => ret tt
    end ;;;
    emit (OnProgress progress') ;;;
    emit (OnFrame progress') ;;;
    if JS.geb progress' 1 then
      modify (set_isPlaying false) ;;;
      emit OnComplete
    else
      emit (RequestAnimationFrame handle) ;;;
      modify (set_animationFrame (Some handle)).

(** [startClock] is the reading of [performance.now()] stored in
    [lastTimestamp]; [frameClock] is the reading the first frame takes. *)
Definition start (gpx : GPXMap) (startClock frameClock : Q) (handle : Z)
    : Act unit :=
  s <- get ;;
  if isPlaying s then ret tt
  else if (length_ (GPX.getTrackPoints gpx) <? 2)%Z then
    emit (ConsoleError "Not enough track points for animation")
  else
    initializeDistanceData gpx ;;;
    modify (set_lastCameraAltitude None) ;;;
    modify (set_bearing None []) ;;;
    modify (set_lastSmoothedPosition None) ;;;
    initProgressMarker gpx ;;;
    modify (set_isPlaying true) ;;;
    modify (set_isPaused false) ;;;
    modify (set_progress 0) ;;;
    modify (set_lastTimestamp startClock) ;;;
    animate gpx None frameClock handle.

Definition pause : Act unit := modify (set_isPaused true).

Definition resume (gpx : GPXMap) (startClock frameClock : Q) (handle : Z)
    : Act unit :=
  s <- get ;;
  if negb (isPlaying s) then ret tt
  else
    modify (set_isPaused false) ;;;
    modify (set_lastTimestamp startClock) ;;;
    animate gpx None frameClock handle.

Definition stop (gpx : GPXMap) : Act unit :=
  modify (set_isPlaying false) ;;;
  modify (set_isPaused false) ;;;
  modify (set_progress 0) ;;;
  modify (set_lastCameraAltitude None) ;;;
  modify (set_bearing None []) ;;;
  modify (set_lastSmoothedPosition None) ;;;
  setProgressMarkerVisible gpx false ;;;
  s <- get ;;
  match animationFrame s with
  | Some h =>
      if (h =? 0)%Z then ret tt
      else
        emit (CancelAnimationFrame h) ;;;
        modify (set_animationFrame None)
  | None => ret tt
  end.

(** For recording: step through animation frame by frame.  [p] is the
    argument [progress]. *)
Definition stepToProgress (gpx : GPXMap) (p : Q) : Act unit :=
  ensureDistanceData gpx ;;;
  s <- get ;;
  (if JS.eqb p 0 || JS.ltb p (progress s)
   then
     modify (set_lastCameraAltitude None) ;;;
     modify (set_bearing None []) ;;;
     modify (set_lastSmoothedPosition None) ;;;
     initProgressMarker gpx
   else ret tt) ;;;
  modify (set_progress p) ;;;
  trackPosition <- getPointAtProgress gpx p ;;
  match trackPosition with
  | Some tp =>
      cameraPosition <- getCameraPosition gpx tp ;;
      applyCameraPosition gpx cameraPosition ;;;
      updateProgressMarker gpx (rawPosition tp) ;;;
      triggerRepaint gpx
  | None => ret tt
  end.

Definition getTotalDuration (gpx : GPXMap) : Act Q :=
  ensureDistanceData gpx ;;;
  s <- get ;;
  let baseSpeedMps := 160 in
  let effectiveSpeed := baseSpeedMps * speed s in
  ret (if JS.gtb (totalDistance s) 0
       then totalDistance s / effectiveSpeed
       else 160).

Definition getTotalDistance (gpx : GPXMap) : Act Q :=
  ensureDistanceData gpx ;;;
  s <- get ;;
  ret (totalDistance s).

End Playback.

(** ** The rest of the animation module *)

(** Smoothing function for camera movement.  [Math.pow(x, 3)] is
    [x * x * x]. *)
Definition easeInOutCubic (t : Q) : Q :=
  if JS.ltb t 0.5 then 4 * t * t * t
  else 1 - ((-2 * t + 2) * (-2 * t + 2) * (-2 * t + 2)) / 2.

Section TerrainSampling.

Context {M : JSMath}.

(** One turn of the loop of [sampleTerrainAlongPath]. *)
Definition sampleTerrainStep (gpx : GPXMap)
    (startLon startLat endLon endLat : Q) (numSamples : Z)
    (maxElevation : Q) (i : Z) : Q :=
  let t := inject_Z i / inject_Z numSamples in
  let lon := startLon + (endLon - startLon) * t in
  let lat := startLat + (endLat - startLat) * t in
  let trackEle := getTrackElevationNear gpx lon lat in
  let elevation := queryTerrainElevation gpx lon lat (Some trackEle) in
  Qmax maxElevation elevation.

(** Sample terrain elevation along a path and find maximum height.
    [baseElevation] is 0 when the caller leaves it out. *)
Definition sampleTerrainAlongPath (gpx : GPXMap)
    (startLon startLat endLon endLat : Q) (numSamples : Z)
    (baseElevation : Q) : Q :=
  fold_left
    (sampleTerrainStep gpx startLon startLat endLon endLat numSamples)
    (range (numSamples + 1)) baseElevation.

End TerrainSampling.

(** ** The recorder's frame schedule

    [VideoRecorder.recordFrameByFrame], as far as the controller sees it:
    the number of frames, the progress of each frame, and the calls of
    [stepToProgress] in frame order.  The canvas, the media recorder and
    the waits between two frames are left out; a step that throws ends the
    loop, as the [try] around it does. *)

Module Recorder.

Section Frames.

Context {M : JSMath}.

Local Open Scope act_scope.

(** [Math.ceil(this.animation.getTotalDuration() * this.fps)]. *)
Definition totalFrames (duration fps : Q) : Z := Qceiling (duration * fps).

(** [frame / totalFrames]. *)
Definition frameProgress (totalFrames frame : Z) : Q :=
  inject_Z frame / inject_Z totalFrames.



End Frames.

End Recorder.

(** ** A rational platform

    A [JSMath] made of rational approximations, to run the model on
    concrete tracks: [Math.PI] is 355/113, the square root is exact to
    twelve decimals below, sine and cosine are their Taylor polynomials of degree
    five and four, and the angle of [(x, y)] grows linearly with
    [|y| / (|x| + |y|)] in each quadrant.  Results are cut to fifteen
    decimals. *)

Module Rational.

Definition PI : Q := 355 # 113.

(** Fifteen decimals, rounded down. *)
Definition round (x : Q) : Q :=
  inject_Z (Qfloor (x * 1000000000000000)) / 1000000000000000.

Definition sqrt (x : Q) : Q :=
  inject_Z (Z.sqrt (Qfloor (x * 1000000000000000000000000))) / 1000000000000.

Definition sin (x : Q) : Q :=
  round (x - x * x * x / 6 + x * x * x * x * x / 120).

Definition cos (x : Q) : Q :=
  round (1 - x * x / 2 + x * x * x * x / 24).

Definition atan2 (y x : Q) : Q :=
  let d := Qabs x + Qabs y in
  let r := round ((PI / 2) * (Qabs y / d)) in
  let a := if Qle_bool 0 x then r else PI - r in
  if Qle_bool 0 y then a else - a.

Definition log2 (x : Q) : Q := inject_Z (Z.log2 (Qfloor x)).

Definition math : JSMath := {|
  Math_PI := PI;
  Math_sin := sin;
  Math_cos := cos;
  Math_atan2 := atan2;
  Math_sqrt := sqrt;
  Math_log2 := log2
|}.

End Rational.

(** ** Vocabulary of the specification *)

(** A cumulative-distance array never goes down. *)
Fixpoint nondecreasing (D : list Q) : Prop :=
  match D with
  | a :: (b :: _) as rest => a <= b /\ nondecreasing rest
  | _ => True
  end.

(** [m] is the maximum of the numbers [xs]. *)
Definition isMaximumOf (m : Q) (xs : list Q) : Prop :=
  (exists x, In x xs /\ x == m) /\ forall x, In x xs -> x <= m.

(** The sample parameters of the line of sight: [t = i / N] for
    [i = 0..N], those below 0.98. *)
Definition sampleParameters (numSamples : Z) : list Q :=
  filter (fun t => negb (JS.geb t 0.98))
    (List.map (fun i => inject_Z i / inject_Z numSamples)
       (range (numSamples + 1))).

(** [Math.max(0, Math.min(1, progress))]. *)
Definition clampProgress (p : Q) : Q := Qmax 0 (Qmin 1 p).

(** The test of [stepToProgress]: [progress === 0 || progress <
    this.progress]. *)
Definition stepsBack (p : Q) (s : FlyoverAnimation) : bool :=
  JS.eqb p 0 || JS.ltb p (progress s).

(** No bearing is stored and the history is empty. *)
Definition bearingCleared (s : FlyoverAnimation) : Prop :=
  lastBearing s = None /\ bearingHistory s = [].

(** The bearing history holds the stored bearing and nothing older. *)
Definition historyIsFresh (s : FlyoverAnimation) : Prop :=
  bearingHistory s
  = match lastBearing s with
    | Some b => [b]
    | None => []
    end.

(** The method [m] leaves the part [f] of the state as it was, whether it
    returns or throws. *)
Definition keeps {A X : Type} (f : FlyoverAnimation -> X) (m : Act A)
    : Prop :=
  forall s, f (stateAfter (m s)) = f s.

(** From a state where [P] holds, [m] leaves a state where [Q] holds,
    whether it returns or throws. *)
Definition leads {A : Type} (P : FlyoverAnimation -> Prop) (m : Act A)
    (Q : FlyoverAnimation -> Prop) : Prop :=
  forall s, P s -> Q (stateAfter (m s)).

Section Rendering.

Context {M : JSMath}.

(** The terrain elevation at a point, with the nearest track elevation as
    fallback. *)
Definition terrainAlt (gpx : GPXMap) (lon lat : Q) : Q :=
  queryTerrainElevation gpx lon lat (Some (getTrackElevationNear gpx lon lat)).

(** The camera altitude that sample [t] of the sight line asks for. *)
Definition requiredCamAlt (gpx : GPXMap)
    (cameraLon cameraLat lookAtLon lookAtLat lookAtAlt : Q) (t : Q) : Q :=
  (terrainAlt gpx (cameraLon + (lookAtLon - cameraLon) * t)
     (cameraLat + (lookAtLat - cameraLat) * t)
   + 80 - lookAtAlt * t) / (1 - t).

(** What [stepToProgress] and a frame of [animate] do once the progress is
    set: sample the track at [p], compose the camera, apply it, move the
    marker; [stepToProgress] then asks for a repaint. *)
Definition renderAt (gpx : GPXMap) (p : Q) (repaint : bool) : Act unit :=
  (trackPosition <- getPointAtProgress gpx p ;;
   match trackPosition with
   | Some tp =>
       cameraPosition <- getCameraPosition gpx tp ;;
       applyCameraPosition gpx cameraPosition ;;;
       updateProgressMarker gpx (rawPosition tp) ;;;
       (if repaint then triggerRepaint gpx else ret tt)
   | None => ret tt
   end)%act.

End Rendering.

(** [x] lies between [a] and [b], whichever is the larger. *)
Definition between (a b x : Q) : Prop :=
  (a <= x /\ x <= b) \/ (b <= x /\ x <= a).

(** Each coordinate of [r] lies between those of [p] and [q]. *)
Definition betweenPoints (p q r : TrackPoint) : Prop :=
  between (lat p) (lat q) (lat r) /\
  between (lon p) (lon q) (lon r) /\
  between (ele p) (ele q) (ele r).

(** [suffix] is what is left of [l] when elements are dropped from its
    front. *)
Definition isSuffixOf {A : Type} (suffix l : list A) : Prop :=
  exists dropped, l = dropped ++ suffix.

(** The state [stop] leaves before it looks at the frame handle. *)
Definition stopped (s : FlyoverAnimation) : FlyoverAnimation :=
  resetSmoothing (set_progress 0 (set_isPaused false (set_isPlaying false s))).

Section MoreVocabulary.

Context {M : JSMath}.

(** The length of the track from [prev] through [rest]: the sum of the
    distances between consecutive points. *)
Fixpoint pathLengthFrom (prev : TrackPoint) (rest : list TrackPoint) : Q :=
  match rest with
  | [] => 0
  | p :: rest' => calculateDistance prev p + pathLengthFrom p rest'
  end.

Definition pathLength (points : list TrackPoint) : Q :=
  match points with
  | [] => 0
  | p0 :: rest => pathLengthFrom p0 rest
  end.

(** The running totals of the distances from [prev] through [rest],
    starting at [total]. *)
Fixpoint cumulativeFrom (total : Q) (prev : TrackPoint)
    (rest : list TrackPoint) : list Q :=
  match rest with
  | [] => []
  | p :: rest' =>
      let total' := total + calculateDistance prev p in
      total' :: cumulativeFrom total' p rest'
  end.

(** The distance that [getTrackElevationNear] compares: in degrees, on the
    plane. *)
Definition planarDistance (lon0 lat0 : Q) (point : TrackPoint) : Q :=
  Math_sqrt ((lon point - lon0) * (lon point - lon0) +
             (lat point - lat0) * (lat point - lat0)).

(** The distance data of the controller is that of the track of the map,
    or is still to be built. *)
Definition distanceDataCurrent (gpx : GPXMap) (s : FlyoverAnimation)
    : Prop :=
  distanceDataInitialized s = false \/
  (cumulativeDistances s
   = cumulativeDistances (stateAfter (initializeDistanceData gpx s)) /\
   totalDistance s
   = totalDistance (stateAfter (initializeDistanceData gpx s))).

(** The progress a frame of [animate] moves to, at time [timestamp]. *)
Definition advancedProgress (s : FlyoverAnimation) (timestamp : Q) : Q :=
  let deltaTime := timestamp - lastTimestamp s in
  let baseSpeedMps := 160 in
  let effectiveSpeed := baseSpeedMps * speed s in
  let distanceThisFrame := effectiveSpeed * (deltaTime / 1000) in
  let progressIncrement :=
    if JS.gtb (totalDistance s) 0
    then distanceThisFrame / totalDistance s
    else 0 in
  Qmin 1 (progress s + progressIncrement).

(** The time a frame of [animate] takes as now: its argument, or the clock
    when the argument is missing or 0. *)
Definition frameTime (timestamp : option Q) (now : Q) : Q :=
  match timestamp with
  | Some ts => if JS.eqb ts 0 then now else ts
  | None => now
  end.

(** What a frame of [animate] does once the progress is set: sample the
    track, compose the camera, apply it, move the marker. *)
Definition renderFrame (gpx : GPXMap) (p : Q) : Act unit :=
  (trackPosition <- getPointAtProgress gpx p ;;
   match trackPosition with
   | Some tp =>
       cameraPosition <- getCameraPosition gpx tp ;;
       applyCameraPosition gpx cameraPosition ;;;
       updateProgressMarker gpx (rawPosition tp)
   | None => ret tt
   end)%act.

(** The altitude the sight line from a camera at [camAlt] to a look-at
    point at [lookAtAlt] has at parameter [t]. *)
Definition sightLineAlt (camAlt lookAtAlt t : Q) : Q :=
  camAlt * (1 - t) + lookAtAlt * t.

(** The terrain that the bird's eye branch of [getCameraPosition] samples
    500 m from [position], at [45 * k] degrees. *)
Definition terrainAround (gpx : GPXMap) (position : TrackPoint) (k : Z) : Q :=
  let (latOffset, lonOffset) :=
    metersToLatLon 500 (inject_Z (45 * k)) (lat position) in
  queryTerrainElevation gpx (lon position + lonOffset)
    (lat position + latOffset) None.

End MoreVocabulary.

(** ** Tracks and controllers to run the model on *)

(** Three points at sea level on the equator, about 1.1 km apart. *)
Definition seaLevelTrack : list TrackPoint :=
  [ mkPoint 0 0 0; mkPoint 0 0.01 0; mkPoint 0 0.02 0 ].

(** The sea-level track on a map without an engine. *)
Definition seaLevelMap : GPXMap := GPX.mkMap None seaLevelTrack.

(** The sea-level track on a map whose engine has no terrain data and a
    working free camera. *)
Definition flatMap : GPXMap :=
  GPX.mkMap (Some (mkEngine (fun _ _ => TerrainNull) FreeCameraWorks))
    seaLevelTrack.

(** A track below sea level, on a map without an engine. *)
Definition deadSeaTrack : list TrackPoint :=
  [ mkPoint 0 0 (-430); mkPoint 0 0.01 (-430); mkPoint 0 0.02 (-430) ].

Definition deadSeaMap : GPXMap := GPX.mkMap None deadSeaTrack.

(** Two points a few millimetres apart. *)
Definition tinyMap : GPXMap :=
  GPX.mkMap None [ mkPoint 0 0 0; mkPoint 0 (1 # 100000000) 0 ].

(** A track of a single point. *)
Definition onePointMap : GPXMap := GPX.mkMap None [ mkPoint 0 0 0 ].

(** A fresh controller in bird's eye mode. *)
Definition overhead : FlyoverAnimation := setMode birdseye constructor.

(** A run in the middle of the track: playing, half way, with smoothing
    state from the frames before. *)
Definition midRun : FlyoverAnimation :=
  set_lastCameraAltitude (Some 250)
    (set_bearing (Some 90) [88; 89; 90]
       (set_progress 0.5 (set_isPlaying true constructor))).

(** * Properties *)

Unset Implicit Arguments.

(** ** Comparisons *)

Lemma ltb_lt (a b : Q) : JS.ltb a b = true <-> a < b.
Proof.
  unfold JS.ltb. rewrite negb_true_iff.
  split; intro H.
  - apply Qnot_le_lt. intro Hle. apply Qle_bool_iff in Hle. congruence.
  - destruct (Qle_bool b a) eqn:E; [|reflexivity].
    apply Qle_bool_iff in E. exfalso. apply (Qlt_not_le _ _ H E).
Qed.

Lemma ltb_ge (a b : Q) : JS.ltb a b = false <-> b <= a.
Proof.
  unfold JS.ltb. rewrite negb_false_iff. apply Qle_bool_iff.
Qed.

Lemma gtb_lt (a b : Q) : JS.gtb a b = true <-> b < a.
Proof. apply ltb_lt. Qed.

Lemma gtb_le (a b : Q) : JS.gtb a b = false <-> a <= b.
Proof. apply ltb_ge. Qed.

Lemma geb_le (a b : Q) : JS.geb a b = true <-> b <= a.
Proof. apply Qle_bool_iff. Qed.

Lemma geb_lt (a b : Q) : JS.geb a b = false <-> a < b.
Proof.
  unfold JS.geb. split; intro H.
  - apply Qnot_le_lt. intro Hle. apply Qle_bool_iff in Hle. congruence.
  - destruct (Qle_bool b a) eqn:E; [|reflexivity].
    apply Qle_bool_iff in E. exfalso. apply (Qlt_not_le _ _ H E).
Qed.

(** ** The model at work *)

Example findSegmentAtDistance_inside :
  findSegmentAtDistance [0; 10; 20; 30] 15 = 1%Z.
Proof. reflexivity. Qed.

Example findSegmentAtDistance_at_end :
  findSegmentAtDistance [0; 10; 20; 30] 30 = 2%Z.
Proof. reflexivity. Qed.

Example findSegmentAtDistance_flat_segment :
  findSegmentAtDistance [0; 10; 10; 30] 10 = 2%Z.
Proof. reflexivity. Qed.

Example normalizeBearing_negative : normalizeBearing (-10) == 350.
Proof. reflexivity. Qed.

Example normalizeBearing_full_turn : normalizeBearing 725 == 5.
Proof. reflexivity. Qed.

Example bearingDifference_across_north : bearingDifference 359 1 == 2.
Proof. reflexivity. Qed.

Example bearingDifference_back_across_north :
  bearingDifference 1 359 == -2.
Proof. reflexivity. Qed.

Example shiftWhileLonger_drops_oldest :
  shiftWhileLonger [1; 2; 3; 4; 5] 3 = [3; 4; 5].
Proof. reflexivity. Qed.

Example stop_clears :
  stateAfter (stop seaLevelMap midRun) = constructor.
Proof. reflexivity. Qed.

(** ** Altitude smoothing *)

(** C1.  Altitude smoothing is asymmetric.  With no stored altitude (the
    state every reset leaves) the call returns its input and stores it.
    With a stored altitude [last]: a target strictly above it is returned as
    it is and stored (instant rise); a target at or below it gives
    [last + 0.05 * (target - last)], which is stored (slow descent). *)
Theorem smoothAltitude_asymmetric (s : FlyoverAnimation) (target : Q) :
  (lastCameraAltitude s = None ->
   smoothAltitude target s
   = (target, set_lastCameraAltitude (Some target) s)) /\
  smoothAltitude target (resetSmoothing s)
  = (target, set_lastCameraAltitude (Some target) (resetSmoothing s)) /\
  (forall last, lastCameraAltitude s = Some last ->
     (last < target ->
      smoothAltitude target s
      = (target, set_lastCameraAltitude (Some target) s)) /\
     (target <= last ->
      exists next,
        smoothAltitude target s
        = (next, set_lastCameraAltitude (Some next) s) /\
        next == last + 0.05 * (target - last))).
Proof.
  split; [|split].
  - intro H. unfold smoothAltitude. rewrite H. reflexivity.
  - reflexivity.
  - intros last H. unfold smoothAltitude. rewrite H. split; intro Hcmp.
    + apply gtb_lt in Hcmp. rewrite Hcmp. reflexivity.
    + apply gtb_le in Hcmp. rewrite Hcmp.
      eexists. split; [reflexivity|].
      unfold altitudeSmoothingFactor. ring.
Qed.

(** A rise from 100 to 120 is taken at once; a drop from 100 to 80 moves
    the camera to 99. *)
Lemma smoothAltitude_asymmetric_witness :
  let s := set_lastCameraAltitude (Some 100) constructor in
  fst (smoothAltitude 120 s) = 120 /\
  fst (smoothAltitude 80 s) == 99.
Proof.
  intro s.
  destruct (smoothAltitude_asymmetric s 120) as [_ [_ Hrise]].
  destruct (smoothAltitude_asymmetric s 80) as [_ [_ Hfall]].
  destruct (Hrise 100 eq_refl) as [Hup _].
  destruct (Hfall 100 eq_refl) as [_ Hdown].
  split.
  - rewrite Hup; [reflexivity|]. reflexivity.
  - destruct Hdown as [next [Heq Hnext]]; [discriminate|].
    rewrite Heq. simpl. rewrite Hnext. reflexivity.
Defined.

(** ** Terrain query *)

(** C9.  [queryTerrainElevation] uses a query result only when it is a
    number strictly above 0, and then returns it times the exaggeration
    factor 1.5.  A result that is [null], or 0 or below, a query that
    throws, and a missing engine all give the fallback elevation, 0 when
    there is none: a genuine elevation at or below sea level is replaced by
    the fallback. *)
Theorem queryTerrainElevation_fallback (gpx : GPXMap) (lon lat : Q)
    (fallback : option Q) :
  terrainExaggeration = 1.5 /\
  (GPX.map gpx = None ->
   queryTerrainElevation gpx lon lat fallback = JS.orZero fallback) /\
  (forall engine, GPX.map gpx = Some engine ->
     match engine_queryTerrainElevation engine lon lat with
     | TerrainValue elevation =>
         (0 < elevation ->
          queryTerrainElevation gpx lon lat fallback = elevation * 1.5) /\
         (elevation <= 0 ->
          queryTerrainElevation gpx lon lat fallback = JS.orZero fallback)
     | TerrainNull =>
         queryTerrainElevation gpx lon lat fallback = JS.orZero fallback
     | TerrainThrows =>
         queryTerrainElevation gpx lon lat fallback = JS.orZero fallback
     end) /\
  JS.orZero None = 0 /\
  (forall v, JS.orZero (Some v) = v).
Proof.
  split; [reflexivity|].
  split; [|split; [|split; [reflexivity|reflexivity]]].
  - intro H. unfold queryTerrainElevation. rewrite H. reflexivity.
  - intros engine H. unfold queryTerrainElevation. rewrite H.
    destruct (engine_queryTerrainElevation engine lon lat);
      try reflexivity.
    split; intro Hcmp.
    + apply gtb_lt in Hcmp. rewrite Hcmp. reflexivity.
    + apply gtb_le in Hcmp. rewrite Hcmp. reflexivity.
Qed.

(** An engine that reports 0 at the shore and -12 below sea level, 40 on
    land: with fallback 7 the three queries give 7, 7 and 60. *)
Lemma queryTerrainElevation_fallback_witness :
  let engine :=
    mkEngine (fun lon lat =>
                if Qle_bool lon 0 then TerrainValue 0
                else if Qle_bool lon 1 then TerrainValue (-12)
                else TerrainValue 40)
             FreeCameraWorks in
  let gpx := GPX.mkMap (Some engine) [] in
  queryTerrainElevation gpx 0 0 (Some 7) = 7 /\
  queryTerrainElevation gpx 1 0 (Some 7) = 7 /\
  queryTerrainElevation gpx 2 0 (Some 7) = 40 * 1.5.
Proof.
  intros engine gpx.
  pose proof (queryTerrainElevation_fallback gpx 0 0 (Some 7)) as H0.
  pose proof (queryTerrainElevation_fallback gpx 1 0 (Some 7)) as H1.
  pose proof (queryTerrainElevation_fallback gpx 2 0 (Some 7)) as H2.
  destruct H0 as [_ [_ [H0 _]]]. specialize (H0 engine eq_refl).
  destruct H1 as [_ [_ [H1 _]]]. specialize (H1 engine eq_refl).
  destruct H2 as [_ [_ [H2 _]]]. specialize (H2 engine eq_refl).
  simpl in H0, H1, H2.
  split; [|split].
  - apply H0. discriminate.
  - apply H1. discriminate.
  - apply H2. reflexivity.
Defined.

(** ** Running methods *)

Lemma bind_returned {A B} (m : Act A) (k : A -> Act B) s a s1 out1 :
  m s = (Returned a, s1, out1) ->
  bind m k s
  = (outcomeOf (k a s1), stateAfter (k a s1), out1 ++ effectsOf (k a s1)).
Proof.
  intro H. unfold bind. rewrite H.
  destruct (k a s1) as [[r s2] out2]. reflexivity.
Qed.

(** [initializeDistanceData] always returns. *)
Lemma initializeDistanceData_returns {M : JSMath} (gpx : GPXMap) s :
  outcomeOf (initializeDistanceData gpx s) = Returned tt.
Proof.
  unfold initializeDistanceData.
  destruct (GPX.getTrackPoints gpx) as [|p0 [|p1 rest]]; try reflexivity.
  destruct (accumulateDistances _ _ _ _). reflexivity.
Qed.

Lemma ensureDistanceData_returns {M : JSMath} (gpx : GPXMap) s :
  outcomeOf (ensureDistanceData gpx s) = Returned tt.
Proof.
  unfold ensureDistanceData, bind, get.
  destruct (distanceDataInitialized s).
  - reflexivity.
  - pose proof (initializeDistanceData_returns gpx s) as H.
    destruct (initializeDistanceData gpx s) as [[r s1] out1].
    unfold outcomeOf in H. simpl in *. subst r. reflexivity.
Qed.

(** ** Duration *)

(** C10.  [getTotalDuration] returns [totalDistance / (160 * speed)] when
    the total distance (after the distance data was built, if it had to be)
    is above 0, and the constant 160 when it is 0, as on a track whose
    points all coincide.  The quotient is the one of [Q]: at speed 0 it is
    0 where JavaScript has [Infinity]. *)
Theorem getTotalDuration_value {M : JSMath} (gpx : GPXMap)
    (s : FlyoverAnimation) :
  let r := getTotalDuration gpx s in
  let s' := stateAfter (ensureDistanceData gpx s) in
  stateAfter r = s' /\
  (0 < totalDistance s' ->
   outcomeOf r = Returned (totalDistance s' / (160 * speed s'))) /\
  (totalDistance s' <= 0 -> outcomeOf r = Returned 160).
Proof.
  intros r s'. subst r s'. unfold getTotalDuration.
  pose proof (ensureDistanceData_returns gpx s) as H.
  destruct (ensureDistanceData gpx s) as [[o s1] out1] eqn:E.
  unfold outcomeOf in H. simpl in H. subst o.
  rewrite (bind_returned _ _ _ _ _ _ E).
  unfold stateAfter, outcomeOf, bind, get, ret. simpl.
  split; [reflexivity|]. split; intro Hcmp.
  - apply gtb_lt in Hcmp. rewrite Hcmp. reflexivity.
  - apply gtb_le in Hcmp. rewrite Hcmp. reflexivity.
Qed.

(** Three coincident points: the total distance is 0 and the duration is
    160.  The sea-level track at twice the speed: the duration is the
    distance over 320. *)
Lemma getTotalDuration_value_witness :
  let still := GPX.mkMap None [mkPoint 1 2 3; mkPoint 1 2 3; mkPoint 1 2 3] in
  outcomeOf (getTotalDuration (M := Rational.math) still constructor)
  = Returned 160 /\
  let s' :=
    stateAfter (ensureDistanceData (M := Rational.math) seaLevelMap
                  (setSpeed 2 constructor)) in
  outcomeOf (getTotalDuration (M := Rational.math) seaLevelMap
               (setSpeed 2 constructor))
  = Returned (totalDistance s' / (160 * 2)).
Proof.
  intro still. split.
  - apply (getTotalDuration_value (M := Rational.math) still constructor).
    vm_compute. discriminate.
  - intro s'.
    apply (getTotalDuration_value (M := Rational.math) seaLevelMap
             (setSpeed 2 constructor)).
    vm_compute. reflexivity.
Defined.

(** ** Distance data and segment lookup *)

Lemma at_some {A} (a : list A) (i : Z) :
  (0 <= i < length_ a)%Z -> exists x, at_ a i = Some x.
Proof.
  intros [H0 H1]. unfold at_, length_ in *.
  destruct (i <? 0)%Z eqn:E; [apply Z.ltb_lt in E; lia|].
  destruct (nth_error a (Z.to_nat i)) eqn:En; [eauto|].
  apply nth_error_None in En. lia.
Qed.

Lemma at_last (a : list Q) :
  a <> [] -> at_ a (length_ a - 1) = Some (last a 0).
Proof.
  intro Hne. unfold at_, length_.
  destruct a as [|x a]; [congruence|].
  destruct (Z.of_nat (List.length (x :: a)) - 1 <? 0)%Z eqn:E.
  - apply Z.ltb_lt in E. simpl List.length in E. lia.
  - replace (Z.to_nat (Z.of_nat (List.length (x :: a)) - 1))
      with (List.length a) by (simpl List.length; lia).
    clear E Hne. revert x. induction a as [|y a IH]; intro x.
    + reflexivity.
    + change (nth_error (y :: a) (List.length a)
              = Some (last (y :: a) 0)).
      apply IH.
Qed.

Lemma nondecreasing_snoc (acc : list Q) (x : Q) :
  nondecreasing acc -> last acc 0 <= x -> acc <> [] ->
  nondecreasing (acc ++ [x]).
Proof.
  induction acc as [|a acc IH]; intros Hs Hl Hne; [congruence|].
  destruct acc as [|b acc].
  - simpl in *. split; [exact Hl|exact I].
  - destruct Hs as [Hab Hs]. split; [exact Hab|].
    apply IH; [exact Hs|exact Hl|discriminate].
Qed.

Lemma last_snoc (acc : list Q) (x : Q) : last (acc ++ [x]) 0 = x.
Proof. apply last_last. Qed.

Section DistanceData.

Context {M : JSMath}.

Lemma accumulateDistances_shape prev rest total acc :
  acc <> [] -> last acc 0 = total ->
  let r := accumulateDistances prev rest total acc in
  (List.length (snd r) = List.length acc + List.length rest)%nat /\
  (exists tail, snd r = acc ++ tail) /\
  last (snd r) 0 = fst r.
Proof.
  revert prev total acc.
  induction rest as [|p rest IH]; intros prev total acc Hne Hlast; simpl.
  - split; [lia|]. split; [exists []; symmetry; apply app_nil_r|].
    exact Hlast.
  - destruct (IH p (total + calculateDistance prev p)
                (acc ++ [total + calculateDistance prev p])) as [Hl [Ht Hf]].
    + destruct acc; discriminate.
    + apply last_snoc.
    + split; [|split].
      * rewrite Hl, length_app. simpl. lia.
      * destruct Ht as [tail Ht]. rewrite Ht, <- app_assoc. eauto.
      * exact Hf.
Qed.

Lemma accumulateDistances_nondecreasing prev rest total acc :
  (forall p q, 0 <= calculateDistance p q) ->
  acc <> [] -> last acc 0 = total -> nondecreasing acc ->
  nondecreasing (snd (accumulateDistances prev rest total acc)).
Proof.
  intro Hpos. revert prev total acc.
  induction rest as [|p rest IH]; intros prev total acc Hne Hlast Hs; simpl.
  - exact Hs.
  - apply IH.
    + destruct acc; discriminate.
    + apply last_snoc.
    + apply nondecreasing_snoc; [exact Hs| |exact Hne].
      rewrite Hlast. specialize (Hpos prev p). lra.
Qed.

Lemma calculateDistance_nonneg {L : JSMathLaws M} (p q : TrackPoint) :
  0 <= calculateDistance p q.
Proof.
  unfold calculateDistance. cbv zeta.
  match goal with
  | |- 0 <= _ * (2 * Math_atan2 ?y ?x) =>
      pose proof (@Math_atan2_nonneg M L y x) as H
  end.
  match type of H with
  | 0 <= Math_sqrt ?a -> _ => specialize (H (@Math_sqrt_nonneg M L a))
  end.
  lra.
Qed.

End DistanceData.

(** The loop keeps [D[left] <= d] and, unless [right] is still the last
    index, [d < D[right]]; it ends with [right = left + 1]. *)
Lemma segmentLoop_invariant (D : list Q) (d : Q) (l r : Z) :
  (0 <= l < r)%Z -> (r <= length_ D - 1)%Z ->
  (exists a, at_ D l = Some a /\ a <= d) ->
  (r = (length_ D - 1)%Z \/ exists b, at_ D r = Some b /\ d < b) ->
  let i := segmentLoop D d l r in
  (l <= i)%Z /\ (i + 1 <= r)%Z /\
  (exists a, at_ D i = Some a /\ a <= d) /\
  ((i + 1)%Z = (length_ D - 1)%Z \/ exists b, at_ D (i + 1) = Some b /\ d < b).
Proof.
  funelim (segmentLoop D d l r); intros Hlr Hr Hleft Hright; cbv zeta.
  - clear Heq Heqcall.
    assert (Hmid : (l < (l + r) / 2 < r)%Z).
    { pose proof (Z.div_mod (l + r) 2).
      pose proof (Z.mod_pos_bound (l + r) 2). lia. }
    destruct (at_some distances ((l + r) / 2)) as [dm Hdm]; [lia|].
    rewrite Hdm.
    destruct (Qle_bool dm targetDistance) eqn:Hcmp.
    + apply Qle_bool_iff in Hcmp.
      destruct H as [H1 [H2 [H3 H4]]]; [lia|lia|eauto|exact Hright|].
      repeat split; [lia|lia|exact H3|exact H4].
    + assert (Hlt : targetDistance < dm).
      { apply Qnot_le_lt. intro Hle. apply Qle_bool_iff in Hle. congruence. }
      destruct H0 as [H1 [H2 [H3 H4]]]; [lia|lia|exact Hleft|eauto|].
      repeat split; [lia|lia|exact H3|exact H4].
  - clear Heq. assert (r = (l + 1)%Z) by lia. subst r.
    repeat split; [lia|lia|exact Hleft|exact Hright].
Qed.

(** C3.  On a track with at least two points [initializeDistanceData]
    builds an array [D] as long as the track, with [D[0] = 0] and
    [D[n - 1] = totalDistance], that never goes down; and for every
    distance [d] from 0 to [totalDistance], [findSegmentAtDistance] returns
    an index [i] from 0 to [n - 2] with [D[i] <= d <= D[i + 1]]. *)
Theorem findSegmentAtDistance_correct {M : JSMath} {L : JSMathLaws M}
    (gpx : GPXMap) (s : FlyoverAnimation) (d : Q) :
  let n := length_ (GPX.getTrackPoints gpx) in
  let s' := stateAfter (initializeDistanceData gpx s) in
  (2 <= n)%Z ->
  0 <= d -> d <= totalDistance s' ->
  exists D,
    cumulativeDistances s' = Some D /\
    distanceDataInitialized s' = true /\
    length_ D = n /\
    at_ D 0 = Some 0 /\
    at_ D (n - 1) = Some (totalDistance s') /\
    nondecreasing D /\
    let i := findSegmentAtDistance D d in
    (0 <= i <= n - 2)%Z /\
    exists a b,
      at_ D i = Some a /\ at_ D (i + 1) = Some b /\ a <= d /\ d <= b.
Proof.
  intros n s'. subst n s'. unfold initializeDistanceData.
  destruct (GPX.getTrackPoints gpx) as [|p0 [|p1 rest]] eqn:Hpts;
    try (unfold length_; simpl; lia).
  intros _.
  pose proof (accumulateDistances_shape p0 (p1 :: rest) 0 [0]) as Hshape.
  pose proof (accumulateDistances_nondecreasing p0 (p1 :: rest) 0 [0])
    as Hmono.
  destruct (accumulateDistances p0 (p1 :: rest) 0 [0]) as [total D] eqn:Hacc.
  destruct Hshape as [Hlen [[tail Htail] Hlast]];
    [discriminate|reflexivity|].
  simpl in Hlen, Htail, Hlast.
  assert (Hn : length_ D = length_ (p0 :: p1 :: rest)).
  { unfold length_. rewrite Hlen. simpl. lia. }
  assert (Hn2 : (2 <= length_ D)%Z).
  { rewrite Hn. unfold length_. simpl List.length. lia. }
  remember (length_ (p0 :: p1 :: rest)) as n eqn:Hn0. clear Hn0.
  unfold stateAfter, bind, modify, emit. simpl.
  intros Hd0 Hd1. exists D.
  assert (Hne : D <> []) by (rewrite Htail; discriminate).
  assert (Hfirst : at_ D 0 = Some 0) by (rewrite Htail; reflexivity).
  assert (Hend : at_ D (n - 1) = Some total).
  { rewrite <- Hn, <- Hlast. apply at_last. exact Hne. }
  repeat (split; [first [reflexivity | assumption]|]).
  split.
  { apply Hmono; [apply calculateDistance_nonneg|discriminate|reflexivity|].
    exact I. }
  cbv zeta. unfold findSegmentAtDistance.
  destruct (segmentLoop_invariant D d 0 (length_ D - 1))
    as [H1 [H2 [[a [Ha Had]] H4]]].
  - lia.
  - lia.
  - exists 0. split; [exact Hfirst|exact Hd0].
  - left. reflexivity.
  - subst n. split; [lia|].
    destruct H4 as [Hi | [b [Hb Hdb]]].
    + exists a, total. rewrite Hi.
      repeat split; [exact Ha|exact Hend|exact Had|exact Hd1].
    + exists a, b. repeat split; [exact Ha|exact Hb|exact Had|].
      apply Qlt_le_weak. exact Hdb.
Qed.

(** ** The rational platform obeys the laws *)

Lemma Qdiv_fraction_bounds (a b : Q) :
  0 <= a -> 0 <= b -> 0 <= a / (b + a) /\ a / (b + a) <= 1.
Proof.
  intros Ha Hb.
  destruct (Qeq_dec (b + a) 0) as [Hz | Hnz].
  - assert (H : a / (b + a) == 0).
    { unfold Qdiv. rewrite Hz. change (/ 0) with 0. ring. }
    rewrite H. split; discriminate.
  - assert (Hpos : 0 < b + a).
    { destruct (Qlt_le_dec 0 (b + a)) as [H | H]; [exact H|].
      exfalso. apply Hnz. lra. }
    split.
    + apply Qle_shift_div_l; [exact Hpos|]. lra.
    + apply Qle_shift_div_r; [exact Hpos|]. lra.
Qed.

Lemma Rational_sqrt_nonneg (x : Q) : 0 <= Rational.sqrt x.
Proof.
  unfold Rational.sqrt.
  apply Qle_shift_div_l; [reflexivity|].
  assert (H : 0 * 1000000000000 == inject_Z 0) by reflexivity.
  rewrite H. rewrite <- Zle_Qle. apply Z.sqrt_nonneg.
Qed.

Lemma Rational_sqrt_ge_1 (x : Q) : 1 <= x -> 1 <= Rational.sqrt x.
Proof.
  intro Hx. unfold Rational.sqrt.
  apply Qle_shift_div_l; [reflexivity|].
  assert (H : 1 * 1000000000000
              == inject_Z (Z.sqrt 1000000000000000000000000))
    by reflexivity.
  rewrite H. rewrite <- Zle_Qle. apply Z.sqrt_le_mono.
  assert (H1 : 1000000000000000000000000
               <= x * 1000000000000000000000000) by lra.
  apply Qfloor_resp_le in H1. exact H1.
Qed.

Lemma Rational_round_bounds (x : Q) :
  0 <= x -> 0 <= Rational.round x /\ Rational.round x <= x.
Proof.
  intro Hx. unfold Rational.round. split.
  - apply Qle_shift_div_l; [reflexivity|].
    assert (H : 0 * 1000000000000000 == inject_Z 0) by reflexivity.
    rewrite H. rewrite <- Zle_Qle.
    assert (H1 : 0 <= x * 1000000000000000) by lra.
    apply Qfloor_resp_le in H1. exact H1.
  - apply Qle_shift_div_r; [reflexivity|]. apply Qfloor_le.
Qed.

Lemma Rational_atan2_nonneg (y x : Q) : 0 <= y -> 0 <= Rational.atan2 y x.
Proof.
  intro Hy. unfold Rational.atan2. cbv zeta.
  apply Qle_bool_iff in Hy. rewrite Hy.
  destruct (Qdiv_fraction_bounds (Qabs y) (Qabs x)) as [H0 H1];
    [apply Qabs_nonneg|apply Qabs_nonneg|].
  unfold Rational.PI.
  remember (Qabs y / (Qabs x + Qabs y)) as q eqn:Hq. clear Hq.
  assert (Hp : 0 <= (355 # 113) / 2) by discriminate.
  assert (Hp2 : (355 # 113) == 2 * ((355 # 113) / 2)) by reflexivity.
  remember ((355 # 113) / 2) as p eqn:Hpe. clear Hpe.
  destruct (Rational_round_bounds (p * q)) as [Hr0 Hr1]; [nra|].
  remember (Rational.round (p * q)) as r eqn:Hr. clear Hr.
  destruct (Qle_bool 0 x); [|rewrite Hp2]; nra.
Qed.

Lemma Rational_laws : JSMathLaws Rational.math.
Proof.
  constructor.
  - exact Rational_sqrt_nonneg.
  - exact Rational_sqrt_ge_1.
  - exact Rational_atan2_nonneg.
Qed.

(** On the sea-level track the point 1000 m along the way lies in a
    segment whose ends enclose it. *)
Lemma findSegmentAtDistance_correct_witness :
  let s' :=
    stateAfter
      (initializeDistanceData (M := Rational.math) seaLevelMap constructor) in
  1000 <= totalDistance s' /\
  exists D,
    cumulativeDistances s' = Some D /\
    let i := findSegmentAtDistance D 1000 in
    (0 <= i <= 1)%Z /\
    exists a b,
      at_ D i = Some a /\ at_ D (i + 1) = Some b /\ a <= 1000 /\ 1000 <= b.
Proof.
  intro s'.
  assert (Hd : 1000 <= totalDistance s') by (vm_compute; discriminate).
  split; [exact Hd|].
  destruct (findSegmentAtDistance_correct (M := Rational.math)
              (L := Rational_laws) seaLevelMap constructor 1000)
    as [D [HD [_ [_ [_ [_ [_ Hseg]]]]]]].
  - vm_compute. discriminate.
  - vm_compute. discriminate.
  - exact Hd.
  - exists D. split; [exact HD|exact Hseg].
Defined.

(** ** Bearings *)

Lemma trunc_nonneg (x : Q) :
  0 <= x -> inject_Z (JS.trunc x) <= x /\ x < inject_Z (JS.trunc x) + 1.
Proof.
  intro Hx. unfold JS.trunc.
  apply Qle_bool_iff in Hx. rewrite Hx.
  split; [apply Qfloor_le|].
  pose proof (Qlt_floor x) as H. rewrite inject_Z_plus in H. exact H.
Qed.

Lemma trunc_neg (x : Q) :
  x < 0 -> x <= inject_Z (JS.trunc x) /\ inject_Z (JS.trunc x) - 1 < x.
Proof.
  intro Hx. unfold JS.trunc.
  destruct (Qle_bool 0 x) eqn:E.
  - apply Qle_bool_iff in E. lra.
  - split; [apply Qle_ceiling|].
    pose proof (Qceiling_lt x) as H.
    unfold Z.sub in H. rewrite inject_Z_plus in H.
    change (inject_Z (- (1))) with (-1) in H. lra.
Qed.

(** [a % 360] is [a] minus a whole number of turns, on the side of [a]. *)
Lemma rem_360 (a : Q) :
  (exists k : Z, JS.rem a 360 == a - 360 * inject_Z k) /\
  (0 <= a -> 0 <= JS.rem a 360 /\ JS.rem a 360 < 360) /\
  (a < 0 -> -360 < JS.rem a 360 /\ JS.rem a 360 <= 0).
Proof.
  unfold JS.rem. split; [|split].
  - exists (JS.trunc (a / 360)). reflexivity.
  - intro Ha.
    assert (Hq : 0 <= a / 360) by (apply Qle_shift_div_l; lra).
    destruct (trunc_nonneg _ Hq) as [H1 H2].
    assert (Ha' : a == 360 * (a / 360)) by (field).
    remember (inject_Z (JS.trunc (a / 360))) as t eqn:Ht. clear Ht.
    remember (a / 360) as q eqn:Hqe. clear Hqe. lra.
  - intro Ha.
    assert (Hq : a / 360 < 0) by (apply Qlt_shift_div_r; lra).
    destruct (trunc_neg _ Hq) as [H1 H2].
    assert (Ha' : a == 360 * (a / 360)) by (field).
    remember (inject_Z (JS.trunc (a / 360))) as t eqn:Ht. clear Ht.
    remember (a / 360) as q eqn:Hqe. clear Hqe. lra.
Qed.

(** [normalizeBearing] lands in [0, 360) and moves by whole turns. *)
Lemma normalizeBearing_range (b : Q) :
  0 <= normalizeBearing b /\ normalizeBearing b < 360 /\
  exists k : Z, normalizeBearing b == b + 360 * inject_Z k.
Proof.
  unfold normalizeBearing.
  destruct (rem_360 b) as [[k1 Hk1] [Hpos Hneg]].
  assert (Hr : -360 < JS.rem b 360 /\ JS.rem b 360 < 360).
  { destruct (Qlt_le_dec b 0) as [Hb | Hb].
    - destruct (Hneg Hb). lra.
    - destruct (Hpos Hb). lra. }
  destruct (rem_360 (JS.rem b 360 + 360)) as [[k2 Hk2] [Hpos2 _]].
  destruct Hpos2 as [H0 H1]; [lra|].
  split; [exact H0|]. split; [exact H1|].
  exists (1 + - k1 + - k2)%Z.
  rewrite Hk2, Hk1.
  rewrite !inject_Z_plus, !inject_Z_opp. change (inject_Z 1) with 1. ring.
Qed.

(** Two bearings in [0, 360) that differ by whole turns are equal. *)
Lemma turn_unique (a b : Q) (k : Z) :
  0 <= a -> a < 360 -> 0 <= b -> b < 360 ->
  a == b + 360 * inject_Z k -> a == b.
Proof.
  intros Ha0 Ha1 Hb0 Hb1 Hk.
  assert (Hlo : inject_Z (-1) < inject_Z k).
  { change (inject_Z (-1)) with (-1). lra. }
  assert (Hhi : inject_Z k < inject_Z 1).
  { change (inject_Z 1) with 1. lra. }
  rewrite <- Zlt_Qlt in Hlo, Hhi.
  assert (k = 0%Z) by lia. subst k.
  rewrite Hk. change (inject_Z 0) with 0. ring.
Qed.

(** [bearingDifference] recovers a turn between -180 (excluded) and 180
    from any angle that differs from it by whole turns. *)
Lemma bearingDifference_wrap (b1 b2 x : Q) (k : Z) :
  -180 < x -> x <= 180 ->
  b2 - b1 == x + 360 * inject_Z k ->
  bearingDifference b1 b2 == x.
Proof.
  intros Hx0 Hx1 Hk. unfold bearingDifference. cbv zeta.
  destruct (normalizeBearing_range (b2 - b1)) as [Hn0 [Hn1 [k' Hk']]].
  remember (normalizeBearing (b2 - b1)) as n eqn:Hn. clear Hn.
  destruct (Qlt_le_dec x 0) as [Hneg | Hpos].
  - assert (Heq : n == x + 360).
    { apply (turn_unique n (x + 360) (k + k' + -1)); try lra.
      rewrite Hk', Hk.
      rewrite !inject_Z_plus. change (inject_Z (-1)) with (-1). ring. }
    destruct (JS.gtb n 180) eqn:E.
    + lra.
    + apply gtb_le in E. lra.
  - assert (Heq : n == x).
    { apply (turn_unique n x (k + k')); try lra.
      rewrite Hk', Hk. rewrite inject_Z_plus. ring. }
    destruct (JS.gtb n 180) eqn:E.
    + apply gtb_lt in E. lra.
    + exact Heq.
Qed.

Lemma bearingDifference_range (b1 b2 : Q) :
  -180 < bearingDifference b1 b2 /\ bearingDifference b1 b2 <= 180 /\
  exists k : Z, bearingDifference b1 b2 == b2 - b1 + 360 * inject_Z k.
Proof.
  unfold bearingDifference. cbv zeta.
  destruct (normalizeBearing_range (b2 - b1)) as [Hn0 [Hn1 [k Hk]]].
  remember (normalizeBearing (b2 - b1)) as n eqn:Hn. clear Hn.
  destruct (JS.gtb n 180) eqn:E.
  - apply gtb_lt in E. split; [lra|]. split; [lra|].
    exists (k + -1)%Z. rewrite Hk.
    rewrite inject_Z_plus. change (inject_Z (-1)) with (-1). ring.
  - apply gtb_le in E. split; [lra|]. split; [lra|].
    exists k. exact Hk.
Qed.

Section BearingSmoothing.

Context {M : JSMath} {L : JSMathLaws M}.

Lemma dynamicSmoothingFactor_range (s : FlyoverAnimation) :
  0.015 <= dynamicSmoothingFactor s /\ dynamicSmoothingFactor s <= 0.06.
Proof.
  unfold dynamicSmoothingFactor. split; [apply Q.le_max_l|].
  apply Q.max_lub; [discriminate|].
  pose proof (@Math_sqrt_ge_1 M L (speedFactor s) (Q.le_max_l 1 (speed s)))
    as Hs.
  apply Qle_shift_div_r; lra.
Qed.

End BearingSmoothing.

(** C8.  After the first call, [smoothBearing] returns a bearing in
    [0, 360), stores it, and turns from the previous smoothed bearing by
    exactly [dynamicSmoothingFactor] times the shortest angular difference
    toward the weighted circular mean of the history.  The factor lies
    between 0.015 and 0.06, so a step turns by at most
    [180 * dynamicSmoothingFactor] degrees, whatever the raw bearings do
    around 0 and 360. *)
Theorem smoothBearing_no_wraparound {M : JSMath} {L : JSMathLaws M}
    (s : FlyoverAnimation) (newBearing last : Q) :
  lastBearing s = Some last ->
  let history :=
    shiftWhileLonger (bearingHistory s ++ [newBearing])
      (dynamicHistorySize s) in
  let mean := historyMean history in
  let f := dynamicSmoothingFactor s in
  let out := fst (smoothBearing newBearing s) in
  let s' := snd (smoothBearing newBearing s) in
  lastBearing s' = Some out /\
  bearingHistory s' = history /\
  0 <= out /\ out < 360 /\
  bearingDifference last out == f * bearingDifference last mean /\
  Qabs (bearingDifference last out) <= 180 * f /\
  0.015 <= f /\ f <= 0.06.
Proof.
  intros Hlast history mean f out s'.
  subst out s'. unfold smoothBearing. rewrite Hlast. cbv zeta.
  fold history. fold mean. fold f. simpl fst. simpl snd.
  destruct (dynamicSmoothingFactor_range s) as [Hf0 Hf1]. fold f in Hf0, Hf1.
  destruct (bearingDifference_range last mean) as [Hd0 [Hd1 _]].
  remember (bearingDifference last mean) as diff eqn:Hdiff. clear Hdiff.
  destruct (normalizeBearing_range (last + diff * f)) as [Hn0 [Hn1 [k Hk]]].
  remember (normalizeBearing (last + diff * f)) as out eqn:Hout. clear Hout.
  assert (Hturn : bearingDifference last out == f * diff).
  { apply (bearingDifference_wrap last out (f * diff) k).
    - nra.
    - nra.
    - rewrite Hk. ring. }
  split; [reflexivity|]. split; [reflexivity|].
  split; [exact Hn0|]. split; [exact Hn1|].
  split; [exact Hturn|]. split; [|split; [exact Hf0|exact Hf1]].
  rewrite Hturn. apply Qabs_case; intro Hsign; nra.
Qed.

(** Raw bearings 358, 359 and then 1: the step from the smoothed bearing
    359 stays within 10.8 degrees. *)
Lemma smoothBearing_no_wraparound_witness :
  let s := set_bearing (Some 359) [358; 359] constructor in
  let out := fst (smoothBearing (M := Rational.math) 1 s) in
  lastBearing s = Some 359 /\
  0 <= out /\ out < 360 /\
  Qabs (bearingDifference 359 out) <= 10.8.
Proof.
  intros s out.
  pose proof (smoothBearing_no_wraparound (M := Rational.math)
                (L := Rational_laws) s 1 359 eq_refl) as H.
  cbv zeta in H.
  destruct H as [_ [_ [H0 [H1 [_ [Habs [_ Hf]]]]]]].
  split; [reflexivity|]. split; [exact H0|]. split; [exact H1|].
  eapply Qle_trans; [exact Habs|].
  remember (dynamicSmoothingFactor (M := Rational.math) s) as f eqn:Hfe.
  clear Hfe Habs. lra.
Defined.

(** ** Line-of-sight clearance *)

Lemma Qmax_cases (a b : Q) : Qmax a b = a \/ Qmax a b = b.
Proof.
  unfold Qmax, GenericMinMax.gmax. destruct (a ?= b); auto.
Qed.

Lemma fold_Qmax_maximum (xs : list Q) (acc : Q) :
  isMaximumOf (fold_left Qmax xs acc) (acc :: xs).
Proof.
  revert acc. induction xs as [|x xs IH]; intro acc; simpl.
  - split.
    + exists acc. split; [left; reflexivity|reflexivity].
    + intros y [Hy | []]. subst y. apply Qle_refl.
  - destruct (IH (Qmax acc x)) as [[m [Hin Hm]] Hub]. split.
    + destruct Hin as [Hin | Hin].
      * destruct (Qmax_cases acc x) as [E | E]; rewrite E in Hin;
          exists m; (split; [|exact Hm]); subst m; simpl; auto.
      * exists m. split; [simpl; auto|exact Hm].
    + intros y [Hy | [Hy | Hy]].
      * subst y. eapply Qle_trans; [apply (Q.le_max_l acc x)|].
        apply Hub. left. reflexivity.
      * subst y. eapply Qle_trans; [apply (Q.le_max_r acc x)|].
        apply Hub. left. reflexivity.
      * apply Hub. right. exact Hy.
Qed.

Section LineOfSightProofs.

Context {M : JSMath}.

Variable gpx : GPXMap.
Variables cameraLon cameraLat lookAtLon lookAtLat lookAtAlt : Q.

(** The loop is a running maximum over the samples that are kept. *)
Lemma lineOfSight_fold (numSamples : Z) (indices : list Z) (acc : Q) :
  fold_left
    (lineOfSightStep gpx cameraLon cameraLat lookAtLon lookAtLat lookAtAlt
       numSamples) indices acc
  = fold_left Qmax
      (List.map
         (requiredCamAlt gpx cameraLon cameraLat lookAtLon lookAtLat
            lookAtAlt)
         (filter (fun t => negb (JS.geb t 0.98))
            (List.map (fun i => inject_Z i / inject_Z numSamples) indices)))
      acc.
Proof.
  revert acc. induction indices as [|i indices IH]; intro acc; simpl.
  - reflexivity.
  - unfold lineOfSightStep at 2. cbv zeta.
    destruct (JS.geb (inject_Z i / inject_Z numSamples) 0.98); simpl.
    + apply IH.
    + rewrite IH. reflexivity.
Qed.

Lemma calculateLineOfSightClearance_maximum (numSamples : Z) :
  isMaximumOf
    (calculateLineOfSightClearance gpx cameraLon cameraLat lookAtLon
       lookAtLat lookAtAlt numSamples)
    (0 :: List.map
            (requiredCamAlt gpx cameraLon cameraLat lookAtLon lookAtLat
               lookAtAlt)
            (sampleParameters numSamples)).
Proof.
  unfold calculateLineOfSightClearance, sampleParameters.
  rewrite lineOfSight_fold. apply fold_Qmax_maximum.
Qed.

End LineOfSightProofs.

Lemma range_In (n i : Z) : (0 <= i < n)%Z -> In i (range n).
Proof.
  intro H. unfold range. apply in_map_iff.
  exists (Z.to_nat i). split; [lia|].
  apply in_seq. lia.
Qed.

(** A sample between one sixteenth and 0.98 exists as soon as there are two
    samples or more. *)
Lemma sampleParameters_sixteenth (numSamples : Z) :
  (2 <= numSamples)%Z ->
  exists t, In t (sampleParameters numSamples) /\ (1 # 16) <= t /\ t < 0.98.
Proof.
  intro HN.
  set (i := (numSamples / 16 + 1)%Z).
  assert (Hi : (16 * (numSamples / 16) <= numSamples
                /\ numSamples < 16 * (numSamples / 16) + 16)%Z).
  { pose proof (Z.div_mod numSamples 16).
    pose proof (Z.mod_pos_bound numSamples 16). lia. }
  assert (HNpos : 0 < inject_Z numSamples).
  { change 0 with (inject_Z 0). rewrite <- Zlt_Qlt. lia. }
  assert (Hlo : inject_Z numSamples <= 16 * inject_Z i).
  { change 16 with (inject_Z 16). rewrite <- inject_Z_mult, <- Zle_Qle.
    unfold i. lia. }
  assert (Hhi : 100 * inject_Z i < 98 * inject_Z numSamples).
  { change 100 with (inject_Z 100). change 98 with (inject_Z 98).
    rewrite <- !inject_Z_mult, <- Zlt_Qlt. unfold i. lia. }
  assert (Ht0 : (1 # 16) <= inject_Z i / inject_Z numSamples).
  { apply Qle_shift_div_l; [exact HNpos|]. lra. }
  assert (Ht1 : inject_Z i / inject_Z numSamples < 0.98).
  { apply Qlt_shift_div_r; [exact HNpos|]. lra. }
  exists (inject_Z i / inject_Z numSamples).
  split; [|split; [exact Ht0|exact Ht1]].
  unfold sampleParameters. apply filter_In. split.
  - apply in_map_iff. exists i. split; [reflexivity|].
    apply range_In. unfold i. lia.
  - apply geb_lt in Ht1. rewrite Ht1. reflexivity.
Qed.

(** C2, as the code has it.  For [N >= 1],
    [calculateLineOfSightClearance] returns the maximum of 0 and of
    [(terrainAlt(t) + 80 - lookAtAlt * t) / (1 - t)] over the sample
    parameters [t = i / N], [i = 0..N], that are below 0.98.  On flat
    terrain of elevation 0 with [lookAtAlt = 5] the result is at least 85
    when [N >= 2]; with [N = 1] the only sample is the camera end and the
    result is 80. *)
Theorem calculateLineOfSightClearance_floor {M : JSMath} (gpx : GPXMap)
    (cameraLon cameraLat lookAtLon lookAtLat lookAtAlt : Q)
    (numSamples : Z) :
  (1 <= numSamples)%Z ->
  let r :=
    calculateLineOfSightClearance gpx cameraLon cameraLat lookAtLon
      lookAtLat lookAtAlt numSamples in
  isMaximumOf r
    (0 :: List.map
            (requiredCamAlt gpx cameraLon cameraLat lookAtLon lookAtLat
               lookAtAlt)
            (sampleParameters numSamples)) /\
  ((forall lon lat, terrainAlt gpx lon lat == 0) -> lookAtAlt == 5 ->
   ((2 <= numSamples)%Z -> 85 <= r) /\
   (numSamples = 1%Z -> r == 80)).
Proof.
  intros HN r.
  pose proof (calculateLineOfSightClearance_maximum gpx cameraLon cameraLat
                lookAtLon lookAtLat lookAtAlt numSamples) as Hmax.
  fold r in Hmax. split; [exact Hmax|].
  intros Hflat Halt. split.
  - intro H2.
    destruct (sampleParameters_sixteenth numSamples H2) as [t [Hin [Ht0 Ht1]]].
    destruct Hmax as [_ Hub].
    eapply Qle_trans; [|apply Hub; right; apply in_map; exact Hin].
    unfold requiredCamAlt.
    apply Qle_shift_div_l; [lra|].
    rewrite Hflat, Halt. lra.
  - intro H1. subst numSamples. subst r.
    unfold calculateLineOfSightClearance.
    change (range (1 + 1)) with [0%Z; 1%Z].
    unfold fold_left, lineOfSightStep. cbv zeta.
    change (JS.geb (inject_Z 0 / inject_Z 1) 0.98) with false.
    change (JS.geb (inject_Z 1 / inject_Z 1) 0.98) with true.
    cbv iota.
    fold (terrainAlt gpx
            (cameraLon + (lookAtLon - cameraLon) * (inject_Z 0 / inject_Z 1))
            (cameraLat + (lookAtLat - cameraLat) * (inject_Z 0 / inject_Z 1))).
    rewrite Hflat, Halt.
    change (inject_Z 0 / inject_Z 1) with 0.
    unfold minTerrainClearance.
    apply Q.max_r. discriminate.
Qed.

(** Where every track point has the same elevation, that is the elevation
    near any point. *)
Lemma nearestElevation_constant {M : JSMath} (points : list TrackPoint)
    (lon0 lat0 e : Q) (minDist : option Q) :
  (forall p, In p points -> ele p = e) ->
  nearestElevation points lon0 lat0 minDist e = e.
Proof.
  revert minDist. induction points as [|p points IH]; intros minDist He.
  - reflexivity.
  - simpl.
    match goal with
    | |- (if ?c then _ else _) = _ => destruct c
    end.
    + rewrite (He p (or_introl eq_refl)). apply IH.
      intros q Hq. apply He. right. exact Hq.
    + apply IH. intros q Hq. apply He. right. exact Hq.
Qed.

Lemma terrainAlt_seaLevel {M : JSMath} (lon lat : Q) :
  terrainAlt seaLevelMap lon lat = 0.
Proof.
  unfold terrainAlt, queryTerrainElevation, getTrackElevationNear.
  change (GPX.map seaLevelMap) with (@None MapEngine).
  change (GPX.getTrackPoints seaLevelMap) with seaLevelTrack.
  unfold JS.orZero. apply nearestElevation_constant.
  intros p [H | [H | [H | []]]]; subst p; reflexivity.
Qed.

(** At sea level, 30 samples: the result is at least 85. *)
Lemma calculateLineOfSightClearance_floor_witness :
  85 <= calculateLineOfSightClearance (M := Rational.math) seaLevelMap
          0 0 0 0.01 5 30.
Proof.
  destruct (calculateLineOfSightClearance_floor (M := Rational.math)
              seaLevelMap 0 0 0 0.01 5 30) as [_ Hflat].
  - lia.
  - destruct Hflat as [H _].
    + intros lon lat. rewrite terrainAlt_seaLevel. reflexivity.
    + reflexivity.
    + apply H. lia.
Defined.

(** C2, as the claim has it, fails twice.  At sea level with one sample
    the result is 80, below 85.  Below sea level with one sample the
    result is 0 although the only sample asks for -350: the result is not
    the maximum over the samples. *)
Lemma calculateLineOfSightClearance_counterexample :
  let flat :=
    calculateLineOfSightClearance (M := Rational.math) seaLevelMap
      0 0 0 0.01 5 1 in
  let low :=
    calculateLineOfSightClearance (M := Rational.math) deadSeaMap
      0 0 0 0.01 (-640) 1 in
  let samples :=
    List.map
      (requiredCamAlt (M := Rational.math) deadSeaMap 0 0 0 0.01 (-640))
      (sampleParameters 1) in
  flat == 80 /\ ~ 85 <= flat /\
  low == 0 /\
  (exists x, samples = [x] /\ x == -350) /\
  ~ isMaximumOf low samples.
Proof.
  intros flat low samples.
  assert (Hflat : flat == 80) by (vm_compute; reflexivity).
  assert (Hlow : low == 0) by (vm_compute; reflexivity).
  assert (Hs : exists x, samples = [x] /\ x == -350).
  { eexists. split; [vm_compute; reflexivity|]. vm_compute. reflexivity. }
  split; [exact Hflat|]. split.
  { rewrite Hflat. intro H. vm_compute in H. apply H. reflexivity. }
  split; [exact Hlow|]. split; [exact Hs|].
  destruct Hs as [x0 [Hs Hx0]].
  intros [[x [Hin Hx]] _].
  rewrite Hs in Hin. destruct Hin as [Hin | []]. subst x.
  rewrite Hlow, Hx0 in Hx. vm_compute in Hx. discriminate Hx.
Qed.

(** ** What a method leaves alone *)

Lemma keeps_ret {A X} (f : FlyoverAnimation -> X) (a : A) : keeps f (ret a).
Proof. intro s. reflexivity. Qed.

Lemma keeps_get {X} (f : FlyoverAnimation -> X) : keeps f get.
Proof. intro s. reflexivity. Qed.

Lemma keeps_emit {X} (f : FlyoverAnimation -> X) (e : Effect) :
  keeps f (emit e).
Proof. intro s. reflexivity. Qed.

Lemma keeps_throw {A X} (f : FlyoverAnimation -> X) :
  keeps f (@throwTypeError A).
Proof. intro s. reflexivity. Qed.

Lemma keeps_modify {X} (f : FlyoverAnimation -> X)
    (g : FlyoverAnimation -> FlyoverAnimation) :
  (forall s, f (g s) = f s) -> keeps f (modify g).
Proof. intros H s. apply H. Qed.

Lemma keeps_lift {A X} (f : FlyoverAnimation -> X)
    (g : FlyoverAnimation -> A * FlyoverAnimation) :
  (forall s, f (snd (g s)) = f s) -> keeps f (lift g).
Proof.
  intros H s. unfold lift, stateAfter. specialize (H s).
  destruct (g s) as [a s']. exact H.
Qed.

Lemma keeps_bind {A B X} (f : FlyoverAnimation -> X) (m : Act A)
    (k : A -> Act B) :
  keeps f m -> (forall a, keeps f (k a)) -> keeps f (bind m k).
Proof.
  intros Hm Hk s. unfold bind. specialize (Hm s). unfold stateAfter in *.
  destruct (m s) as [[[a|] s1] out1]; simpl in *.
  - specialize (Hk a s1). unfold stateAfter in Hk.
    destruct (k a s1) as [[r s2] out2]. simpl in *. congruence.
  - exact Hm.
Qed.

(** Walk through a method, one construct at a time. *)
Ltac keeps_step :=
  match goal with
  | |- keeps _ (bind _ _) => apply keeps_bind; [|intro]
  | |- keeps _ (ret _) => apply keeps_ret
  | |- keeps _ get => apply keeps_get
  | |- keeps _ (emit _) => apply keeps_emit
  | |- keeps _ throwTypeError => apply keeps_throw
  | |- keeps _ (modify _) => apply keeps_modify; intro; reflexivity
  | |- keeps _ (match ?x with _ => _ end) => destruct x
  end.

Section Frames.

Context {M : JSMath}.

Variable gpx : GPXMap.

Lemma smoothPosition_keeps {X} (f : FlyoverAnimation -> X) pos :
  (forall v s, f (set_lastSmoothedPosition v s) = f s) ->
  keeps f (lift (smoothPosition pos)).
Proof.
  intro H. apply keeps_lift. intro s. unfold smoothPosition.
  destruct (lastSmoothedPosition s); apply H.
Qed.

Lemma smoothBearing_keeps {X} (f : FlyoverAnimation -> X) b :
  (forall v h s, f (set_bearing v h s) = f s) ->
  keeps f (lift (smoothBearing b)).
Proof.
  intro H. apply keeps_lift. intro s. unfold smoothBearing.
  destruct (lastBearing s); apply H.
Qed.

Lemma smoothAltitude_keeps {X} (f : FlyoverAnimation -> X) a :
  (forall v s, f (set_lastCameraAltitude v s) = f s) ->
  keeps f (lift (smoothAltitude a)).
Proof.
  intro H. apply keeps_lift. intro s. unfold smoothAltitude.
  destruct (lastCameraAltitude s) as [last|]; [|apply H].
  destruct (JS.gtb a last); apply H.
Qed.

Lemma initializeDistanceData_keeps {X} (f : FlyoverAnimation -> X) :
  (forall a b c s, f (set_distanceData a b c s) = f s) ->
  keeps f (initializeDistanceData gpx).
Proof.
  intro H. unfold initializeDistanceData.
  destruct (GPX.getTrackPoints gpx) as [|p0 [|p1 rest]].
  - apply keeps_modify. intro s. apply H.
  - apply keeps_modify. intro s. apply H.
  - destruct (accumulateDistances _ _ _ _) as [total ds].
    apply keeps_bind; [|intro; apply keeps_emit].
    apply keeps_modify. intro s. apply H.
Qed.

Lemma ensureDistanceData_keeps {X} (f : FlyoverAnimation -> X) :
  (forall a b c s, f (set_distanceData a b c s) = f s) ->
  keeps f (ensureDistanceData gpx).
Proof.
  intro H. unfold ensureDistanceData.
  apply keeps_bind; [apply keeps_get|]. intro s.
  destruct (distanceDataInitialized s).
  - apply keeps_ret.
  - apply initializeDistanceData_keeps. exact H.
Qed.

Lemma emitPose_keeps {X} (f : FlyoverAnimation -> X) free fallback :
  keeps f (emitPose gpx free fallback).
Proof. unfold emitPose. repeat keeps_step. Qed.

Lemma initProgressMarker_keeps {X} (f : FlyoverAnimation -> X) :
  keeps f (initProgressMarker gpx).
Proof. unfold initProgressMarker. repeat keeps_step. Qed.

Lemma updateProgressMarker_keeps {X} (f : FlyoverAnimation -> X) pos :
  keeps f (updateProgressMarker gpx pos).
Proof. unfold updateProgressMarker. repeat keeps_step. Qed.

Lemma applyCameraPosition_keeps {X} (f : FlyoverAnimation -> X) pose :
  keeps f (applyCameraPosition gpx pose).
Proof. unfold applyCameraPosition. repeat keeps_step. Qed.

Lemma triggerRepaint_keeps {X} (f : FlyoverAnimation -> X) :
  keeps f (triggerRepaint gpx).
Proof. unfold triggerRepaint. repeat keeps_step. Qed.

(** Sampling the track touches the distance data and the bearing and
    position smoothing, nothing else. *)
Lemma getPointAtProgress_keeps {X} (f : FlyoverAnimation -> X) p :
  (forall a b c s, f (set_distanceData a b c s) = f s) ->
  (forall v s, f (set_lastSmoothedPosition v s) = f s) ->
  (forall v h s, f (set_bearing v h s) = f s) ->
  keeps f (getPointAtProgress gpx p).
Proof.
  intros Hd Hp Hb. unfold getPointAtProgress.
  destruct (length_ (GPX.getTrackPoints gpx) <? 2)%Z; [apply keeps_ret|].
  apply keeps_bind; [apply ensureDistanceData_keeps; exact Hd|]. intros _.
  apply keeps_bind; [apply keeps_get|]. intro s.
  destruct (cumulativeDistances s) as [distances|]; [|apply keeps_throw].
  destruct (at_ _ _) as [point1|]; [|apply keeps_ret].
  destruct (at_ _ _) as [point2|]; [|apply keeps_ret].
  apply keeps_bind; [apply smoothPosition_keeps; exact Hp|]. intro currentPos.
  destruct (calculateMeanDirectionBearing _ _ _ _); [|apply keeps_throw].
  destruct (positionAtDistance _ _ _); [|apply keeps_throw].
  apply keeps_bind; [apply smoothBearing_keeps; exact Hb|]. intro b.
  apply keeps_ret.
Qed.

(** Composing the camera touches the altitude smoothing, nothing else. *)
Lemma getCameraPosition_keeps {X} (f : FlyoverAnimation -> X) tp :
  (forall v s, f (set_lastCameraAltitude v s) = f s) ->
  keeps f (getCameraPosition gpx tp).
Proof.
  intro Ha. unfold getCameraPosition.
  apply keeps_bind; [apply keeps_get|]. intro s.
  destruct (mode s).
  - destruct (metersToLatLon _ _ _). destruct (metersToLatLon _ _ _).
    apply keeps_bind; [apply smoothAltitude_keeps; exact Ha|]. intro a.
    apply emitPose_keeps.
  - destruct (metersToLatLon _ _ _). apply emitPose_keeps.
Qed.

End Frames.

(** ** Progress *)

Lemma Qmin_cases (a b : Q) : Qmin a b = a \/ Qmin a b = b.
Proof.
  unfold Qmin, GenericMinMax.gmin. destruct (a ?= b); auto.
Qed.

Lemma clampProgress_cases (p : Q) :
  clampProgress p = 0 \/ clampProgress p = 1 \/ clampProgress p = p.
Proof.
  unfold clampProgress.
  destruct (Qmax_cases 0 (Qmin 1 p)) as [E | E]; rewrite E; [auto|].
  destruct (Qmin_cases 1 p) as [E' | E']; rewrite E'; auto.
Qed.

Lemma clampProgress_idempotent (p : Q) :
  clampProgress (clampProgress p) = clampProgress p.
Proof.
  destruct (clampProgress_cases p) as [E | [E | E]]; rewrite E.
  - reflexivity.
  - reflexivity.
  - exact E.
Qed.

Lemma clampProgress_range (p : Q) :
  0 <= clampProgress p /\ clampProgress p <= 1.
Proof.
  unfold clampProgress. split; [apply Q.le_max_l|].
  apply Q.max_lub; [discriminate|apply Q.le_min_l].
Qed.

Lemma clampProgress_inside (p : Q) :
  0 <= p -> p <= 1 -> clampProgress p == p.
Proof.
  intros H0 H1. unfold clampProgress.
  rewrite (Q.min_r 1 p H1). apply Q.max_r. exact H0.
Qed.

Lemma stateAfter_bind {A B} (m : Act A) (k : A -> Act B) s a :
  outcomeOf (m s) = Returned a ->
  stateAfter (bind m k s) = stateAfter (k a (stateAfter (m s))).
Proof.
  unfold bind, outcomeOf, stateAfter.
  destruct (m s) as [[o s1] out1]. cbn [fst snd]. intros ->.
  destruct (k a s1) as [[o2 s2] out2]. reflexivity.
Qed.

Section Stepping.

Context {M : JSMath}.

Variable gpx : GPXMap.

(** The block of [stepToProgress] that clears the smoothing state. *)
Lemma resetBlock_returns (s : FlyoverAnimation) :
  (modify (set_lastCameraAltitude None) ;;;
   modify (set_bearing None []) ;;;
   modify (set_lastSmoothedPosition None) ;;;
   initProgressMarker gpx)%act s
  = (Returned tt, resetSmoothing s, effectsOf (initProgressMarker gpx s)).
Proof.
  unfold initProgressMarker. destruct (GPX.map gpx); reflexivity.
Qed.

Lemma rendering_keeps {X} (f : FlyoverAnimation -> X) (p : Q)
    (repaint : bool) :
  (forall a b c s, f (set_distanceData a b c s) = f s) ->
  (forall v s, f (set_lastSmoothedPosition v s) = f s) ->
  (forall v h s, f (set_bearing v h s) = f s) ->
  (forall v s, f (set_lastCameraAltitude v s) = f s) ->
  keeps f (renderAt gpx p repaint).
Proof.
  intros Hd Hp Hb Ha. unfold renderAt.
  apply keeps_bind; [apply getPointAtProgress_keeps; assumption|].
  intros [tp|]; [|apply keeps_ret].
  apply keeps_bind; [apply getCameraPosition_keeps; assumption|].
  intro pose.
  apply keeps_bind; [apply applyCameraPosition_keeps|]. intros _.
  apply keeps_bind; [apply updateProgressMarker_keeps|]. intros _.
  destruct repaint; [apply triggerRepaint_keeps|apply keeps_ret].
Qed.

(** [stepToProgress] in three steps: the distance data, the reset when the
    step goes back, the rendering at the stored progress. *)
Lemma stepToProgress_steps (p : Q) (s : FlyoverAnimation) :
  let r0 := ensureDistanceData gpx s in
  let s1 := stateAfter r0 in
  let s2 := if stepsBack p s then resetSmoothing s1 else s1 in
  let marker :=
    if stepsBack p s then effectsOf (initProgressMarker gpx s) else [] in
  let r := renderAt gpx p true (set_progress p s2) in
  stepToProgress gpx p s
  = (outcomeOf r, stateAfter r, effectsOf r0 ++ marker ++ effectsOf r).
Proof.
  intros r0 s1 s2 marker r. subst r0 s1 s2 marker r.
  unfold stepToProgress. unfold bind at 1.
  assert (Hprog : progress (stateAfter (ensureDistanceData gpx s))
                  = progress s).
  { apply (ensureDistanceData_keeps gpx progress). intros; reflexivity. }
  pose proof (ensureDistanceData_returns gpx s) as H0.
  destruct (ensureDistanceData gpx s) as [[o s1] out1].
  unfold outcomeOf in H0. cbn [fst] in H0. subst o.
  change (stateAfter (Returned tt, s1, out1)) with s1 in *.
  change (effectsOf (Returned tt, s1, out1)) with out1.
  unfold bind at 1, get. unfold stepsBack. rewrite <- Hprog.
  unfold bind at 1.
  destruct (JS.eqb p 0 || JS.ltb p (progress s1)).
  - rewrite resetBlock_returns.
    unfold initProgressMarker, effectsOf. cbn [snd].
    unfold bind at 1, modify.
    fold (renderAt gpx p true).
    destruct (renderAt gpx p true (set_progress p (resetSmoothing s1)))
      as [[o s3] out3].
    destruct (GPX.map gpx); reflexivity.
  - unfold ret at 1. unfold bind at 1, modify.
    fold (renderAt gpx p true).
    destruct (renderAt gpx p true (set_progress p s1)) as [[o s3] out3].
    reflexivity.
Qed.

Lemma stepToProgress_progress (p : Q) (s : FlyoverAnimation) :
  progress (stateAfter (stepToProgress gpx p s)) = p.
Proof.
  rewrite stepToProgress_steps. cbv zeta.
  change (stateAfter (?a, ?b, ?c)) with b.
  rewrite (rendering_keeps progress p true); reflexivity.
Qed.

End Stepping.

(** C4, as the code has it.  [getPointAtProgress] clamps its argument to
    [0, 1] before it turns it into a distance: it gives the same result on
    [p] and on the clamped [p], and the distance it samples lies on the
    track.  [stepToProgress] stores its argument as it is: the stored
    progress is [p], inside [0, 1] when [p] is. *)
Theorem progress_clamped_on_sampling {M : JSMath} (gpx : GPXMap) (p : Q)
    (s : FlyoverAnimation) :
  getPointAtProgress gpx p s = getPointAtProgress gpx (clampProgress p) s /\
  0 <= clampProgress p /\ clampProgress p <= 1 /\
  (0 <= totalDistance s ->
   0 <= clampProgress p * totalDistance s /\
   clampProgress p * totalDistance s <= totalDistance s) /\
  progress (stateAfter (stepToProgress gpx p s)) = p /\
  (0 <= p -> p <= 1 ->
   0 <= progress (stateAfter (stepToProgress gpx p s)) /\
   progress (stateAfter (stepToProgress gpx p s)) <= 1).
Proof.
  destruct (clampProgress_range p) as [H0 H1].
  split; [|split; [exact H0|split; [exact H1|split; [|split]]]].
  - unfold getPointAtProgress.
    fold (clampProgress p). fold (clampProgress (clampProgress p)).
    rewrite clampProgress_idempotent. reflexivity.
  - intro Ht. split; nra.
  - apply stepToProgress_progress.
  - intros Hp0 Hp1. rewrite stepToProgress_progress. split; assumption.
Qed.

(** Stepping to a quarter of the way stores a quarter. *)
Lemma progress_clamped_on_sampling_witness :
  let s' := stateAfter (stepToProgress (M := Rational.math) flatMap 0.25
                          constructor) in
  0 <= totalDistance constructor /\ 0 <= 0.25 /\ 0.25 <= 1 /\
  progress s' = 0.25 /\ 0 <= progress s' /\ progress s' <= 1.
Proof.
  intro s'.
  destruct (progress_clamped_on_sampling (M := Rational.math) flatMap 0.25
              constructor) as [_ [_ [_ [_ [Hp Hin]]]]].
  destruct Hin as [Hin0 Hin1]; [discriminate|discriminate|].
  split; [discriminate|]. split; [discriminate|]. split; [discriminate|].
  split; [exact Hp|]. split; [exact Hin0|exact Hin1].
Defined.

(** C4, as the claim has it, fails: [stepToProgress(2)] leaves 2 in the
    progress field. *)
Lemma progress_clamp_counterexample :
  let s' :=
    stateAfter (stepToProgress (M := Rational.math) flatMap 2 constructor) in
  progress s' = 2 /\ ~ (0 <= progress s' /\ progress s' <= 1).
Proof.
  intro s'.
  assert (Hp : progress s' = 2)
    by apply (stepToProgress_progress (M := Rational.math)).
  split; [exact Hp|].
  intros [_ H]. revert H. generalize Hp. generalize (progress s').
  intros q Hq H. subst q. apply H. reflexivity.
Qed.

(** ** Starting *)

Section Starting.

Context {M : JSMath}.

Variable gpx : GPXMap.

Lemma initializeDistanceData_run (s : FlyoverAnimation) :
  initializeDistanceData gpx s
  = (Returned tt, stateAfter (initializeDistanceData gpx s),
     effectsOf (initializeDistanceData gpx s)).
Proof.
  pose proof (initializeDistanceData_returns gpx s) as H.
  destruct (initializeDistanceData gpx s) as [[o s1] out1].
  unfold outcomeOf in H. cbn [fst] in H. subst o. reflexivity.
Qed.

(** Building the distance data commutes with any change of the state that
    leaves the distance data alone. *)
Lemma initializeDistanceData_commute
    (g : FlyoverAnimation -> FlyoverAnimation) (s : FlyoverAnimation) :
  (forall a b c s, g (set_distanceData a b c s) = set_distanceData a b c (g s)) ->
  cumulativeDistances (g s) = cumulativeDistances s ->
  totalDistance (g s) = totalDistance s ->
  initializeDistanceData gpx (g s)
  = (Returned tt, g (stateAfter (initializeDistanceData gpx s)),
     effectsOf (initializeDistanceData gpx s)).
Proof.
  intros Hg Hc Ht. unfold initializeDistanceData.
  destruct (GPX.getTrackPoints gpx) as [|p0 [|p1 rest]].
  - unfold modify, stateAfter, effectsOf. cbn [fst snd].
    rewrite Hc, Ht, Hg. reflexivity.
  - unfold modify, stateAfter, effectsOf. cbn [fst snd].
    rewrite Hc, Ht, Hg. reflexivity.
  - destruct (accumulateDistances _ _ _ _) as [total ds].
    unfold bind, modify, emit, stateAfter, effectsOf. cbn [fst snd app].
    rewrite Hg. reflexivity.
Qed.

Lemma ensureDistanceData_run (s : FlyoverAnimation) :
  ensureDistanceData gpx s
  = (Returned tt, stateAfter (ensureDistanceData gpx s),
     effectsOf (ensureDistanceData gpx s)).
Proof.
  pose proof (ensureDistanceData_returns gpx s) as H.
  destruct (ensureDistanceData gpx s) as [[o s1] out1].
  unfold outcomeOf in H. cbn [fst] in H. subst o. reflexivity.
Qed.

Lemma ensureDistanceData_commute
    (g : FlyoverAnimation -> FlyoverAnimation) (s : FlyoverAnimation) :
  (forall a b c s, g (set_distanceData a b c s) = set_distanceData a b c (g s)) ->
  cumulativeDistances (g s) = cumulativeDistances s ->
  totalDistance (g s) = totalDistance s ->
  distanceDataInitialized (g s) = distanceDataInitialized s ->
  ensureDistanceData gpx (g s)
  = (Returned tt, g (stateAfter (ensureDistanceData gpx s)),
     effectsOf (ensureDistanceData gpx s)).
Proof.
  intros Hg Hc Ht Hi. unfold ensureDistanceData, bind, get. rewrite Hi.
  destruct (distanceDataInitialized s).
  - reflexivity.
  - rewrite (initializeDistanceData_commute g s Hg Hc Ht).
    rewrite (initializeDistanceData_run s). reflexivity.
Qed.

(** A controller that is playing ignores [start]. *)
Lemma start_while_playing (startClock frameClock : Q) (handle : Z)
    (s : FlyoverAnimation) :
  isPlaying s = true ->
  start gpx startClock frameClock handle s = (Returned tt, s, []).
Proof.
  intro H. unfold start, bind, get. rewrite H. reflexivity.
Qed.

(** With fewer than two points a controller that is not playing logs the
    error and stops there. *)
Lemma start_without_track (startClock frameClock : Q) (handle : Z)
    (s : FlyoverAnimation) :
  isPlaying s = false ->
  (length_ (GPX.getTrackPoints gpx) < 2)%Z ->
  start gpx startClock frameClock handle s
  = (Returned tt, s, [ConsoleError "Not enough track points for animation"]).
Proof.
  intros H Hn. unfold start, bind, get. rewrite H.
  apply Z.ltb_lt in Hn. rewrite Hn. reflexivity.
Qed.

(** The state in which [start] renders its first frame. *)
Lemma start_first_frame (startClock frameClock : Q) (handle : Z)
    (s : FlyoverAnimation) :
  isPlaying s = false ->
  (2 <= length_ (GPX.getTrackPoints gpx))%Z ->
  let r0 := initializeDistanceData gpx s in
  let s1 :=
    set_lastTimestamp startClock
      (set_progress 0
         (set_isPaused false
            (set_isPlaying true (resetSmoothing (stateAfter r0))))) in
  let r := animate gpx None frameClock handle s1 in
  start gpx startClock frameClock handle s
  = (outcomeOf r, stateAfter r,
     effectsOf r0 ++ effectsOf (initProgressMarker gpx s) ++ effectsOf r).
Proof.
  intros H Hn r0 s1 r. subst r0 s1 r. unfold start.
  unfold bind at 1, get. rewrite H.
  assert (Hn' : (length_ (GPX.getTrackPoints gpx) <? 2)%Z = false)
    by (apply Z.ltb_ge; exact Hn).
  rewrite Hn'. unfold bind at 1.
  pose proof (initializeDistanceData_returns gpx s) as H0.
  destruct (initializeDistanceData gpx s) as [[o s1] out1].
  unfold outcomeOf in H0. cbn [fst] in H0. subst o.
  change (stateAfter (Returned tt, s1, out1)) with s1.
  change (effectsOf (Returned tt, s1, out1)) with out1.
  unfold initProgressMarker.
  destruct (GPX.map gpx); unfold bind, modify, emit, ret;
    cbn [fst snd app];
    match goal with
    | |- context [animate gpx None frameClock handle ?st] =>
        change st with
          (set_lastTimestamp startClock
             (set_progress 0
                (set_isPaused false
                   (set_isPlaying true (resetSmoothing s1)))));
        destruct (animate gpx None frameClock handle
                    (set_lastTimestamp startClock
                       (set_progress 0
                          (set_isPaused false
                             (set_isPlaying true (resetSmoothing s1))))))
          as [[o s2] out2]
    end; reflexivity.
Qed.

(** [start] on a controller that is not playing does not look at the
    progress or at the smoothing state it finds. *)
Lemma start_forgets (startClock frameClock : Q) (handle : Z) (q : Q)
    (s : FlyoverAnimation) :
  isPlaying s = false ->
  (2 <= length_ (GPX.getTrackPoints gpx))%Z ->
  start gpx startClock frameClock handle s
  = start gpx startClock frameClock handle
      (set_progress q (resetSmoothing s)).
Proof.
  intros H Hn.
  rewrite (start_first_frame startClock frameClock handle s H Hn).
  rewrite (start_first_frame startClock frameClock handle
             (set_progress q (resetSmoothing s)) H Hn).
  cbv zeta.
  rewrite (initializeDistanceData_commute
             (fun s => set_progress q (resetSmoothing s)) s);
    [|intros; reflexivity|reflexivity|reflexivity].
  unfold initProgressMarker. destruct (GPX.map gpx); reflexivity.
Qed.

End Starting.

(** C7, as the code has it.  With fewer than two track points [start]
    changes nothing in the controller and returns normally.  A controller
    that is not playing logs the error "Not enough track points for
    animation" on the console; a controller that is playing returns at the
    first guard and logs nothing. *)
Theorem start_insufficient_track {M : JSMath} (gpx : GPXMap)
    (startClock frameClock : Q) (handle : Z) (s : FlyoverAnimation) :
  (length_ (GPX.getTrackPoints gpx) < 2)%Z ->
  let r := start gpx startClock frameClock handle s in
  stateAfter r = s /\
  outcomeOf r = Returned tt /\
  (isPlaying s = false ->
   effectsOf r = [ConsoleError "Not enough track points for animation"]) /\
  (isPlaying s = true -> effectsOf r = []).
Proof.
  intros Hn r. subst r.
  destruct (isPlaying s) eqn:Hp.
  - rewrite (start_while_playing gpx startClock frameClock handle s Hp).
    split; [reflexivity|]. split; [reflexivity|].
    split; intro H; [discriminate H|reflexivity].
  - rewrite (start_without_track gpx startClock frameClock handle s Hp Hn).
    split; [reflexivity|]. split; [reflexivity|].
    split; intro H; [reflexivity|discriminate H].
Qed.

(** A fresh controller on a track of one point. *)
Lemma start_insufficient_track_witness :
  let r := start (M := Rational.math) onePointMap 0 0 1 constructor in
  (length_ (GPX.getTrackPoints onePointMap) < 2)%Z /\
  stateAfter r = constructor /\
  effectsOf r = [ConsoleError "Not enough track points for animation"].
Proof.
  intro r.
  assert (Hn : (length_ (GPX.getTrackPoints onePointMap) < 2)%Z)
    by (vm_compute; reflexivity).
  destruct (start_insufficient_track (M := Rational.math) onePointMap 0 0 1
              constructor Hn) as [Hs [_ [He _]]].
  split; [exact Hn|]. split; [exact Hs|]. apply He. reflexivity.
Defined.

(** C7, as the claim has it, fails on a controller that is playing when
    the track has shrunk to one point: [start] returns and reports
    nothing. *)
Lemma start_insufficient_track_counterexample :
  let r := start (M := Rational.math) onePointMap 0 0 1 midRun in
  isPlaying midRun = true /\
  (length_ (GPX.getTrackPoints onePointMap) < 2)%Z /\
  outcomeOf r = Returned tt /\
  effectsOf r = [] /\
  ~ In (ConsoleError "Not enough track points for animation") (effectsOf r).
Proof.
  intro r. subst r.
  rewrite (start_while_playing (M := Rational.math) onePointMap 0 0 1 midRun
             eq_refl).
  split; [reflexivity|]. split; [reflexivity|].
  split; [reflexivity|]. split; [reflexivity|].
  intros [].
Qed.

(** C6, as the code has it.  [start] on a controller that is playing
    returns at once and changes nothing.  [start] on a controller that is
    not playing, with two track points or more, clears the smoothing state
    and sets the progress to 0 before it renders its first frame: the
    progress and the smoothing state it finds have no part in the result.
    So, when the first call leaves the controller playing, the state after
    a second call is the state after the first. *)
Theorem start_twice_while_playing {M : JSMath} (gpx : GPXMap)
    (startClock frameClock : Q) (handle : Z)
    (startClock' frameClock' : Q) (handle' : Z) (s : FlyoverAnimation) :
  (isPlaying s = true ->
   start gpx startClock frameClock handle s = (Returned tt, s, [])) /\
  (isPlaying s = false ->
   (2 <= length_ (GPX.getTrackPoints gpx))%Z ->
   let r0 := initializeDistanceData gpx s in
   let fresh :=
     set_lastTimestamp startClock
       (set_progress 0
          (set_isPaused false
             (set_isPlaying true (resetSmoothing (stateAfter r0))))) in
   progress fresh = 0 /\
   lastCameraAltitude fresh = None /\ lastBearing fresh = None /\
   bearingHistory fresh = [] /\ lastSmoothedPosition fresh = None /\
   stateAfter (start gpx startClock frameClock handle s)
   = stateAfter (animate gpx None frameClock handle fresh) /\
   forall q,
     start gpx startClock frameClock handle s
     = start gpx startClock frameClock handle
         (set_progress q (resetSmoothing s))) /\
  (let s1 := stateAfter (start gpx startClock frameClock handle s) in
   isPlaying s1 = true ->
   start gpx startClock' frameClock' handle' s1 = (Returned tt, s1, [])).
Proof.
  split; [|split].
  - apply start_while_playing.
  - intros Hp Hn r0 fresh.
    repeat (split; [reflexivity|]). split.
    + rewrite (start_first_frame gpx startClock frameClock handle s Hp Hn).
      reflexivity.
    + intro q. apply start_forgets; assumption.
  - intros s1 Hp. apply start_while_playing. exact Hp.
Qed.

(** Bird's eye view over the sea-level track: the first call leaves the
    controller playing and the second changes nothing. *)
Lemma start_twice_while_playing_witness :
  let s1 :=
    stateAfter (start (M := Rational.math) seaLevelMap 0 0 1 overhead) in
  isPlaying s1 = true /\
  start (M := Rational.math) seaLevelMap 16 16 2 s1 = (Returned tt, s1, []).
Proof.
  intro s1.
  assert (Hp : isPlaying s1 = true) by (vm_compute; reflexivity).
  split; [exact Hp|].
  destruct (start_twice_while_playing (M := Rational.math) seaLevelMap
              0 0 1 16 16 2 overhead) as [_ [_ H]].
  apply H. exact Hp.
Defined.

(** C6, as the claim has it, fails twice.  On a run under way two calls of
    [start] leave the progress at one half and the smoothing state as it
    was.  On a track of a few millimetres the first frame, a tenth of a
    millisecond after the start, ends the run; the second call then starts
    a new run, and the two states differ. *)
Lemma start_twice_counterexample :
  let s1 := stateAfter (start (M := Rational.math) flatMap 0 0 1 midRun) in
  let s2 := stateAfter (start (M := Rational.math) flatMap 16 16 2 s1) in
  let t1 :=
    stateAfter (start (M := Rational.math) tinyMap 0 (1 # 10) 7 overhead) in
  let t2 := stateAfter (start (M := Rational.math) tinyMap 5 5 8 t1) in
  (progress s2 = 0.5 /\ ~ progress s2 == 0 /\
   lastBearing s2 = Some 90 /\ bearingHistory s2 = [88; 89; 90] /\
   lastCameraAltitude s2 = Some 250) /\
  (isPlaying t1 = false /\ isPlaying t2 = true /\ t2 <> t1).
Proof.
  intros s1 s2 t1 t2. split.
  - assert (H1 : s1 = midRun).
    { unfold s1.
      rewrite (start_while_playing (M := Rational.math) flatMap 0 0 1 midRun
                 eq_refl).
      reflexivity. }
    assert (H2 : s2 = midRun).
    { unfold s2. rewrite H1.
      rewrite (start_while_playing (M := Rational.math) flatMap 16 16 2
                 midRun eq_refl).
      reflexivity. }
    rewrite H2. repeat split. discriminate.
  - assert (Ht1 : isPlaying t1 = false) by (vm_compute; reflexivity).
    assert (Ht2 : isPlaying t2 = true) by (vm_compute; reflexivity).
    split; [exact Ht1|]. split; [exact Ht2|].
    intro Heq. rewrite Heq in Ht2. congruence.
Qed.

(** ** Stepping back *)

Lemma leads_bind {A B} (P R Q : FlyoverAnimation -> Prop) (m : Act A)
    (k : A -> Act B) :
  leads P m R -> (forall s, R s -> Q s) -> (forall a, leads R (k a) Q) ->
  leads P (bind m k) Q.
Proof.
  intros Hm HRQ Hk s HP. specialize (Hm s HP).
  unfold bind, stateAfter in *.
  destruct (m s) as [[[a|] s1] out1]; cbn [fst snd] in *.
  - specialize (Hk a s1 Hm).
    destruct (k a s1) as [[r s2] out2]. exact Hk.
  - apply HRQ. exact Hm.
Qed.

Lemma leads_ret {A} (P Q : FlyoverAnimation -> Prop) (a : A) :
  (forall s, P s -> Q s) -> leads P (ret a) Q.
Proof. intros H s HP. apply H. exact HP. Qed.

Lemma leads_throw {A} (P Q : FlyoverAnimation -> Prop) :
  (forall s, P s -> Q s) -> leads P (@throwTypeError A) Q.
Proof. intros H s HP. apply H. exact HP. Qed.

Lemma leads_kept {A X} (f : FlyoverAnimation -> X) (P : X -> Prop)
    (m : Act A) :
  keeps f m -> leads (fun s => P (f s)) m (fun s => P (f s)).
Proof. intros Hk s HP. rewrite (Hk s). exact HP. Qed.

Lemma bearingCleared_fresh (s : FlyoverAnimation) :
  bearingCleared s -> historyIsFresh s.
Proof.
  intros [H1 H2]. unfold historyIsFresh. rewrite H1, H2. reflexivity.
Qed.

Section SteppingBack.

Context {M : JSMath}.

Variable gpx : GPXMap.

Lemma kept_cleared {A} (m : Act A) :
  keeps (fun s => (lastBearing s, bearingHistory s)) m ->
  leads bearingCleared m bearingCleared.
Proof.
  intro Hk.
  apply (leads_kept (fun s => (lastBearing s, bearingHistory s))
           (fun x => fst x = None /\ snd x = []) m Hk).
Qed.

Lemma kept_fresh {A} (m : Act A) :
  keeps (fun s => (lastBearing s, bearingHistory s)) m ->
  leads historyIsFresh m historyIsFresh.
Proof.
  intro Hk.
  apply (leads_kept (fun s => (lastBearing s, bearingHistory s))
           (fun x => snd x = match fst x with
                            | Some b => [b]
                            | None => []
                            end) m Hk).
Qed.

(** The first bearing after a reset is stored alone. *)
Lemma smoothBearing_fresh (b : Q) :
  leads bearingCleared (lift (smoothBearing b)) historyIsFresh.
Proof.
  intros s [H1 H2]. unfold lift, smoothBearing, stateAfter. rewrite H1.
  reflexivity.
Qed.

Lemma getPointAtProgress_fresh (p : Q) :
  leads bearingCleared (getPointAtProgress gpx p) historyIsFresh.
Proof.
  unfold getPointAtProgress.
  destruct (length_ (GPX.getTrackPoints gpx) <? 2)%Z;
    [apply leads_ret; exact bearingCleared_fresh|].
  apply (leads_bind bearingCleared bearingCleared);
    [|exact bearingCleared_fresh|].
  { apply kept_cleared. apply ensureDistanceData_keeps. intros; reflexivity. }
  intros _.
  apply (leads_bind bearingCleared bearingCleared);
    [|exact bearingCleared_fresh|].
  { apply kept_cleared. apply keeps_get. }
  intro s.
  destruct (cumulativeDistances s) as [distances|];
    [|apply leads_throw; exact bearingCleared_fresh].
  destruct (at_ _ _) as [point1|];
    [|apply leads_ret; exact bearingCleared_fresh].
  destruct (at_ _ _) as [point2|];
    [|apply leads_ret; exact bearingCleared_fresh].
  apply (leads_bind bearingCleared bearingCleared);
    [|exact bearingCleared_fresh|].
  { apply kept_cleared. apply smoothPosition_keeps. intros; reflexivity. }
  intro currentPos.
  destruct (calculateMeanDirectionBearing _ _ _ _);
    [|apply leads_throw; exact bearingCleared_fresh].
  destruct (positionAtDistance _ _ _);
    [|apply leads_throw; exact bearingCleared_fresh].
  apply (leads_bind bearingCleared historyIsFresh);
    [apply smoothBearing_fresh|auto|].
  intro b. apply leads_ret. auto.
Qed.

Lemma renderAt_fresh (p : Q) (repaint : bool) :
  leads bearingCleared (renderAt gpx p repaint) historyIsFresh.
Proof.
  unfold renderAt.
  apply (leads_bind bearingCleared historyIsFresh);
    [apply getPointAtProgress_fresh|auto|].
  intros [tp|]; [|apply leads_ret; auto].
  apply kept_fresh.
  apply keeps_bind;
    [apply getCameraPosition_keeps; intros; reflexivity|].
  intro pose.
  apply keeps_bind; [apply applyCameraPosition_keeps|]. intros _.
  apply keeps_bind; [apply updateProgressMarker_keeps|]. intros _.
  destruct repaint; [apply triggerRepaint_keeps|apply keeps_ret].
Qed.

Lemma stepsBack_true (p : Q) (s : FlyoverAnimation) :
  p == 0 \/ p < progress s -> stepsBack p s = true.
Proof.
  intros [H | H]; unfold stepsBack.
  - unfold JS.eqb. apply Qeq_bool_iff in H. rewrite H. reflexivity.
  - apply ltb_lt in H. rewrite H. apply orb_true_r.
Qed.

(** A step back does not look at the smoothing state it finds. *)
Lemma stepToProgress_forgets (p : Q) (s : FlyoverAnimation) :
  stepsBack p s = true ->
  stepToProgress gpx p s = stepToProgress gpx p (resetSmoothing s).
Proof.
  intro Hc.
  rewrite (stepToProgress_steps gpx p s).
  rewrite (stepToProgress_steps gpx p (resetSmoothing s)).
  cbv zeta.
  assert (Hc' : stepsBack p (resetSmoothing s) = true) by exact Hc.
  rewrite Hc, Hc'.
  rewrite (ensureDistanceData_commute gpx resetSmoothing s);
    [|intros; reflexivity|reflexivity|reflexivity|reflexivity].
  unfold initProgressMarker. destruct (GPX.map gpx); reflexivity.
Qed.

Lemma stepToProgress_fresh (p : Q) (s : FlyoverAnimation) :
  stepsBack p s = true ->
  historyIsFresh (stateAfter (stepToProgress gpx p s)).
Proof.
  intro Hc. rewrite (stepToProgress_steps gpx p s). cbv zeta. rewrite Hc.
  change (stateAfter (?a, ?b, ?c)) with b.
  apply renderAt_fresh. split; reflexivity.
Qed.

End SteppingBack.

(** C5.  [stepToProgress(p)] stores [p] in the progress field.  When [p]
    is 0 or below the stored progress, it first clears the smoothing state
    as [start] does ([lastCameraAltitude], [lastBearing] and
    [lastSmoothedPosition] null, [bearingHistory] empty) and renders from
    there: the smoothing state it finds has no part in the result, and the
    history it leaves holds the bearing of this frame and nothing older.
    [start], on a controller that is not playing, forgets the smoothing
    state in the same way. *)
Theorem stepToProgress_resets_smoothing {M : JSMath} (gpx : GPXMap) (p : Q)
    (s : FlyoverAnimation) :
  progress (stateAfter (stepToProgress gpx p s)) = p /\
  (p == 0 \/ p < progress s ->
   let s1 := stateAfter (ensureDistanceData gpx s) in
   let cleared := set_progress p (resetSmoothing s1) in
   lastCameraAltitude cleared = None /\ lastBearing cleared = None /\
   bearingHistory cleared = [] /\ lastSmoothedPosition cleared = None /\
   stateAfter (stepToProgress gpx p s)
   = stateAfter (renderAt gpx p true cleared) /\
   stepToProgress gpx p s = stepToProgress gpx p (resetSmoothing s) /\
   historyIsFresh (stateAfter (stepToProgress gpx p s))) /\
  (forall startClock frameClock handle,
     isPlaying s = false ->
     (2 <= length_ (GPX.getTrackPoints gpx))%Z ->
     start gpx startClock frameClock handle s
     = start gpx startClock frameClock handle (resetSmoothing s)).
Proof.
  split; [apply stepToProgress_progress|]. split.
  - intros Hc s1 cleared. apply stepsBack_true in Hc.
    repeat (split; [reflexivity|]). split; [|split].
    + rewrite (stepToProgress_steps gpx p s). cbv zeta. rewrite Hc.
      reflexivity.
    + apply stepToProgress_forgets. exact Hc.
    + apply stepToProgress_fresh. exact Hc.
  - intros startClock frameClock handle Hp Hn.
    apply (start_forgets gpx startClock frameClock handle (progress s) s Hp Hn).
Qed.

(** From the middle of a run back to the start: the history that was
    there has no part in the result. *)
Lemma stepToProgress_resets_smoothing_witness :
  let s := set_isPlaying false midRun in
  (0 == 0 \/ 0 < progress s) /\
  progress (stateAfter (stepToProgress (M := Rational.math) flatMap 0 s)) = 0 /\
  stepToProgress (M := Rational.math) flatMap 0 s
  = stepToProgress (M := Rational.math) flatMap 0 (resetSmoothing s) /\
  historyIsFresh (stateAfter (stepToProgress (M := Rational.math) flatMap 0 s)) /\
  start (M := Rational.math) flatMap 0 0 1 s
  = start (M := Rational.math) flatMap 0 0 1 (resetSmoothing s).
Proof.
  intro s.
  assert (Hc : 0 == 0 \/ 0 < progress s) by (left; reflexivity).
  destruct (stepToProgress_resets_smoothing (M := Rational.math) flatMap 0 s)
    as [Hp [Hback Hstart]].
  destruct (Hback Hc) as [_ [_ [_ [_ [_ [Hf Hh]]]]]].
  split; [exact Hc|]. split; [exact Hp|]. split; [exact Hf|].
  split; [exact Hh|].
  apply Hstart; [reflexivity|]. vm_compute. discriminate.
Defined.

(** * More of the code *)

(** ** Altitude, once more *)

(** X1.  The smoothed altitude is never below the altitude that is asked
    for: [smoothAltitude] returns at least its argument, stores what it
    returns, and, when an altitude was stored, returns at most the larger
    of the stored altitude and the argument. *)
Theorem smoothAltitude_never_below (s : FlyoverAnimation) (target : Q) :
  let r := fst (smoothAltitude target s) in
  let s' := snd (smoothAltitude target s) in
  target <= r /\
  s' = set_lastCameraAltitude (Some r) s /\
  (forall last, lastCameraAltitude s = Some last ->
     r <= Qmax last target /\ (target <= last -> r <= last)).
Proof.
  intros r s'. subst r s'. unfold smoothAltitude.
  destruct (lastCameraAltitude s) as [last|].
  - destruct (JS.gtb target last) eqn:E; cbn [fst snd].
    + split; [apply Qle_refl|]. split; [reflexivity|].
      intros l Hl. injection Hl as <-. apply gtb_lt in E.
      split; [apply Q.le_max_r|]. intro H. lra.
    + apply gtb_le in E. unfold altitudeSmoothingFactor.
      split; [lra|]. split; [reflexivity|].
      intros l Hl. injection Hl as <-.
      split; [|intros _; lra].
      eapply Qle_trans; [|apply Q.le_max_l]. lra.
  - cbn [fst snd]. split; [apply Qle_refl|]. split; [reflexivity|].
    intros l Hl. discriminate Hl.
Qed.

(** ** Line of sight, once more *)

Lemma Qdiv_le_mult (a b c : Q) : 0 < b -> a / b <= c -> a <= c * b.
Proof.
  intros Hb H.
  assert (Ha : a == (a / b) * b) by (field; lra).
  rewrite Ha. apply Qmult_le_compat_r; [exact H|lra].
Qed.

Lemma sampleParameters_range (numSamples : Z) (t : Q) :
  (1 <= numSamples)%Z -> In t (sampleParameters numSamples) ->
  0 <= t /\ t < 0.98.
Proof.
  intros HN Hin. unfold sampleParameters in Hin.
  apply filter_In in Hin. destruct Hin as [Hin Hlt].
  apply negb_true_iff in Hlt. apply geb_lt in Hlt.
  split; [|exact Hlt].
  apply in_map_iff in Hin. destruct Hin as [i [<- Hi]].
  unfold range in Hi. apply in_map_iff in Hi. destruct Hi as [k [<- _]].
  apply Qle_shift_div_l.
  - change 0 with (inject_Z 0). rewrite <- Zlt_Qlt. lia.
  - rewrite Qmult_0_l. change 0 with (inject_Z 0). rewrite <- Zle_Qle. lia.
Qed.

(** X2.  A camera at or above the altitude that
    [calculateLineOfSightClearance] returns has a clear line of sight: at
    every sample parameter [t] (all of them in [0, 0.98)) the straight
    line from the camera to the look-at point passes at least 80 m above
    the terrain there. *)
Theorem lineOfSight_clears_terrain {M : JSMath} (gpx : GPXMap)
    (cameraLon cameraLat lookAtLon lookAtLat lookAtAlt : Q)
    (numSamples : Z) (camAlt t : Q) :
  (1 <= numSamples)%Z ->
  calculateLineOfSightClearance gpx cameraLon cameraLat lookAtLon lookAtLat
    lookAtAlt numSamples <= camAlt ->
  In t (sampleParameters numSamples) ->
  0 <= t /\ t < 0.98 /\
  terrainAlt gpx (cameraLon + (lookAtLon - cameraLon) * t)
    (cameraLat + (lookAtLat - cameraLat) * t) + minTerrainClearance
  <= sightLineAlt camAlt lookAtAlt t.
Proof.
  intros HN Hcam Hin.
  destruct (sampleParameters_range numSamples t HN Hin) as [Ht0 Ht1].
  split; [exact Ht0|]. split; [exact Ht1|].
  destruct (calculateLineOfSightClearance_maximum gpx cameraLon cameraLat
              lookAtLon lookAtLat lookAtAlt numSamples) as [_ Hub].
  assert (Hreq : requiredCamAlt gpx cameraLon cameraLat lookAtLon lookAtLat
                   lookAtAlt t <= camAlt).
  { eapply Qle_trans; [|exact Hcam].
    apply Hub. right. apply in_map. exact Hin. }
  unfold requiredCamAlt in Hreq.
  apply Qdiv_le_mult in Hreq; [|lra].
  unfold sightLineAlt, minTerrainClearance. lra.
Qed.

(** On the sea-level track with 30 samples a camera at 2300 m sees the
    look-at point over the terrain at every sample. *)
Lemma lineOfSight_clears_terrain_witness :
  In (inject_Z 15 / inject_Z 30) (sampleParameters 30) /\
  calculateLineOfSightClearance (M := Rational.math) seaLevelMap
    0 0 0 0.01 5 30 <= 2300 /\
  terrainAlt (M := Rational.math) seaLevelMap
    (0 + (0 - 0) * (inject_Z 15 / inject_Z 30))
    (0 + (0.01 - 0) * (inject_Z 15 / inject_Z 30)) + minTerrainClearance
  <= sightLineAlt 2300 5 (inject_Z 15 / inject_Z 30).
Proof.
  assert (Hin : In (inject_Z 15 / inject_Z 30) (sampleParameters 30)).
  { unfold sampleParameters. apply filter_In. split.
    - apply in_map_iff. exists 15%Z. split; [reflexivity|].
      apply range_In. lia.
    - reflexivity. }
  assert (Hcam : calculateLineOfSightClearance (M := Rational.math)
                   seaLevelMap 0 0 0 0.01 5 30 <= 2300).
  { vm_compute. discriminate. }
  split; [exact Hin|]. split; [exact Hcam|].
  apply (lineOfSight_clears_terrain (M := Rational.math) seaLevelMap
           0 0 0 0.01 5 30 2300 (inject_Z 15 / inject_Z 30));
    [lia|exact Hcam|exact Hin].
Defined.

(** ** Terrain along a path *)

Section TerrainAlongPath.

Context {M : JSMath}.

Variable gpx : GPXMap.
Variables startLon startLat endLon endLat : Q.

Lemma sampleTerrain_fold (numSamples : Z) (indices : list Z) (acc : Q) :
  fold_left
    (sampleTerrainStep gpx startLon startLat endLon endLat numSamples)
    indices acc
  = fold_left Qmax
      (List.map
         (fun i =>
            let t := inject_Z i / inject_Z numSamples in
            terrainAlt gpx (startLon + (endLon - startLon) * t)
              (startLat + (endLat - startLat) * t))
         indices)
      acc.
Proof.
  revert acc. induction indices as [|i indices IH]; intro acc.
  - reflexivity.
  - simpl. rewrite <- IH. reflexivity.
Qed.

End TerrainAlongPath.

(** X3.  [sampleTerrainAlongPath] returns the maximum of the base
    elevation and of the terrain elevation (with the nearest track
    elevation as fallback) at the [N + 1] points [t = i / N], [i = 0..N],
    of the path; it is never below the base elevation. *)
Theorem sampleTerrainAlongPath_maximum {M : JSMath} (gpx : GPXMap)
    (startLon startLat endLon endLat : Q) (numSamples : Z)
    (baseElevation : Q) :
  (1 <= numSamples)%Z ->
  let r :=
    sampleTerrainAlongPath gpx startLon startLat endLon endLat numSamples
      baseElevation in
  baseElevation <= r /\
  isMaximumOf r
    (baseElevation
     :: List.map
          (fun i =>
             let t := inject_Z i / inject_Z numSamples in
             terrainAlt gpx (startLon + (endLon - startLon) * t)
               (startLat + (endLat - startLat) * t))
          (range (numSamples + 1))).
Proof.
  intros _ r. subst r. unfold sampleTerrainAlongPath.
  rewrite sampleTerrain_fold.
  pose proof (fold_Qmax_maximum
                (List.map
                   (fun i =>
                      let t := inject_Z i / inject_Z numSamples in
                      terrainAlt gpx (startLon + (endLon - startLon) * t)
                        (startLat + (endLat - startLat) * t))
                   (range (numSamples + 1))) baseElevation) as H.
  split; [|exact H].
  destruct H as [_ Hub]. apply Hub. left. reflexivity.
Qed.

(** Along the sea-level track from a base of 12 m the maximum is the
    base. *)
Lemma sampleTerrainAlongPath_maximum_witness :
  12 <= sampleTerrainAlongPath (M := Rational.math) seaLevelMap
          0 0 0 0.02 4 12.
Proof.
  destruct (sampleTerrainAlongPath_maximum (M := Rational.math) seaLevelMap
              0 0 0 0.02 4 12) as [H _]; [lia|exact H].
Defined.

(** ** Easing *)

Lemma square_nonneg (x : Q) : 0 <= x * x.
Proof.
  destruct (Qlt_le_dec x 0) as [H | H].
  - assert (E : x * x == (- x) * (- x)) by ring.
    rewrite E. apply Qmult_le_0_compat; lra.
  - apply Qmult_le_0_compat; exact H.
Qed.

Lemma cube_le (a b : Q) : a <= b -> a * a * a <= b * b * b.
Proof.
  intro H.
  assert (Hsq : 0 <= a * a + a * b + b * b).
  { pose proof (square_nonneg (a + b)) as H1.
    pose proof (square_nonneg a) as H2.
    pose proof (square_nonneg b) as H3.
    assert (E : (a + b) * (a + b) == a * a + 2 * (a * b) + b * b) by ring.
    rewrite E in H1. lra. }
  assert (Hd : b * b * b - a * a * a == (b - a) * (a * a + a * b + b * b))
    by ring.
  assert (Hp : 0 <= (b - a) * (a * a + a * b + b * b)).
  { apply Qmult_le_0_compat; [lra|exact Hsq]. }
  lra.
Qed.

(** X4.  [easeInOutCubic] maps 0 to 0, one half to one half and 1 to 1,
    never goes down, stays within [0, 1] on [0, 1], and is symmetric about
    the middle: [f(1 - t) = 1 - f(t)]. *)
Theorem easeInOutCubic_shape (t u : Q) :
  easeInOutCubic 0 == 0 /\
  easeInOutCubic 0.5 == 0.5 /\
  easeInOutCubic 1 == 1 /\
  easeInOutCubic (1 - t) == 1 - easeInOutCubic t /\
  (t <= u -> easeInOutCubic t <= easeInOutCubic u) /\
  (0 <= t -> t <= 1 -> 0 <= easeInOutCubic t /\ easeInOutCubic t <= 1).
Proof.
  assert (Hmono : forall a b, a <= b -> easeInOutCubic a <= easeInOutCubic b).
  { intros a b Hab. unfold easeInOutCubic.
    destruct (JS.ltb a 0.5) eqn:Ea; destruct (JS.ltb b 0.5) eqn:Eb.
    - pose proof (cube_le a b Hab). lra.
    - apply ltb_lt in Ea. apply ltb_ge in Eb.
      pose proof (cube_le a 0.5 (Qlt_le_weak _ _ Ea)) as H1.
      assert (H2 : -2 * b + 2 <= 1) by lra.
      pose proof (cube_le (-2 * b + 2) 1 H2) as H3.
      assert (E1 : 0.5 * 0.5 * 0.5 == 1 # 8) by reflexivity.
      assert (E2 : 1 * 1 * 1 == 1) by reflexivity.
      rewrite E1 in H1. rewrite E2 in H3.
      apply Qle_trans with (1 # 2); [lra|].
      assert (H4 : (-2 * b + 2) * (-2 * b + 2) * (-2 * b + 2) / 2 <= 1 # 2).
      { apply Qle_shift_div_r; [reflexivity|]. lra. }
      lra.
    - apply ltb_ge in Ea. apply ltb_lt in Eb. lra.
    - assert (H2 : -2 * b + 2 <= -2 * a + 2) by lra.
      pose proof (cube_le _ _ H2) as H3.
      assert (H4 : (-2 * b + 2) * (-2 * b + 2) * (-2 * b + 2) / 2
                   <= (-2 * a + 2) * (-2 * a + 2) * (-2 * a + 2) / 2).
      { apply Qle_shift_div_r; [reflexivity|].
        assert (E : (-2 * a + 2) * (-2 * a + 2) * (-2 * a + 2) / 2 * 2
                    == (-2 * a + 2) * (-2 * a + 2) * (-2 * a + 2))
          by field.
        rewrite E. exact H3. }
      lra. }
  assert (H0 : easeInOutCubic 0 == 0) by reflexivity.
  assert (H1 : easeInOutCubic 1 == 1) by reflexivity.
  split; [exact H0|]. split; [reflexivity|]. split; [exact H1|].
  split; [|split].
  - unfold easeInOutCubic.
    destruct (JS.ltb (1 - t) 0.5) eqn:Ea; destruct (JS.ltb t 0.5) eqn:Eb.
    + apply ltb_lt in Ea. apply ltb_lt in Eb. lra.
    + field.
    + field.
    + apply ltb_ge in Ea. apply ltb_ge in Eb.
      assert (Ht : t == 0.5) by lra.
      rewrite Ht. reflexivity.
  - apply Hmono.
  - intros Ht0 Ht1. split.
    + rewrite <- H0. apply Hmono. exact Ht0.
    + rewrite <- H1. apply Hmono. exact Ht1.
Qed.

(** ** Interpolation and position smoothing *)

Lemma between_step (a b f : Q) :
  0 <= f -> f <= 1 -> between a b (a + (b - a) * f).
Proof.
  intros H0 H1. unfold between.
  destruct (Qlt_le_dec b a) as [H | H].
  - right. split; nra.
  - left. split; nra.
Qed.

(** X5.  [interpolate] gives the first point at [t = 0], the second at
    [t = 1], and for [t] in [0, 1] a point whose latitude, longitude and
    elevation each lie between those of the two points. *)
Theorem interpolate_between (point1 point2 : TrackPoint) (t : Q) :
  (lat (interpolate point1 point2 0) == lat point1 /\
   lon (interpolate point1 point2 0) == lon point1 /\
   ele (interpolate point1 point2 0) == ele point1) /\
  (lat (interpolate point1 point2 1) == lat point2 /\
   lon (interpolate point1 point2 1) == lon point2 /\
   ele (interpolate point1 point2 1) == ele point2) /\
  (0 <= t -> t <= 1 ->
   betweenPoints point1 point2 (interpolate point1 point2 t)).
Proof.
  unfold interpolate. cbn [lat lon ele].
  split; [repeat split; ring|]. split; [repeat split; ring|].
  intros H0 H1. unfold betweenPoints. cbn [lat lon ele].
  repeat split; apply between_step; assumption.
Qed.

Section PositionSmoothing.

Context {M : JSMath} {L : JSMathLaws M}.

Lemma positionFactor_range (s : FlyoverAnimation) :
  let f := Qmax 0.04 (positionSmoothingFactor / Math_sqrt (speedFactor s)) in
  0.04 <= f /\ f <= 0.15.
Proof.
  cbv zeta. split; [apply Q.le_max_l|].
  apply Q.max_lub; [discriminate|].
  pose proof (@Math_sqrt_ge_1 M L (speedFactor s) (Q.le_max_l 1 (speed s)))
    as Hs.
  unfold positionSmoothingFactor.
  apply Qle_shift_div_r; lra.
Qed.

End PositionSmoothing.

(** X6.  Position smoothing has inertia and no overshoot: the first call
    after a reset returns the new position and stores it; every later call
    returns, and stores, a point whose latitude, longitude and elevation
    each lie between the stored position and the new one, having moved
    toward the new one by the same fraction, between 0.04 and 0.15. *)
Theorem smoothPosition_between {M : JSMath} {L : JSMathLaws M}
    (s : FlyoverAnimation) (newPosition : TrackPoint) :
  let r := fst (smoothPosition newPosition s) in
  let s' := snd (smoothPosition newPosition s) in
  s' = set_lastSmoothedPosition (Some r) s /\
  (lastSmoothedPosition s = None -> r = newPosition) /\
  (forall last, lastSmoothedPosition s = Some last ->
     betweenPoints last newPosition r /\
     exists f, 0.04 <= f /\ f <= 0.15 /\
       lat r == lat last + (lat newPosition - lat last) * f /\
       lon r == lon last + (lon newPosition - lon last) * f /\
       ele r == ele last + (ele newPosition - ele last) * f).
Proof.
  intros r s'. subst r s'. unfold smoothPosition.
  destruct (lastSmoothedPosition s) as [last|]; cbn [fst snd].
  - split; [reflexivity|]. split; [discriminate|].
    intros l Hl. injection Hl as <-.
    destruct (positionFactor_range s) as [Hf0 Hf1].
    remember (Qmax 0.04
                (positionSmoothingFactor / Math_sqrt (speedFactor s)))
      as f eqn:Hf. clear Hf.
    split.
    + unfold betweenPoints. cbn [lat lon ele].
      repeat split; apply between_step; lra.
    + exists f. cbn [lat lon ele].
      repeat split; first [assumption | reflexivity].
  - split; [reflexivity|]. split; [reflexivity|].
    intros l Hl. discriminate Hl.
Qed.

(** ** Bearings, once more *)

Lemma normalizeBearing_turns (x y : Q) (k : Z) :
  x == y + 360 * inject_Z k -> normalizeBearing x == normalizeBearing y.
Proof.
  intro H.
  destruct (normalizeBearing_range x) as [Hx0 [Hx1 [kx Hkx]]].
  destruct (normalizeBearing_range y) as [Hy0 [Hy1 [ky Hky]]].
  apply (turn_unique _ _ (k + kx + - ky)); try assumption.
  rewrite Hkx, Hky, H. rewrite !inject_Z_plus, inject_Z_opp. ring.
Qed.

(** X7.  [normalizeBearing] returns a bearing in [0, 360) that differs
    from its argument by a whole number of turns; it leaves a bearing in
    [0, 360) as it is, gives the same bearing again when applied twice,
    and does not see a turn added to its argument. *)
Theorem normalizeBearing_canonical (b : Q) :
  0 <= normalizeBearing b /\ normalizeBearing b < 360 /\
  (exists k : Z, normalizeBearing b == b + 360 * inject_Z k) /\
  (0 <= b -> b < 360 -> normalizeBearing b == b) /\
  normalizeBearing (normalizeBearing b) == normalizeBearing b /\
  normalizeBearing (b + 360) == normalizeBearing b /\
  normalizeBearing (b - 360) == normalizeBearing b.
Proof.
  destruct (normalizeBearing_range b) as [H0 [H1 [k Hk]]].
  assert (Hfix : forall x, 0 <= x -> x < 360 -> normalizeBearing x == x).
  { intros x Hx0 Hx1.
    destruct (normalizeBearing_range x) as [Hn0 [Hn1 [kx Hkx]]].
    apply (turn_unique _ _ kx); assumption. }
  split; [exact H0|]. split; [exact H1|]. split; [exists k; exact Hk|].
  split; [apply Hfix|]. split; [apply Hfix; assumption|]. split.
  - apply (normalizeBearing_turns _ _ 1). change (inject_Z 1) with 1. ring.
  - apply (normalizeBearing_turns _ _ (-1)).
    change (inject_Z (-1)) with (-1). ring.
Qed.

(** X8.  [bearingDifference] is the shortest turn from the first bearing
    to the second: it lies in (-180, 180], turning the first bearing by it
    gives the second (after normalization), it is 0 from a bearing to
    itself, and, unless it is the half turn, it changes sign when the two
    bearings change places. *)
Theorem bearingDifference_shortest_turn (b1 b2 : Q) :
  -180 < bearingDifference b1 b2 /\ bearingDifference b1 b2 <= 180 /\
  normalizeBearing (b1 + bearingDifference b1 b2) == normalizeBearing b2 /\
  bearingDifference b1 b1 == 0 /\
  (bearingDifference b1 b2 < 180 ->
   bearingDifference b2 b1 == - bearingDifference b1 b2).
Proof.
  destruct (bearingDifference_range b1 b2) as [H0 [H1 [k Hk]]].
  split; [exact H0|]. split; [exact H1|]. split; [|split].
  - apply (normalizeBearing_turns _ _ k). rewrite Hk. ring.
  - apply (bearingDifference_wrap b1 b1 0 0); [reflexivity|discriminate|].
    change (inject_Z 0) with 0. ring.
  - intro Hlt.
    apply (bearingDifference_wrap b2 b1 (- bearingDifference b1 b2) k);
      [lra|lra|].
    rewrite Hk. ring.
Qed.

(** From 12 degrees of latitude to 13 at twice the speed: the smoothed
    latitude lies between the two. *)
Lemma smoothPosition_between_witness :
  let s :=
    set_lastSmoothedPosition (Some (mkPoint 12 7 100)) (setSpeed 2 constructor) in
  betweenPoints (mkPoint 12 7 100) (mkPoint 13 7 140)
    (fst (smoothPosition (M := Rational.math) (mkPoint 13 7 140) s)).
Proof.
  intro s.
  destruct (smoothPosition_between (M := Rational.math) (L := Rational_laws)
              s (mkPoint 13 7 140)) as [_ [_ H]].
  destruct (H (mkPoint 12 7 100) eq_refl) as [Hb _]. exact Hb.
Defined.

(** ** The bearing history *)

Lemma shiftWhileLonger_suffix (history : list Q) (size : Z) :
  isSuffixOf (shiftWhileLonger history size) history.
Proof.
  induction history as [|x history IH].
  - exists []. reflexivity.
  - cbn [shiftWhileLonger].
    destruct (length_ (x :: history) >? size)%Z.
    + destruct IH as [dropped IH]. exists (x :: dropped).
      cbn [app]. rewrite <- IH. reflexivity.
    + exists []. reflexivity.
Qed.

Lemma shiftWhileLonger_length (history : list Q) (size : Z) :
  (0 <= size)%Z -> (length_ (shiftWhileLonger history size) <= size)%Z.
Proof.
  intro Hs. induction history as [|x history IH].
  - unfold length_. simpl. lia.
  - cbn [shiftWhileLonger].
    destruct (length_ (x :: history) >? size)%Z eqn:E.
    + exact IH.
    + rewrite Z.gtb_ltb in E. apply Z.ltb_ge in E. exact E.
Qed.

Lemma shiftWhileLonger_last (history : list Q) (size : Z) (b : Q) :
  (1 <= size)%Z ->
  last (shiftWhileLonger (history ++ [b]) size) 0 = b /\
  shiftWhileLonger (history ++ [b]) size <> [].
Proof.
  intro Hs. induction history as [|x history IH].
  - cbn [app shiftWhileLonger].
    assert (E : (length_ [b] >? size)%Z = false).
    { rewrite Z.gtb_ltb. apply Z.ltb_ge. unfold length_. simpl. lia. }
    rewrite E. split; [reflexivity|discriminate].
  - change ((x :: history) ++ [b]) with (x :: (history ++ [b])).
    cbn [shiftWhileLonger].
    destruct (length_ (x :: history ++ [b]) >? size)%Z.
    + exact IH.
    + split; [|discriminate].
      change (x :: history ++ [b]) with ((x :: history) ++ [b]).
      apply last_last.
Qed.

Section HistorySize.

Context {M : JSMath} {L : JSMathLaws M}.

Lemma dynamicHistorySize_range (s : FlyoverAnimation) :
  (20 <= dynamicHistorySize s <= 60)%Z.
Proof.
  unfold dynamicHistorySize, JS.floor.
  pose proof (@Math_sqrt_ge_1 M L (speedFactor s) (Q.le_max_l 1 (speed s)))
    as Hs.
  assert (H : 20 <= 20 * Math_sqrt (speedFactor s)) by lra.
  apply Qfloor_resp_le in H.
  change (Qfloor 20) with 20%Z in H. lia.
Qed.

End HistorySize.

(** X9.  The bearing history is bounded and ends with the newest bearing:
    after any call of [smoothBearing] the history has between 1 and 60
    entries (at most [dynamicHistorySize], itself between 20 and 60, when
    a bearing was stored before), its last entry is the bearing just
    given, and it is what is left of the history before, with the new
    bearing appended, when the oldest entries are dropped. *)
Theorem bearingHistory_bounded {M : JSMath} {L : JSMathLaws M}
    (s : FlyoverAnimation) (newBearing : Q) :
  let s' := snd (smoothBearing newBearing s) in
  (1 <= length_ (bearingHistory s') <= 60)%Z /\
  last (bearingHistory s') 0 = newBearing /\
  (lastBearing s = None -> bearingHistory s' = [newBearing]) /\
  (lastBearing s <> None ->
   (20 <= dynamicHistorySize s <= 60)%Z /\
   (length_ (bearingHistory s') <= dynamicHistorySize s)%Z /\
   isSuffixOf (bearingHistory s') (bearingHistory s ++ [newBearing])).
Proof.
  intro s'. subst s'. unfold smoothBearing.
  pose proof (dynamicHistorySize_range s) as Hsize.
  destruct (lastBearing s) as [last|]; cbn [snd bearingHistory set_bearing].
  - destruct (shiftWhileLonger_last (bearingHistory s)
                (dynamicHistorySize s) newBearing) as [Hlast Hne]; [lia|].
    pose proof (shiftWhileLonger_length (bearingHistory s ++ [newBearing])
                  (dynamicHistorySize s)) as Hlen.
    remember (shiftWhileLonger (bearingHistory s ++ [newBearing])
                (dynamicHistorySize s)) as h eqn:Hh.
    split.
    { split; [|lia]. destruct h; [congruence|].
      unfold length_. simpl. lia. }
    split; [exact Hlast|]. split; [discriminate|].
    intros _. split; [exact Hsize|]. split; [lia|].
    rewrite Hh. apply shiftWhileLonger_suffix.
  - split; [unfold length_; simpl; lia|]. split; [reflexivity|].
    split; [reflexivity|]. intro H. congruence.
Qed.

(** After 59 raw bearings at speed 1 the history is cut to at most 60
    entries and ends with the new one. *)
Lemma bearingHistory_bounded_witness :
  let s := set_bearing (Some 10) (repeat 10 70) constructor in
  let s' := snd (smoothBearing (M := Rational.math) 11 s) in
  (1 <= length_ (bearingHistory s') <= 60)%Z /\
  last (bearingHistory s') 0 = 11.
Proof.
  intros s s'.
  destruct (bearingHistory_bounded (M := Rational.math) (L := Rational_laws)
              s 11) as [H1 [H2 _]].
  split; [exact H1|exact H2].
Defined.

(** ** The nearest track elevation *)

Section Nearest.

Context {M : JSMath}.

Lemma nearestElevation_invariant (rest : list TrackPoint) (lon0 lat0 : Q)
    (best : TrackPoint) :
  exists p,
    (p = best \/ In p rest) /\
    nearestElevation rest lon0 lat0 (Some (planarDistance lon0 lat0 best))
      (ele best) = ele p /\
    planarDistance lon0 lat0 p <= planarDistance lon0 lat0 best /\
    forall q, In q rest ->
      planarDistance lon0 lat0 p <= planarDistance lon0 lat0 q.
Proof.
  revert best. induction rest as [|point rest IH]; intro best.
  - exists best. split; [left; reflexivity|]. split; [reflexivity|].
    split; [apply Qle_refl|]. intros q [].
  - cbn [nearestElevation]. fold (planarDistance lon0 lat0 point).
    destruct (JS.ltb (planarDistance lon0 lat0 point)
                (planarDistance lon0 lat0 best)) eqn:E.
    + apply ltb_lt in E.
      destruct (IH point) as [p [Hp [Hr [Hle Hall]]]].
      exists p. split; [right; destruct Hp as [-> | Hp];
                        [left; reflexivity|right; exact Hp]|].
      split; [exact Hr|]. split; [lra|].
      intros q [<- | Hq]; [exact Hle|apply Hall; exact Hq].
    + apply ltb_ge in E.
      destruct (IH best) as [p [Hp [Hr [Hle Hall]]]].
      exists p. split; [destruct Hp as [-> | Hp];
                        [left; reflexivity|right; right; exact Hp]|].
      split; [exact Hr|]. split; [exact Hle|].
      intros q [<- | Hq]; [lra|apply Hall; exact Hq].
Qed.

End Nearest.

(** X10.  [getTrackElevationNear] returns 0 on an empty track, and
    otherwise the elevation of a track point that no other track point is
    closer than, in the planar distance the code compares. *)
Theorem getTrackElevationNear_nearest {M : JSMath} (gpx : GPXMap)
    (lon0 lat0 : Q) :
  (GPX.getTrackPoints gpx = [] -> getTrackElevationNear gpx lon0 lat0 = 0) /\
  (GPX.getTrackPoints gpx <> [] ->
   exists p,
     In p (GPX.getTrackPoints gpx) /\
     getTrackElevationNear gpx lon0 lat0 = ele p /\
     forall q, In q (GPX.getTrackPoints gpx) ->
       planarDistance lon0 lat0 p <= planarDistance lon0 lat0 q).
Proof.
  unfold getTrackElevationNear. split.
  - intros ->. reflexivity.
  - intro Hne. destruct (GPX.getTrackPoints gpx) as [|p0 rest];
      [congruence|].
    cbn [nearestElevation]. fold (planarDistance lon0 lat0 p0).
    destruct (nearestElevation_invariant rest lon0 lat0 p0)
      as [p [Hp [Hr [Hle Hall]]]].
    exists p. split; [destruct Hp as [-> | Hp];
                      [left; reflexivity|right; exact Hp]|].
    split; [exact Hr|].
    intros q [<- | Hq]; [exact Hle|apply Hall; exact Hq].
Qed.

(** ** Segment lookup, once more *)

Lemma nondecreasing_head (x : Q) (D : list Q) :
  nondecreasing (x :: D) ->
  forall j b, nth_error D j = Some b -> x <= b.
Proof.
  revert x. induction D as [|y D IH]; intros x Hs j b Hj.
  - destruct j; discriminate Hj.
  - destruct Hs as [Hxy Hs]. destruct j as [|j].
    + injection Hj as <-. exact Hxy.
    + apply Qle_trans with y; [exact Hxy|].
      apply (IH y Hs j b). exact Hj.
Qed.

Lemma nondecreasing_tail (x : Q) (D : list Q) :
  nondecreasing (x :: D) -> nondecreasing D.
Proof.
  destruct D as [|y D]; [intros _; exact I|]. intros [_ H]. exact H.
Qed.

Lemma nondecreasing_nth (D : list Q) :
  nondecreasing D ->
  forall i j a b,
    nth_error D i = Some a -> nth_error D j = Some b -> (i <= j)%nat ->
    a <= b.
Proof.
  induction D as [|x D IH]; intros Hs i j a b Hi Hj Hij.
  - destruct i; discriminate Hi.
  - destruct i as [|i]; destruct j as [|j]; try lia.
    + injection Hi as <-. injection Hj as <-. apply Qle_refl.
    + injection Hi as <-. apply (nondecreasing_head x D Hs j b Hj).
    + apply (IH (nondecreasing_tail x D Hs) i j a b Hi Hj). lia.
Qed.

Lemma nondecreasing_at (D : list Q) (i j : Z) (a b : Q) :
  nondecreasing D -> at_ D i = Some a -> at_ D j = Some b -> (i <= j)%Z ->
  a <= b.
Proof.
  intros Hs Hi Hj Hij. unfold at_ in *.
  destruct (i <? 0)%Z eqn:Ei; [discriminate|].
  destruct (j <? 0)%Z eqn:Ej; [discriminate|].
  apply Z.ltb_ge in Ei. apply Z.ltb_ge in Ej.
  apply (nondecreasing_nth D Hs (Z.to_nat i) (Z.to_nat j) a b Hi Hj). lia.
Qed.

(** Whatever the array holds, the loop stays between its bounds. *)
Lemma segmentLoop_range (D : list Q) (d : Q) (l r : Z) :
  ((l < r)%Z -> (l <= segmentLoop D d l r < r)%Z) /\
  ((r <= l)%Z -> segmentLoop D d l r = l).
Proof.
  funelim (segmentLoop D d l r).
  - clear Heq Heqcall. cbv zeta.
    assert (Hmid : (l < (l + r) / 2 < r)%Z).
    { pose proof (Z.div_mod (l + r) 2).
      pose proof (Z.mod_pos_bound (l + r) 2). lia. }
    destruct H as [H _]. destruct H0 as [H0 _].
    split; [|lia]. intros _.
    destruct (match at_ distances ((l + r) / 2) with
              | Some d0 => Qle_bool d0 targetDistance
              | None => false
              end); lia.
  - clear Heq. split; intro; lia.
Qed.

(** The loop keeps: [left] is 0 or [D[left] <= d]; [right] is the last
    index or [d < D[right]]. *)
Lemma segmentLoop_clamped (D : list Q) (d : Q) (l r : Z) :
  (0 <= l < r)%Z -> (r <= length_ D - 1)%Z ->
  (l = 0%Z \/ exists a, at_ D l = Some a /\ a <= d) ->
  (r = (length_ D - 1)%Z \/ exists b, at_ D r = Some b /\ d < b) ->
  let i := segmentLoop D d l r in
  (i = 0%Z \/ exists a, at_ D i = Some a /\ a <= d) /\
  ((i + 1)%Z = (length_ D - 1)%Z \/
   exists b, at_ D (i + 1) = Some b /\ d < b).
Proof.
  funelim (segmentLoop D d l r); intros Hlr Hr Hleft Hright; cbv zeta.
  - clear Heq Heqcall.
    assert (Hmid : (l < (l + r) / 2 < r)%Z).
    { pose proof (Z.div_mod (l + r) 2).
      pose proof (Z.mod_pos_bound (l + r) 2). lia. }
    destruct (at_some distances ((l + r) / 2)) as [dm Hdm]; [lia|].
    rewrite Hdm.
    destruct (Qle_bool dm targetDistance) eqn:Hcmp.
    + apply Qle_bool_iff in Hcmp.
      apply H; [lia|lia|right; eauto|exact Hright].
    + assert (Hlt : targetDistance < dm).
      { apply Qnot_le_lt. intro Hle. apply Qle_bool_iff in Hle. congruence. }
      apply H0; [lia|lia|exact Hleft|right; eauto].
  - clear Heq. assert (r = (l + 1)%Z) by lia. subst r.
    split; [exact Hleft|exact Hright].
Qed.

(** X11.  [findSegmentAtDistance] never leaves the array, whatever the
    array holds and whatever the distance: on fewer than two entries it
    returns 0, otherwise an index [i] from 0 to [length - 2] with
    [D[i] <= d] unless [i] is 0, and [d < D[i + 1]] unless [i] is the last
    segment.  On an array that never goes down a distance below [D[1]]
    gives the first segment and a distance from [D[length - 2]] on gives
    the last. *)
Theorem findSegmentAtDistance_clamped (D : list Q) (d : Q) :
  let i := findSegmentAtDistance D d in
  ((length_ D < 2)%Z -> i = 0%Z) /\
  ((2 <= length_ D)%Z ->
   (0 <= i <= length_ D - 2)%Z /\
   (i = 0%Z \/ exists a, at_ D i = Some a /\ a <= d) /\
   (i = (length_ D - 2)%Z \/ exists b, at_ D (i + 1) = Some b /\ d < b) /\
   (nondecreasing D ->
    (forall b, at_ D 1 = Some b -> d < b -> i = 0%Z) /\
    (forall a, at_ D (length_ D - 2) = Some a -> a <= d ->
     i = (length_ D - 2)%Z))).
Proof.
  intro i. subst i. unfold findSegmentAtDistance.
  destruct (segmentLoop_range D d 0 (length_ D - 1)) as [Hin Hout].
  split.
  - intro Hlen. apply Hout. lia.
  - intro Hlen. specialize (Hin ltac:(lia)).
    destruct (segmentLoop_clamped D d 0 (length_ D - 1)) as [Hlo Hhi];
      [lia|lia|left; reflexivity|left; reflexivity|].
    remember (segmentLoop D d 0 (length_ D - 1)) as i eqn:Hi. clear Hi.
    assert (Hhi' : i = (length_ D - 2)%Z
                   \/ exists b, at_ D (i + 1) = Some b /\ d < b).
    { destruct Hhi as [Hhi | Hhi]; [left; lia|right; exact Hhi]. }
    split; [lia|]. split; [exact Hlo|]. split; [exact Hhi'|].
    intro Hs. split.
    + intros b Hb Hdb. destruct Hlo as [Hlo | [a [Ha Had]]]; [exact Hlo|].
      destruct (Z.eq_dec i 0) as [Hz | Hnz]; [exact Hz|].
      pose proof (nondecreasing_at D 1 i b a Hs Hb Ha ltac:(lia)). lra.
    + intros a Ha Had. destruct Hhi' as [Hhi' | [b [Hb Hdb]]]; [exact Hhi'|].
      destruct (Z.eq_dec i (length_ D - 2)) as [Hz | Hnz]; [exact Hz|].
      pose proof (nondecreasing_at D (i + 1) (length_ D - 2) b a Hs Hb Ha
                    ltac:(lia)). lra.
Qed.

(** ** Running totals *)

Section RunningTotals.

Context {M : JSMath}.

Lemma accumulateDistances_cumulativeFrom prev rest total acc :
  snd (accumulateDistances prev rest total acc)
  = acc ++ cumulativeFrom total prev rest.
Proof.
  revert prev total acc.
  induction rest as [|p rest IH]; intros prev total acc.
  - cbn. symmetry. apply app_nil_r.
  - cbn [accumulateDistances cumulativeFrom]. rewrite IH.
    rewrite <- app_assoc. reflexivity.
Qed.

Lemma accumulateDistances_total prev rest total acc :
  fst (accumulateDistances prev rest total acc)
  == total + pathLengthFrom prev rest.
Proof.
  revert prev total acc.
  induction rest as [|p rest IH]; intros prev total acc.
  - cbn. ring.
  - cbn [accumulateDistances pathLengthFrom]. rewrite IH. ring.
Qed.

Lemma cumulativeFrom_step rest total prev (k : nat) a p q :
  nth_error (total :: cumulativeFrom total prev rest) k = Some a ->
  nth_error (prev :: rest) k = Some p ->
  nth_error (prev :: rest) (S k) = Some q ->
  nth_error (total :: cumulativeFrom total prev rest) (S k)
  = Some (a + calculateDistance p q).
Proof.
  revert total prev k.
  induction rest as [|p1 rest IH]; intros total prev k Ha Hp Hq.
  - destruct k; cbn in Hq; [discriminate|destruct k; discriminate].
  - destruct k as [|k].
    + cbn in Ha, Hp, Hq. injection Ha as <-. injection Hp as <-.
      injection Hq as <-. reflexivity.
    + cbn [cumulativeFrom] in *.
      apply (IH (total + calculateDistance prev p1) p1 k); assumption.
Qed.

End RunningTotals.

Section FreshData.

Context {M : JSMath}.

Variable gpx : GPXMap.

(** What [initializeDistanceData] builds on a track of two points or
    more. *)
Lemma initializeDistanceData_builds (s : FlyoverAnimation) :
  (2 <= length_ (GPX.getTrackPoints gpx))%Z ->
  let s' := stateAfter (initializeDistanceData gpx s) in
  exists p0 rest D,
    GPX.getTrackPoints gpx = p0 :: rest /\
    D = 0 :: cumulativeFrom 0 p0 rest /\
    s' = set_distanceData (Some D) (totalDistance s') true s /\
    length_ D = length_ (GPX.getTrackPoints gpx) /\
    at_ D 0 = Some 0 /\
    at_ D (length_ (GPX.getTrackPoints gpx) - 1) = Some (totalDistance s') /\
    totalDistance s' == pathLength (GPX.getTrackPoints gpx).
Proof.
  intros Hn s'. subst s'. unfold initializeDistanceData.
  destruct (GPX.getTrackPoints gpx) as [|p0 [|p1 rest]];
    try (unfold length_ in Hn; simpl in Hn; lia).
  pose proof (accumulateDistances_shape p0 (p1 :: rest) 0 [0]) as Hshape.
  pose proof (accumulateDistances_cumulativeFrom p0 (p1 :: rest) 0 [0])
    as Hcum.
  pose proof (accumulateDistances_total p0 (p1 :: rest) 0 [0]) as Htot.
  destruct (accumulateDistances p0 (p1 :: rest) 0 [0]) as [total D].
  destruct Hshape as [Hlen [_ Hlast]]; [discriminate|reflexivity|].
  cbn [fst snd] in Hlen, Hlast, Hcum, Htot.
  exists p0, (p1 :: rest), D.
  assert (HlenZ : length_ D = length_ (p0 :: p1 :: rest)).
  { unfold length_. rewrite Hlen. simpl List.length. lia. }
  change (stateAfter
            ((modify (set_distanceData (Some D) total true) ;;;
              emit (ConsoleLog "Track initialized"))%act s))
    with (set_distanceData (Some D) total true s).
  cbn [totalDistance set_distanceData].
  split; [reflexivity|]. split; [exact Hcum|]. split; [reflexivity|].
  split; [exact HlenZ|]. split; [rewrite Hcum; reflexivity|]. split.
  - rewrite <- HlenZ, <- Hlast. apply at_last. rewrite Hcum. discriminate.
  - rewrite Htot. cbn [pathLength]. ring.
Qed.

Lemma ensureDistanceData_state (s : FlyoverAnimation) :
  stateAfter (ensureDistanceData gpx s)
  = if distanceDataInitialized s then s
    else stateAfter (initializeDistanceData gpx s).
Proof.
  unfold ensureDistanceData, bind, get.
  destruct (distanceDataInitialized s); [reflexivity|].
  rewrite (initializeDistanceData_run gpx s). reflexivity.
Qed.

(** The distance data after [ensureDistanceData], when the data was that
    of the track or still to be built. *)
Lemma ensureDistanceData_builds (s : FlyoverAnimation) :
  (2 <= length_ (GPX.getTrackPoints gpx))%Z ->
  distanceDataCurrent gpx s ->
  let s1 := stateAfter (ensureDistanceData gpx s) in
  exists p0 rest D,
    GPX.getTrackPoints gpx = p0 :: rest /\
    D = 0 :: cumulativeFrom 0 p0 rest /\
    cumulativeDistances s1 = Some D /\
    length_ D = length_ (GPX.getTrackPoints gpx) /\
    at_ D 0 = Some 0 /\
    at_ D (length_ (GPX.getTrackPoints gpx) - 1) = Some (totalDistance s1) /\
    totalDistance s1 == pathLength (GPX.getTrackPoints gpx).
Proof.
  intros Hn Hcur s1. subst s1.
  destruct (initializeDistanceData_builds s Hn)
    as [p0 [rest [D [Hpts [HD [Hs' [Hlen [H0 [Hlast Htot]]]]]]]]].
  exists p0, rest, D.
  assert (Hcum : cumulativeDistances
                   (stateAfter (initializeDistanceData gpx s)) = Some D).
  { rewrite Hs'. reflexivity. }
  rewrite ensureDistanceData_state.
  destruct (distanceDataInitialized s) eqn:Hinit.
  - destruct Hcur as [Hcur | [Hc Ht]]; [congruence|].
    rewrite Hc, Ht. repeat split; assumption.
  - repeat split; assumption.
Qed.

End FreshData.

(** X12.  The distance data are running totals.  On a track of two points
    or more whose distance data is that of the track, or still to be
    built, [getTotalDistance] returns the sum of the distances between
    consecutive points, which is the last entry of the cumulative array,
    and each entry of that array is the entry before plus the distance
    between the two points of that segment.  On a track of fewer than two
    points it returns the total distance the controller had. *)
Theorem getTotalDistance_running_totals {M : JSMath} (gpx : GPXMap)
    (s : FlyoverAnimation) :
  let n := length_ (GPX.getTrackPoints gpx) in
  let r := getTotalDistance gpx s in
  ((2 <= n)%Z -> distanceDataCurrent gpx s ->
   exists D total,
     outcomeOf r = Returned total /\
     total == pathLength (GPX.getTrackPoints gpx) /\
     cumulativeDistances (stateAfter r) = Some D /\
     at_ D 0 = Some 0 /\
     at_ D (n - 1) = Some total /\
     forall k a p q,
       at_ D k = Some a ->
       at_ (GPX.getTrackPoints gpx) k = Some p ->
       at_ (GPX.getTrackPoints gpx) (k + 1) = Some q ->
       at_ D (k + 1) = Some (a + calculateDistance p q)) /\
  ((n < 2)%Z -> outcomeOf r = Returned (totalDistance s)).
Proof.
  intros n r. subst n r. unfold getTotalDistance.
  rewrite (bind_returned _ _ s tt _ _ (ensureDistanceData_run gpx s)).
  unfold outcomeOf, stateAfter, bind, get, ret. cbn [fst snd].
  split.
  - intros Hn Hcur.
    destruct (ensureDistanceData_builds gpx s Hn Hcur)
      as [p0 [rest [D [Hpts [HD [Hcum [Hlen [H0 [Hlast Htot]]]]]]]]].
    unfold stateAfter in *. cbn [fst snd] in *.
    exists D, (totalDistance (snd (fst (ensureDistanceData gpx s)))).
    split; [reflexivity|]. split; [exact Htot|]. split; [exact Hcum|].
    split; [exact H0|]. split; [exact Hlast|].
    intros k a p q Ha Hp Hq. rewrite Hpts in Hp, Hq. rewrite HD in *.
    unfold at_ in *.
    destruct (k <? 0)%Z eqn:Ek; [discriminate|]. apply Z.ltb_ge in Ek.
    assert (Ek1 : (k + 1 <? 0)%Z = false) by (apply Z.ltb_ge; lia).
    rewrite Ek1 in *.
    replace (Z.to_nat (k + 1)) with (S (Z.to_nat k)) in * by lia.
    apply cumulativeFrom_step; assumption.
  - intro Hn.
    assert (Hkeep : totalDistance (stateAfter (ensureDistanceData gpx s))
                    = totalDistance s).
    { unfold ensureDistanceData, bind, get.
      destruct (distanceDataInitialized s); [reflexivity|].
      unfold initializeDistanceData.
      destruct (GPX.getTrackPoints gpx) as [|p0 [|p1 rest]];
        try reflexivity.
      unfold length_ in Hn. simpl in Hn. lia. }
    unfold stateAfter in Hkeep. rewrite Hkeep. reflexivity.
Qed.

(** The sea-level track from a new controller: the total is the sum of
    the two segments. *)
Lemma getTotalDistance_running_totals_witness :
  exists total,
    outcomeOf (getTotalDistance (M := Rational.math) seaLevelMap constructor)
    = Returned total /\
    total == pathLength (M := Rational.math) seaLevelTrack.
Proof.
  destruct (getTotalDistance_running_totals (M := Rational.math) seaLevelMap
              constructor) as [H _].
  destruct H as [D [total [Ho [Ht _]]]].
  - vm_compute. discriminate.
  - left. reflexivity.
  - exists total. split; [exact Ho|exact Ht].
Defined.

(** ** Laws of the controller's monad *)

Lemma bind_get {B} (k : FlyoverAnimation -> Act B) (s : FlyoverAnimation) :
  bind get k s = k s s.
Proof.
  unfold bind, get. destruct (k s s) as [[r s2] out2]. reflexivity.
Qed.

Lemma bind_ret {A B} (a : A) (k : A -> Act B) (s : FlyoverAnimation) :
  bind (ret a) k s = k a s.
Proof.
  unfold bind, ret. destruct (k a s) as [[r s2] out2]. reflexivity.
Qed.

Lemma bind_modify {B} (f : FlyoverAnimation -> FlyoverAnimation)
    (k : unit -> Act B) (s : FlyoverAnimation) :
  bind (modify f) k s = k tt (f s).
Proof.
  unfold bind, modify. destruct (k tt (f s)) as [[r s2] out2]. reflexivity.
Qed.

Lemma bind_lift {A B} (f : FlyoverAnimation -> A * FlyoverAnimation)
    (k : A -> Act B) (s : FlyoverAnimation) :
  bind (lift f) k s = k (fst (f s)) (snd (f s)).
Proof.
  unfold bind, lift. destruct (f s) as [a s1]. cbn [fst snd].
  destruct (k a s1) as [[r s2] out2]. reflexivity.
Qed.

Lemma bind_emit {B} (e : Effect) (k : unit -> Act B) (s : FlyoverAnimation) :
  bind (emit e) k s
  = (outcomeOf (k tt s), stateAfter (k tt s), e :: effectsOf (k tt s)).
Proof.
  unfold bind, emit. destruct (k tt s) as [[r s2] out2]. reflexivity.
Qed.


Lemma run_eta {A} (r : Outcome A * FlyoverAnimation * list Effect) :
  (outcomeOf r, stateAfter r, effectsOf r) = r.
Proof.
  destruct r as [[o s] out]. reflexivity.
Qed.

(** ** Sampling the track *)

Lemma findSegmentAtDistance_range (D : list Q) (d : Q) :
  (2 <= length_ D)%Z ->
  (0 <= findSegmentAtDistance D d <= length_ D - 2)%Z.
Proof.
  intro Hlen. unfold findSegmentAtDistance.
  destruct (segmentLoop_range D d 0 (length_ D - 1)) as [Hin _].
  specialize (Hin ltac:(lia)). lia.
Qed.

Section Sampling.

Context {M : JSMath}.

Lemma positionAtDistance_some (points : list TrackPoint) (D : list Q)
    (d : Q) :
  (2 <= length_ points)%Z -> length_ D = length_ points ->
  exists pos, positionAtDistance points D d = Some pos.
Proof.
  intros Hn Hlen. unfold positionAtDistance.
  pose proof (findSegmentAtDistance_range D d ltac:(lia)) as Hi.
  destruct (at_some points (findSegmentAtDistance D d)) as [p1 Hp1]; [lia|].
  destruct (at_some points
              (Z.min (findSegmentAtDistance D d + 1) (length_ points - 1)))
    as [p2 Hp2]; [lia|].
  rewrite Hp1, Hp2. eauto.
Qed.

Lemma calculateMeanDirectionBearing_some (s : FlyoverAnimation)
    (D : list Q) (d : Q) (points : list TrackPoint) :
  (2 <= length_ points)%Z -> length_ D = length_ points ->
  exists b, calculateMeanDirectionBearing s D d points = Some b.
Proof.
  intros Hn Hlen. unfold calculateMeanDirectionBearing.
  destruct (positionAtDistance_some points D
              (Qmax 0 (d - Qmin 1200 (400 * Math_sqrt (speedFactor s))))
              Hn Hlen) as [past Hpast].
  destruct (positionAtDistance_some points D
              (Qmin (totalDistance s)
                 (d + Qmin 1200 (400 * Math_sqrt (speedFactor s))))
              Hn Hlen) as [future Hfuture].
  rewrite Hpast, Hfuture. eauto.
Qed.

Lemma smoothBearing_in_range (b : Q) (s : FlyoverAnimation) :
  0 <= b -> b < 360 ->
  0 <= fst (smoothBearing b s) /\ fst (smoothBearing b s) < 360 /\
  lastBearing (snd (smoothBearing b s)) = Some (fst (smoothBearing b s)).
Proof.
  intros H0 H1. unfold smoothBearing.
  destruct (lastBearing s) as [last|]; cbn [fst snd].
  - destruct (normalizeBearing_range
                (last
                 + bearingDifference last
                     (historyMean
                        (shiftWhileLonger (bearingHistory s ++ [b])
                           (dynamicHistorySize s)))
                   * dynamicSmoothingFactor s)) as [Hn0 [Hn1 _]].
    split; [exact Hn0|]. split; [exact Hn1|reflexivity].
  - split; [exact H0|]. split; [exact H1|reflexivity].
Qed.

Lemma blendBearings_in_range (b1 b2 w : Q) :
  0 <= blendBearings b1 b2 w /\ blendBearings b1 b2 w < 360.
Proof.
  unfold blendBearings. cbv zeta.
  match goal with
  | |- 0 <= normalizeBearing ?x /\ _ =>
      destruct (normalizeBearing_range x) as [H0 [H1 _]]
  end.
  split; assumption.
Qed.

Variable gpx : GPXMap.

(** Sampling a track of two points or more whose distance data is that of
    the track: the call returns a position. *)
Lemma getPointAtProgress_returns (p : Q) (s : FlyoverAnimation) :
  (2 <= length_ (GPX.getTrackPoints gpx))%Z ->
  distanceDataCurrent gpx s ->
  let s1 := stateAfter (ensureDistanceData gpx s) in
  exists D tp point1 point2 s',
    cumulativeDistances s1 = Some D /\
    getPointAtProgress gpx p s
    = (Returned (Some tp), s', effectsOf (ensureDistanceData gpx s)) /\
    index tp = findSegmentAtDistance D (clampProgress p * totalDistance s1) /\
    (0 <= index tp <= length_ (GPX.getTrackPoints gpx) - 2)%Z /\
    at_ (GPX.getTrackPoints gpx) (index tp) = Some point1 /\
    at_ (GPX.getTrackPoints gpx) (index tp + 1) = Some point2 /\
    rawPosition tp
    = interpolate point1 point2
        (segmentFraction D (index tp) (clampProgress p * totalDistance s1)) /\
    position tp = fst (smoothPosition (rawPosition tp) s1) /\
    (0 <= rawBearing tp /\ rawBearing tp < 360) /\
    (0 <= bearing tp /\ bearing tp < 360) /\
    bearing tp
    = fst (smoothBearing (rawBearing tp)
             (snd (smoothPosition (rawPosition tp) s1))) /\
    s' = snd (smoothBearing (rawBearing tp)
                (snd (smoothPosition (rawPosition tp) s1))).
Proof.
  intros Hn Hcur s1.
  destruct (ensureDistanceData_builds gpx s Hn Hcur)
    as [p0 [rest [D [Hpts [HD [Hcum [Hlen [H0 [Hlast Htot]]]]]]]]].
  fold s1 in Hcum, Hlast, Htot.
  set (target := clampProgress p * totalDistance s1).
  pose proof (findSegmentAtDistance_range D target ltac:(lia)) as Hi.
  set (i := findSegmentAtDistance D target) in *.
  destruct (at_some (GPX.getTrackPoints gpx) i) as [point1 Hp1]; [lia|].
  destruct (at_some (GPX.getTrackPoints gpx) (i + 1)) as [point2 Hp2]; [lia|].
  assert (Hmin : Z.min (i + 1) (length_ (GPX.getTrackPoints gpx) - 1)
                 = (i + 1)%Z) by lia.
  set (rawPos := interpolate point1 point2 (segmentFraction D i target)).
  destruct (calculateMeanDirectionBearing_some s1 D target
              (GPX.getTrackPoints gpx) Hn Hlen) as [mean Hmean].
  destruct (positionAtDistance_some (GPX.getTrackPoints gpx) D
              (Qmin (totalDistance s1) (target + 50)) Hn Hlen)
    as [ahead Hahead].
  set (blended :=
         blendBearings mean (calculateBearing rawPos ahead)
           (Qmin 0.95 (0.80 + 0.015 * (speedFactor s1 - 1)))).
  destruct (blendBearings_in_range mean (calculateBearing rawPos ahead)
              (Qmin 0.95 (0.80 + 0.015 * (speedFactor s1 - 1))))
    as [Hb0 Hb1].
  fold blended in Hb0, Hb1.
  destruct (smoothBearing_in_range blended
              (snd (smoothPosition rawPos s1)) Hb0 Hb1) as [Hs0 [Hs1 _]].
  exists D,
    {| position := fst (smoothPosition rawPos s1);
       rawPosition := rawPos;
       bearing := fst (smoothBearing blended (snd (smoothPosition rawPos s1)));
       rawBearing := blended;
       index := i |},
    point1, point2,
    (snd (smoothBearing blended (snd (smoothPosition rawPos s1)))).
  cbn [position rawPosition bearing rawBearing index].
  split; [exact Hcum|]. split.
  2:{ repeat split; first [reflexivity | assumption | lia]. }
  unfold getPointAtProgress.
  assert (Hn' : (length_ (GPX.getTrackPoints gpx) <? 2)%Z = false)
    by (apply Z.ltb_ge; exact Hn).
  rewrite Hn'.
  rewrite (bind_returned _ _ s tt _ _ (ensureDistanceData_run gpx s)).
  fold s1. fold (clampProgress p).
  rewrite bind_get. rewrite Hcum. fold target. fold i.
  rewrite Hmin, Hp1, Hp2. fold rawPos.
  rewrite bind_lift. rewrite Hmean, Hahead. fold blended.
  rewrite bind_lift. unfold ret, outcomeOf, stateAfter, effectsOf.
  cbn [fst snd]. rewrite app_nil_r. reflexivity.
Qed.

End Sampling.

Section OnSegment.

Context {M : JSMath} {L : JSMathLaws M}.

Lemma pathLengthFrom_nonneg (prev : TrackPoint) (rest : list TrackPoint) :
  0 <= pathLengthFrom prev rest.
Proof.
  revert prev. induction rest as [|p rest IH]; intro prev; cbn [pathLengthFrom].
  - lra.
  - pose proof (calculateDistance_nonneg prev p). specialize (IH p). lra.
Qed.

Lemma pathLength_nonneg (points : list TrackPoint) : 0 <= pathLength points.
Proof.
  destruct points as [|p0 rest]; cbn [pathLength];
    [lra | apply pathLengthFrom_nonneg].
Qed.

(** On distance data that starts at 0 and ends at the total, the fraction
    of the segment found for a distance in [0, total] is in [0, 1]. *)
Lemma segmentFraction_range (D : list Q) (total d : Q) :
  (2 <= length_ D)%Z -> at_ D 0 = Some 0 ->
  at_ D (length_ D - 1) = Some total ->
  0 <= d -> d <= total ->
  let t := segmentFraction D (findSegmentAtDistance D d) d in
  0 <= t /\ t <= 1.
Proof.
  intros Hlen H0 Hlast Hd0 Hd1. cbv zeta.
  unfold findSegmentAtDistance.
  destruct (segmentLoop_invariant D d 0 (length_ D - 1)) as
    [Hl [Hr [[a [Ha Had]] Hright]]];
    [lia | lia | exists 0; split; [exact H0|exact Hd0] | left; reflexivity |].
  set (i := segmentLoop D d 0 (length_ D - 1)) in *.
  assert (Hb : exists b, at_ D (i + 1) = Some b /\ d <= b).
  { destruct Hright as [Hend | [b [Hb Hdb]]].
    - exists total. rewrite Hend. split; [exact Hlast|exact Hd1].
    - exists b. split; [exact Hb|lra]. }
  destruct Hb as [b [Hb Hdb]].
  unfold segmentFraction.
  replace (Z.min (i + 1) (length_ D - 1)) with (i + 1)%Z by lia.
  rewrite Ha, Hb.
  destruct (JS.gtb (b - a) 0) eqn:Hgt.
  - apply gtb_lt in Hgt. split.
    + apply Qle_shift_div_l; lra.
    + apply Qle_shift_div_r; lra.
  - split; lra.
Qed.

End OnSegment.

(** The smoothed position is stored, and smoothing the bearing leaves it
    there. *)
Lemma smoothing_stores {M : JSMath} (raw : TrackPoint) (rb : Q)
    (s : FlyoverAnimation) :
  lastSmoothedPosition
    (snd (smoothBearing rb (snd (smoothPosition raw s))))
  = Some (fst (smoothPosition raw s)).
Proof.
  unfold smoothBearing.
  destruct (lastBearing (snd (smoothPosition raw s))); cbn [snd];
    unfold smoothPosition;
    destruct (lastSmoothedPosition s); reflexivity.
Qed.

(** X13.  Sampling a track.  On a track of fewer than two points
    [getPointAtProgress] returns null and changes nothing.  On a track of
    two points or more whose distance data is that of the track, or still
    to be built, it never throws and never returns null, for any progress:
    the segment index it returns is a valid segment of the track (between 0
    and n - 2), the raw and the smoothed bearing are in [0, 360), and the
    smoothed position and bearing it returns are the ones it stores for the
    next call. *)
Theorem getPointAtProgress_samples {M : JSMath} (gpx : GPXMap) (p : Q)
    (s : FlyoverAnimation) :
  let n := length_ (GPX.getTrackPoints gpx) in
  let r := getPointAtProgress gpx p s in
  ((n < 2)%Z -> r = (Returned None, s, [])) /\
  ((2 <= n)%Z -> distanceDataCurrent gpx s ->
   exists tp,
     outcomeOf r = Returned (Some tp) /\
     (0 <= index tp <= n - 2)%Z /\
     (0 <= rawBearing tp /\ rawBearing tp < 360) /\
     (0 <= bearing tp /\ bearing tp < 360) /\
     lastSmoothedPosition (stateAfter r) = Some (position tp) /\
     lastBearing (stateAfter r) = Some (bearing tp)).
Proof.
  intros n r. subst n r. split.
  - intro Hn. unfold getPointAtProgress.
    apply Z.ltb_lt in Hn. rewrite Hn. reflexivity.
  - intros Hn Hcur.
    destruct (getPointAtProgress_returns gpx p s Hn Hcur)
      as [D [tp [point1 [point2 [s' [Hcum [Hrun [Hidx [Hrange [Hp1 [Hp2
            [Hraw [Hpos [Hrb [Hb [Hbear Hs']]]]]]]]]]]]]]]].
    exists tp. rewrite Hrun.
    change (outcomeOf (Returned (Some tp), s',
                       effectsOf (ensureDistanceData gpx s)))
      with (Returned (Some tp)).
    change (stateAfter (Returned (Some tp), s',
                        effectsOf (ensureDistanceData gpx s))) with s'.
    split; [reflexivity|]. split; [exact Hrange|].
    split; [exact Hrb|]. split; [exact Hb|].
    destruct Hrb as [Hrb0 Hrb1].
    destruct (smoothBearing_in_range (rawBearing tp)
                (snd (smoothPosition (rawPosition tp)
                        (stateAfter (ensureDistanceData gpx s))))
                Hrb0 Hrb1) as [_ [_ Hlast]].
    rewrite Hs', Hbear. split; [|exact Hlast].
    rewrite Hpos. apply smoothing_stores.
Qed.

Lemma getPointAtProgress_samples_witness :
  exists tp,
    outcomeOf (getPointAtProgress (M := Rational.math) seaLevelMap (1 # 2)
                 constructor) = Returned (Some tp) /\
    (0 <= index tp <= length_ (GPX.getTrackPoints seaLevelMap) - 2)%Z.
Proof.
  destruct (getPointAtProgress_samples (M := Rational.math) seaLevelMap
              (1 # 2) constructor) as [_ H].
  destruct H as [tp [Hout [Hidx _]]].
  - vm_compute. discriminate.
  - left. reflexivity.
  - exists tp. split; [exact Hout|exact Hidx].
Defined.

(** X14.  The raw position is on the segment.  On a track of two points or
    more whose distance data is that of the track, or still to be built,
    the position returned by [getPointAtProgress] before smoothing has its
    latitude, longitude and elevation each between those of the two points
    of the segment whose index is returned, for any progress (also outside
    [0, 1]); when no smoothed position is stored, the position returned is
    that raw position. *)
Theorem getPointAtProgress_on_segment {M : JSMath} {L : JSMathLaws M}
    (gpx : GPXMap) (p : Q) (s : FlyoverAnimation) :
  (2 <= length_ (GPX.getTrackPoints gpx))%Z ->
  distanceDataCurrent gpx s ->
  exists tp point1 point2,
    outcomeOf (getPointAtProgress gpx p s) = Returned (Some tp) /\
    at_ (GPX.getTrackPoints gpx) (index tp) = Some point1 /\
    at_ (GPX.getTrackPoints gpx) (index tp + 1) = Some point2 /\
    betweenPoints point1 point2 (rawPosition tp) /\
    (lastSmoothedPosition s = None -> position tp = rawPosition tp).
Proof.
  intros Hn Hcur.
  destruct (getPointAtProgress_returns gpx p s Hn Hcur)
    as [D [tp [point1 [point2 [s' [Hcum [Hrun [Hidx [Hrange [Hp1 [Hp2
          [Hraw [Hpos _]]]]]]]]]]]]].
  destruct (ensureDistanceData_builds gpx s Hn Hcur)
    as [p0 [rest [D' [Hpts [HD [Hcum' [Hlen [H0 [Hlast Htot]]]]]]]]].
  rewrite Hcum in Hcum'. injection Hcum' as <-.
  exists tp, point1, point2. rewrite Hrun.
  split; [reflexivity|]. split; [exact Hp1|]. split; [exact Hp2|].
  set (s1 := stateAfter (ensureDistanceData gpx s)) in *.
  assert (Htotal : 0 <= totalDistance s1).
  { rewrite Htot. apply pathLength_nonneg. }
  destruct (clampProgress_range p) as [Hc0 Hc1].
  destruct (segmentFraction_range D (totalDistance s1)
              (clampProgress p * totalDistance s1)) as [Ht0 Ht1];
    [lia | exact H0 | rewrite Hlen; exact Hlast | nra | nra |].
  split.
  - rewrite Hraw, Hidx. unfold betweenPoints, interpolate. cbn [lat lon ele].
    repeat split; apply between_step; assumption.
  - intro Hnone. rewrite Hpos. unfold smoothPosition.
    assert (Hkeep : lastSmoothedPosition s1 = lastSmoothedPosition s).
    { apply (ensureDistanceData_keeps gpx lastSmoothedPosition).
      reflexivity. }
    rewrite Hkeep, Hnone. reflexivity.
Qed.

Lemma getPointAtProgress_on_segment_witness :
  exists tp point1 point2,
    outcomeOf (getPointAtProgress (M := Rational.math) seaLevelMap (3 # 4)
                 constructor) = Returned (Some tp) /\
    at_ (GPX.getTrackPoints seaLevelMap) (index tp) = Some point1 /\
    at_ (GPX.getTrackPoints seaLevelMap) (index tp + 1) = Some point2 /\
    betweenPoints point1 point2 (rawPosition tp).
Proof.
  destruct (getPointAtProgress_on_segment (M := Rational.math)
              (L := Rational_laws) seaLevelMap (3 # 4) constructor)
    as [tp [point1 [point2 [Hout [Hp1 [Hp2 [Hbetween _]]]]]]].
  - vm_compute. discriminate.
  - left. reflexivity.
  - exists tp, point1, point2.
    split; [exact Hout|]. split; [exact Hp1|]. split; [exact Hp2|].
    exact Hbetween.
Defined.

(** ** The camera pose *)

Lemma smoothAltitude_stores (target : Q) (s : FlyoverAnimation) :
  target <= fst (smoothAltitude target s) /\
  snd (smoothAltitude target s)
  = set_lastCameraAltitude (Some (fst (smoothAltitude target s))) s.
Proof.
  unfold smoothAltitude.
  destruct (lastCameraAltitude s) as [last|].
  - destruct (JS.gtb target last) eqn:E; cbn [fst snd].
    + split; [apply Qle_refl|reflexivity].
    + apply gtb_le in E. unfold altitudeSmoothingFactor.
      split; [lra|reflexivity].
  - cbn [fst snd]. split; [apply Qle_refl|reflexivity].
Qed.

Section Zoom.

Context {M : JSMath}.

Lemma calculateZoom_range (altitude : Q) :
  10 <= calculateZoom altitude /\ calculateZoom altitude <= 18.
Proof.
  unfold calculateZoom. split; [apply Q.le_max_l|].
  apply Q.max_lub; [discriminate|apply Q.le_min_l].
Qed.

End Zoom.

(** X15.  The follow camera clears the terrain.  In follow mode, on an
    engine whose free camera works and with a camera altitude setting that
    is not negative, [getCameraPosition] returns a free camera and logs
    nothing; the altitude of the camera is the one it stores for the next
    frame; it is at least the terrain under the camera plus the altitude
    setting plus 80 m; the look-at point is at least 5 m above the
    exaggerated track elevation and above the terrain there; and at each of
    the sample parameters of the sight line, the straight line from the
    camera to the look-at point passes at least 80 m above the terrain. *)
Theorem followCamera_clears_terrain {M : JSMath} (gpx : GPXMap)
    (engine : MapEngine) (tp : TrackPosition) (s : FlyoverAnimation) :
  mode s = follow ->
  GPX.map gpx = Some engine ->
  engine_freeCamera engine = FreeCameraWorks ->
  0 <= cameraAltitude s ->
  let trackPointElevation := ele (position tp) * terrainExaggeration in
  exists cLon cLat alt lLon lLat lAlt,
    getCameraPosition gpx tp s
    = (Returned (FreeCamera cLon cLat alt lLon lLat (Some lAlt)),
       set_lastCameraAltitude (Some alt) s, []) /\
    queryTerrainElevation gpx cLon cLat (Some trackPointElevation)
    + cameraAltitude s + minTerrainClearance <= alt /\
    trackPointElevation + 5 <= lAlt /\
    queryTerrainElevation gpx lLon lLat (Some trackPointElevation) + 5
    <= lAlt /\
    forall t, In t (sampleParameters 30) ->
      terrainAlt gpx (cLon + (lLon - cLon) * t) (cLat + (lLat - cLat) * t)
      + minTerrainClearance
      <= sightLineAlt alt lAlt t.
Proof.
  intros Hmode Hmap Hfree Halt trackPointElevation.
  unfold getCameraPosition. rewrite bind_get. rewrite Hmode.
  unfold metersToLatLon. cbv beta iota zeta.
  rewrite bind_lift. unfold emitPose. rewrite Hmap, Hfree.
  fold trackPointElevation.
  set (cLon := lon (position tp) + _).
  set (cLat := lat (position tp) + _).
  set (lLon := lon (position tp) + _).
  set (lLat := lat (position tp) + _).
  set (lAlt := Qmax trackPointElevation
                 (queryTerrainElevation gpx lLon lLat
                    (Some trackPointElevation)) + 5).
  set (los := calculateLineOfSightClearance gpx cLon cLat lLon lLat lAlt 30).
  set (ground := queryTerrainElevation gpx cLon cLat
                   (Some trackPointElevation)).
  set (raw := Qmax (los + cameraAltitude s)
                (ground + cameraAltitude s + minTerrainClearance)).
  destruct (smoothAltitude_stores raw s) as [Hraw Hstore].
  exists cLon, cLat, (fst (smoothAltitude raw s)), lLon, lLat, lAlt.
  split; [unfold ret; rewrite <- Hstore; reflexivity|].
  pose proof (Q.le_max_l (los + cameraAltitude s)
                (ground + cameraAltitude s + minTerrainClearance)) as Hlos.
  pose proof (Q.le_max_r (los + cameraAltitude s)
                (ground + cameraAltitude s + minTerrainClearance)) as Hground.
  fold raw in Hlos, Hground.
  split; [eapply Qle_trans; [exact Hground|exact Hraw]|].
  pose proof (Q.le_max_l trackPointElevation
                (queryTerrainElevation gpx lLon lLat
                   (Some trackPointElevation))) as Hl1.
  pose proof (Q.le_max_r trackPointElevation
                (queryTerrainElevation gpx lLon lLat
                   (Some trackPointElevation))) as Hl2.
  split; [unfold lAlt; lra|]. split; [unfold lAlt; lra|].
  intros t Hin.
  destruct (sampleParameters_range 30 t ltac:(lia) Hin) as [Ht0 Ht1].
  destruct (calculateLineOfSightClearance_maximum gpx cLon cLat lLon lLat
              lAlt 30) as [_ Hub].
  assert (Hreq : requiredCamAlt gpx cLon cLat lLon lLat lAlt t
                 <= fst (smoothAltitude raw s)).
  { eapply Qle_trans; [apply Hub; right; apply in_map; exact Hin|].
    fold los. lra. }
  unfold requiredCamAlt in Hreq.
  apply Qdiv_le_mult in Hreq; [|lra].
  unfold sightLineAlt, minTerrainClearance. lra.
Qed.

Lemma followCamera_clears_terrain_witness :
  exists cLon cLat alt lLon lLat lAlt,
    getCameraPosition (M := Rational.math) flatMap
      {| position := mkPoint 0 0.01 0; rawPosition := mkPoint 0 0.01 0;
         bearing := 90; rawBearing := 90; index := 1%Z |} constructor
    = (Returned (FreeCamera cLon cLat alt lLon lLat (Some lAlt)),
       set_lastCameraAltitude (Some alt) constructor, []) /\
    5 <= lAlt.
Proof.
  destruct (followCamera_clears_terrain (M := Rational.math) flatMap
              (mkEngine (fun _ _ => TerrainNull) FreeCameraWorks)
              {| position := mkPoint 0 0.01 0; rawPosition := mkPoint 0 0.01 0;
                 bearing := 90; rawBearing := 90; index := 1%Z |} constructor)
    as [cLon [cLat [alt [lLon [lLat [lAlt [Hrun [_ [Hl _]]]]]]]]].
  - reflexivity.
  - reflexivity.
  - reflexivity.
  - vm_compute. discriminate.
  - exists cLon, cLat, alt, lLon, lLat, lAlt. split; [exact Hrun|].
    cbn [position ele] in Hl. unfold terrainExaggeration in Hl. lra.
Defined.

(** X16.  The fallback pose.  When the map has no engine, the rendering
    library is not loaded, or the free camera API throws,
    [getCameraPosition] does not throw: it returns a standard camera
    centred on the (smoothed) position, with the configured pitch, the
    bearing of the position and a zoom between 10 and 18; it logs one
    warning when the API has thrown and nothing otherwise.  In bird's eye
    mode the state is left as it was, whatever the engine. *)
Theorem getCameraPosition_fallback {M : JSMath} (gpx : GPXMap)
    (tp : TrackPosition) (s : FlyoverAnimation) :
  let r := getCameraPosition gpx tp s in
  ((forall engine, GPX.map gpx = Some engine ->
      engine_freeCamera engine <> FreeCameraWorks) ->
   exists zoom,
     outcomeOf r
     = Returned (StandardCamera (lon (position tp)) (lat (position tp)) zoom
                   (cameraPitch s) (bearing tp)) /\
     10 <= zoom /\ zoom <= 18 /\
     effectsOf r
     = match GPX.map gpx with
       | Some engine =>
           match engine_freeCamera engine with
           | FreeCameraThrows =>
               [ConsoleWarn
                  "Free camera API failed, falling back to standard camera:"]
           | _ => []
           end
       | None => []
       end) /\
  (mode s = birdseye -> stateAfter r = s).
Proof.
  intro r. subst r. unfold getCameraPosition. rewrite bind_get.
  unfold metersToLatLon. cbv beta iota zeta. split.
  - intro Hno.
    assert (Hpose : forall free altitude s',
              exists zoom,
                outcomeOf (emitPose gpx free
                             (standardCamera s (position tp) altitude
                                (bearing tp)) s')
                = Returned (StandardCamera (lon (position tp))
                              (lat (position tp)) zoom (cameraPitch s)
                              (bearing tp)) /\
                10 <= zoom /\ zoom <= 18 /\
                effectsOf (emitPose gpx free
                             (standardCamera s (position tp) altitude
                                (bearing tp)) s')
                = match GPX.map gpx with
                  | Some engine =>
                      match engine_freeCamera engine with
                      | FreeCameraThrows =>
                          [ConsoleWarn
                             "Free camera API failed, falling back to standard camera:"]
                      | _ => []
                      end
                  | None => []
                  end).
    { intros free altitude s'.
      destruct (calculateZoom_range altitude) as [Hz0 Hz1].
      exists (calculateZoom altitude). unfold emitPose, standardCamera.
      destruct (GPX.map gpx) as [engine|] eqn:Hmap.
      - specialize (Hno engine eq_refl).
        destruct (engine_freeCamera engine); [congruence| |];
          repeat split; assumption.
      - repeat split; assumption. }
    destruct (mode s).
    + rewrite bind_lift. apply Hpose.
    + apply Hpose.
  - intro Hmode. rewrite Hmode. unfold emitPose.
    destruct (GPX.map gpx) as [engine|]; [|reflexivity].
    destruct (engine_freeCamera engine); reflexivity.
Qed.

Lemma getCameraPosition_fallback_witness :
  exists zoom,
    outcomeOf
      (getCameraPosition (M := Rational.math) seaLevelMap
         {| position := mkPoint 0 0.01 0; rawPosition := mkPoint 0 0.01 0;
            bearing := 90; rawBearing := 90; index := 1%Z |} overhead)
    = Returned (StandardCamera 0.01 0 zoom (cameraPitch overhead) 90) /\
    10 <= zoom /\ zoom <= 18.
Proof.
  destruct (getCameraPosition_fallback (M := Rational.math) seaLevelMap
              {| position := mkPoint 0 0.01 0; rawPosition := mkPoint 0 0.01 0;
                 bearing := 90; rawBearing := 90; index := 1%Z |} overhead)
    as [H _].
  destruct H as [zoom [Hout [Hz0 [Hz1 _]]]].
  - intros engine Hmap. discriminate Hmap.
  - exists zoom. split; [exact Hout|]. split; assumption.
Defined.

(** ** Frames *)

Lemma run_returned {A} (m : Act A) (s : FlyoverAnimation) (a : A) :
  outcomeOf (m s) = Returned a ->
  m s = (Returned a, stateAfter (m s), effectsOf (m s)).
Proof.
  destruct (m s) as [[o s1] out1]. unfold outcomeOf. cbn [fst].
  intros ->. reflexivity.
Qed.

Lemma bind_assoc {A B C} (m : Act A) (k : A -> Act B) (h : B -> Act C)
    (s : FlyoverAnimation) :
  bind (bind m k) h s = bind m (fun a => bind (k a) h) s.
Proof.
  unfold bind. destruct (m s) as [[[a|] s1] out1]; [|reflexivity].
  destruct (k a s1) as [[[b|] s2] out2]; [|reflexivity].
  destruct (h b s2) as [[r s3] out3]. rewrite app_assoc. reflexivity.
Qed.

Lemma bind_unit (m : Act unit) (s : FlyoverAnimation) :
  bind m (fun _ => ret tt) s = m s.
Proof.
  unfold bind, ret. destruct (m s) as [[[[]|] s1] out1]; [|reflexivity].
  rewrite app_nil_r. reflexivity.
Qed.

Lemma bind_ext {A B} (m : Act A) (k k' : A -> Act B) (s : FlyoverAnimation) :
  (forall a s1, k a s1 = k' a s1) -> bind m k s = bind m k' s.
Proof.
  intro H. unfold bind. destruct (m s) as [[[a|] s1] out1]; [|reflexivity].
  rewrite H. reflexivity.
Qed.

Section RenderingFrames.

Context {M : JSMath}.

Variable gpx : GPXMap.

Lemma emitPose_returns (free fallback : CameraPose) (s : FlyoverAnimation) :
  exists pose, outcomeOf (emitPose gpx free fallback s) = Returned pose.
Proof.
  unfold emitPose. destruct (GPX.map gpx) as [engine|]; [|eexists; reflexivity].
  destruct (engine_freeCamera engine); eexists; reflexivity.
Qed.

(** Composing the camera never throws. *)
Lemma getCameraPosition_returns (tp : TrackPosition) (s : FlyoverAnimation) :
  exists pose, outcomeOf (getCameraPosition gpx tp s) = Returned pose.
Proof.
  unfold getCameraPosition. rewrite bind_get.
  unfold metersToLatLon. cbv beta iota zeta.
  destruct (mode s).
  - rewrite bind_lift. apply emitPose_returns.
  - apply emitPose_returns.
Qed.

(** A frame of [animate] renders as [stepToProgress] does, without the
    repaint. *)
Lemma renderAt_frame (p : Q) (s : FlyoverAnimation) :
  renderAt gpx p false s = renderFrame gpx p s.
Proof.
  unfold renderAt, renderFrame. apply bind_ext. intros [tp|] s1;
    [|reflexivity].
  apply bind_ext. intros pose s2. apply bind_ext. intros _ s3.
  apply bind_unit.
Qed.

(** Moving the camera and the marker returns. *)
Lemma applyAndMark_run (pose : CameraPose) (position : TrackPoint)
    (s : FlyoverAnimation) :
  (applyCameraPosition gpx pose ;;; updateProgressMarker gpx position)%act s
  = (Returned tt, s,
     match GPX.map gpx with
     | Some _ => [ApplyCameraPosition pose; UpdateProgressMarker position]
     | None => []
     end).
Proof.
  unfold applyCameraPosition, updateProgressMarker.
  destruct (GPX.map gpx); reflexivity.
Qed.

(** Distance data that is current stays so under a change of the state
    that leaves the distance data alone. *)
Lemma distanceDataCurrent_commute
    (g : FlyoverAnimation -> FlyoverAnimation) (s : FlyoverAnimation) :
  (forall a b c s, g (set_distanceData a b c s) = set_distanceData a b c (g s)) ->
  (forall s, cumulativeDistances (g s) = cumulativeDistances s) ->
  (forall s, totalDistance (g s) = totalDistance s) ->
  (forall s, distanceDataInitialized (g s) = distanceDataInitialized s) ->
  distanceDataCurrent gpx s -> distanceDataCurrent gpx (g s).
Proof.
  intros Hg Hc Ht Hi [Hcur | [Hcur1 Hcur2]].
  - left. rewrite Hi. exact Hcur.
  - right.
    rewrite (initializeDistanceData_commute gpx g s Hg (Hc s) (Ht s)).
    change (stateAfter (Returned tt,
                        g (stateAfter (initializeDistanceData gpx s)),
                        effectsOf (initializeDistanceData gpx s)))
      with (g (stateAfter (initializeDistanceData gpx s))).
    rewrite !Hc, !Ht. split; assumption.
Qed.

Lemma renderAt_short (p : Q) (repaint : bool) (s : FlyoverAnimation) :
  (length_ (GPX.getTrackPoints gpx) < 2)%Z ->
  renderAt gpx p repaint s = (Returned tt, s, []).
Proof.
  intro Hn. unfold renderAt, getPointAtProgress.
  apply Z.ltb_lt in Hn. rewrite Hn. rewrite bind_ret. reflexivity.
Qed.

(** Rendering on a track of two points or more whose distance data is
    current: the track is sampled, the camera composed and applied, the
    marker moved; the repaint throws when the map has no engine. *)
Lemma renderAt_run (p : Q) (repaint : bool) (s : FlyoverAnimation) :
  (2 <= length_ (GPX.getTrackPoints gpx))%Z ->
  distanceDataCurrent gpx s ->
  exists tp pose,
    outcomeOf (getPointAtProgress gpx p s) = Returned (Some tp) /\
    let s1 := stateAfter (getPointAtProgress gpx p s) in
    outcomeOf (getCameraPosition gpx tp s1) = Returned pose /\
    renderAt gpx p repaint s
    = (match repaint, GPX.map gpx with
       | true, None => Threw
       | _, _ => Returned tt
       end,
       stateAfter (getCameraPosition gpx tp s1),
       effectsOf (getPointAtProgress gpx p s)
       ++ effectsOf (getCameraPosition gpx tp s1)
       ++ match GPX.map gpx with
          | Some _ =>
              [ApplyCameraPosition pose;
               UpdateProgressMarker (rawPosition tp)]
              ++ (if repaint then [TriggerRepaint] else [])
          | None => if repaint then [UncaughtTypeError] else []
          end).
Proof.
  intros Hn Hcur.
  destruct (getPointAtProgress_returns gpx p s Hn Hcur)
    as [D [tp [point1 [point2 [s' [_ [Hrun _]]]]]]].
  destruct (getCameraPosition_returns tp s') as [pose Hpose].
  exists tp, pose. unfold renderAt. rewrite Hrun.
  unfold outcomeOf at 1. unfold stateAfter at 1 3 4. cbn [fst snd].
  split; [reflexivity|]. split; [exact Hpose|].
  rewrite (bind_returned _ _ s (Some tp) s' _ Hrun).
  rewrite (bind_returned _ _ s' pose _ _ (run_returned _ s' pose Hpose)).
  unfold applyCameraPosition, updateProgressMarker, triggerRepaint.
  unfold effectsOf at 3.  cbn [fst snd].
  destruct (GPX.map gpx); destruct repaint; reflexivity.
Qed.

End RenderingFrames.

Section CurrentData.

Context {M : JSMath}.

Variable gpx : GPXMap.

(** Building the distance data twice gives what building it once gives. *)
Lemma initializeDistanceData_current (s : FlyoverAnimation) :
  distanceDataCurrent gpx (stateAfter (initializeDistanceData gpx s)).
Proof.
  right. unfold initializeDistanceData.
  destruct (GPX.getTrackPoints gpx) as [|p0 [|p1 rest]];
    [split; reflexivity | split; reflexivity |].
  destruct (accumulateDistances p0 (p1 :: rest) 0 [0]) as [total ds].
  split; reflexivity.
Qed.

Lemma ensureDistanceData_current (s : FlyoverAnimation) :
  distanceDataCurrent gpx s ->
  distanceDataCurrent gpx (stateAfter (ensureDistanceData gpx s)).
Proof.
  intro Hcur. rewrite ensureDistanceData_state.
  destruct (distanceDataInitialized s); [exact Hcur|].
  apply initializeDistanceData_current.
Qed.

(** On a track of fewer than two points building the distance data logs
    nothing. *)
Lemma ensureDistanceData_short (s : FlyoverAnimation) :
  (length_ (GPX.getTrackPoints gpx) < 2)%Z ->
  effectsOf (ensureDistanceData gpx s) = [].
Proof.
  intro Hn. unfold ensureDistanceData. rewrite bind_get.
  destruct (distanceDataInitialized s); [reflexivity|].
  unfold initializeDistanceData.
  destruct (GPX.getTrackPoints gpx) as [|p0 [|p1 rest]];
    [reflexivity | reflexivity |].
  unfold length_ in Hn. simpl List.length in Hn. lia.
Qed.

Lemma resetSmoothing_current (s : FlyoverAnimation) :
  distanceDataCurrent gpx s -> distanceDataCurrent gpx (resetSmoothing s).
Proof.
  apply distanceDataCurrent_commute; reflexivity.
Qed.

Lemma set_progress_current (p : Q) (s : FlyoverAnimation) :
  distanceDataCurrent gpx s -> distanceDataCurrent gpx (set_progress p s).
Proof.
  apply (distanceDataCurrent_commute gpx (set_progress p)); reflexivity.
Qed.

End CurrentData.

Lemma outcomeOf_run {A} (o : Outcome A) (s : FlyoverAnimation)
    (out : list Effect) : outcomeOf (o, s, out) = o.
Proof. reflexivity. Qed.

Lemma stateAfter_run {A} (o : Outcome A) (s : FlyoverAnimation)
    (out : list Effect) : stateAfter (o, s, out) = s.
Proof. reflexivity. Qed.

Lemma effectsOf_run {A} (o : Outcome A) (s : FlyoverAnimation)
    (out : list Effect) : effectsOf (o, s, out) = out.
Proof. reflexivity. Qed.

Ltac run_simpl :=
  rewrite ?outcomeOf_run, ?stateAfter_run, ?effectsOf_run.

(** X17.  Stepping needs an engine.  On a track of two points or more
    whose distance data is that of the track, or still to be built,
    [stepToProgress] throws a TypeError exactly when the map has no engine:
    the repaint it ends with is not guarded.  The throw comes last: the
    progress is stored and the track sampled by then.  With an engine it
    returns, and the last things it does are to apply the camera, move the
    marker and ask for a repaint.  On a track of fewer than two points it
    returns whatever the map, stores the progress and renders nothing. *)
Theorem stepToProgress_needs_engine {M : JSMath} (gpx : GPXMap) (p : Q)
    (s : FlyoverAnimation) :
  distanceDataCurrent gpx s ->
  let n := length_ (GPX.getTrackPoints gpx) in
  let r := stepToProgress gpx p s in
  ((2 <= n)%Z ->
   (GPX.map gpx = None ->
    outcomeOf r = Threw /\
    progress (stateAfter r) = p /\
    lastSmoothedPosition (stateAfter r) <> None /\
    exists out, effectsOf r = out ++ [UncaughtTypeError]) /\
   (forall engine, GPX.map gpx = Some engine ->
    outcomeOf r = Returned tt /\
    exists out pose position,
      effectsOf r
      = out ++ [ApplyCameraPosition pose; UpdateProgressMarker position;
                TriggerRepaint])) /\
  ((n < 2)%Z ->
   outcomeOf r = Returned tt /\
   progress (stateAfter r) = p /\
   forall e, In e (effectsOf r) -> e = InitProgressMarker).
Proof.
  intros Hcur n r. subst n r. rewrite stepToProgress_steps. cbv zeta.
  set (s1 := stateAfter (ensureDistanceData gpx s)).
  set (s2 := if stepsBack p s then resetSmoothing s1 else s1).
  assert (Hcur2 : distanceDataCurrent gpx (set_progress p s2)).
  { apply set_progress_current. subst s2.
    pose proof (ensureDistanceData_current gpx s Hcur) as H1. fold s1 in H1.
    destruct (stepsBack p s); [apply resetSmoothing_current|]; exact H1. }
  split.
  - intro Hn.
    destruct (renderAt_run gpx p true (set_progress p s2) Hn Hcur2)
      as [tp [pose [Hout [Hpose Hrun]]]].
    destruct (getPointAtProgress_returns gpx p (set_progress p s2) Hn Hcur2)
      as [D [tp' [point1 [point2 [s' [_ [Hrun' [_ [_ [_ [_ [_ [_ [_ [_
            [_ Hs']]]]]]]]]]]]]]]].
    pose proof (getCameraPosition_keeps gpx progress) as Hkp.
    pose proof (getCameraPosition_keeps gpx lastSmoothedPosition) as Hkl.
    pose proof (getPointAtProgress_keeps gpx progress p) as Hkg.
    unfold keeps in Hkp, Hkl, Hkg.
    split.
    + intro Hmap. rewrite Hrun. rewrite Hmap. run_simpl.
      split; [reflexivity|]. split; [|split].
      * rewrite Hkp; [|reflexivity]. rewrite Hkg; reflexivity.
      * rewrite Hkl; [|reflexivity]. rewrite Hrun'.
        run_simpl. rewrite Hs'.
        rewrite smoothing_stores. discriminate.
      * eexists. rewrite !app_assoc. reflexivity.
    + intros engine Hmap. rewrite Hrun. rewrite Hmap. run_simpl.
      split; [reflexivity|].
      eexists. exists pose, (rawPosition tp).
      cbn [app]. rewrite !app_assoc. reflexivity.
  - intro Hn. rewrite (renderAt_short gpx p true _ Hn). run_simpl.
    split; [reflexivity|]. split; [reflexivity|].
    intros e He.
    rewrite (ensureDistanceData_short gpx s Hn) in He.
    rewrite app_nil_r in He. cbn [app] in He.
    destruct (stepsBack p s); [|destruct He].
    unfold initProgressMarker in He.
    destruct (GPX.map gpx); cbn in He; [|destruct He].
    destruct He as [He | []]. symmetry. exact He.
Qed.

Lemma stepToProgress_needs_engine_witness :
  outcomeOf (stepToProgress (M := Rational.math) seaLevelMap (1 # 2)
               constructor) = Threw /\
  outcomeOf (stepToProgress (M := Rational.math) flatMap (1 # 2)
               constructor) = Returned tt.
Proof.
  split.
  - destruct (stepToProgress_needs_engine (M := Rational.math) seaLevelMap
                (1 # 2) constructor) as [H _]; [left; reflexivity|].
    destruct H as [H _]; [vm_compute; discriminate|].
    destruct H as [H _]; [reflexivity|exact H].
  - destruct (stepToProgress_needs_engine (M := Rational.math) flatMap
                (1 # 2) constructor) as [H _]; [left; reflexivity|].
    destruct H as [_ H]; [vm_compute; discriminate|].
    destruct (H (mkEngine (fun _ _ => TerrainNull) FreeCameraWorks) eq_refl)
      as [Hout _].
    exact Hout.
Defined.

Section AnimationFrames.

Context {M : JSMath}.

Variable gpx : GPXMap.

(** Whether the distance data is current depends on the distance data
    only. *)
Lemma distanceDataCurrent_ext (s s' : FlyoverAnimation) :
  distanceDataInitialized s' = distanceDataInitialized s ->
  cumulativeDistances s' = cumulativeDistances s ->
  totalDistance s' = totalDistance s ->
  distanceDataCurrent gpx s -> distanceDataCurrent gpx s'.
Proof.
  intros Hi Hc Ht [Hcur | [Hcur1 Hcur2]].
  - left. rewrite Hi. exact Hcur.
  - right.
    assert (H : cumulativeDistances
                  (stateAfter (initializeDistanceData gpx s'))
                = cumulativeDistances
                    (stateAfter (initializeDistanceData gpx s)) /\
                totalDistance (stateAfter (initializeDistanceData gpx s'))
                = totalDistance (stateAfter (initializeDistanceData gpx s))).
    { unfold initializeDistanceData.
      destruct (GPX.getTrackPoints gpx) as [|p0 [|p1 rest]].
      - split; cbn; [exact Hc | exact Ht].
      - split; cbn; [exact Hc | exact Ht].
      - destruct (accumulateDistances p0 (p1 :: rest) 0 [0]) as [total ds].
        split; reflexivity. }
    destruct H as [H1 H2]. rewrite H1, H2, Hc, Ht. split; assumption.
Qed.

(** Rendering a frame returns when the distance data is current. *)
Lemma renderFrame_returns (p : Q) (s : FlyoverAnimation) :
  distanceDataCurrent gpx s ->
  outcomeOf (renderFrame gpx p s) = Returned tt.
Proof.
  intro Hcur. rewrite <- renderAt_frame.
  destruct (Z_lt_le_dec (length_ (GPX.getTrackPoints gpx)) 2) as [Hn | Hn].
  - rewrite (renderAt_short gpx p false s Hn). reflexivity.
  - destruct (renderAt_run gpx p false s Hn Hcur)
      as [tp [pose [_ [_ Hrun]]]].
    rewrite Hrun. reflexivity.
Qed.

Lemma renderFrame_keeps {X} (f : FlyoverAnimation -> X) (p : Q) :
  (forall a b c s, f (set_distanceData a b c s) = f s) ->
  (forall v s, f (set_lastSmoothedPosition v s) = f s) ->
  (forall v h s, f (set_bearing v h s) = f s) ->
  (forall v s, f (set_lastCameraAltitude v s) = f s) ->
  keeps f (renderFrame gpx p).
Proof.
  intros Hd Hp Hb Ha s. rewrite <- renderAt_frame.
  apply (rendering_keeps gpx f p false); assumption.
Qed.

Lemma renderAt_current (p : Q) (repaint : bool) (s : FlyoverAnimation) :
  distanceDataCurrent gpx s ->
  distanceDataCurrent gpx (stateAfter (renderAt gpx p repaint s)).
Proof.
  intro Hcur.
  destruct (Z_lt_le_dec (length_ (GPX.getTrackPoints gpx)) 2) as [Hn | Hn].
  - rewrite (renderAt_short gpx p repaint s Hn). exact Hcur.
  - destruct (renderAt_run gpx p repaint s Hn Hcur)
      as [tp [pose [_ [_ Hrun]]]].
    rewrite Hrun. run_simpl.
    destruct (getPointAtProgress_returns gpx p s Hn Hcur)
      as [D [tp' [point1 [point2 [s' [_ [Hrun' [_ [_ [_ [_ [_ [_ [_ [_
            [_ Hs']]]]]]]]]]]]]]]].
    rewrite Hrun'. run_simpl.
    assert (Hs1 : distanceDataCurrent gpx s').
    { rewrite Hs'.
      pose proof (ensureDistanceData_current gpx s Hcur) as H1.
      unfold smoothBearing, smoothPosition.
      destruct (lastSmoothedPosition _); cbn [snd];
        destruct (lastBearing _); cbn [snd];
        repeat first
          [ exact H1
          | apply (distanceDataCurrent_commute gpx (set_bearing _ _));
            [reflexivity | reflexivity | reflexivity | reflexivity |]
          | apply (distanceDataCurrent_commute gpx
                     (set_lastSmoothedPosition _));
            [reflexivity | reflexivity | reflexivity | reflexivity |] ]. }
    pose proof (getCameraPosition_keeps gpx distanceDataInitialized tp)
      as Hki.
    pose proof (getCameraPosition_keeps gpx cumulativeDistances tp) as Hkc.
    pose proof (getCameraPosition_keeps gpx totalDistance tp) as Hkt.
    unfold keeps in Hki, Hkc, Hkt.
    apply (distanceDataCurrent_ext s');
      [apply Hki | apply Hkc | apply Hkt | exact Hs1]; reflexivity.
Qed.

Lemma renderFrame_current (p : Q) (s : FlyoverAnimation) :
  distanceDataCurrent gpx s ->
  distanceDataCurrent gpx (stateAfter (renderFrame gpx p s)).
Proof.
  intro Hcur. rewrite <- renderAt_frame. apply renderAt_current. exact Hcur.
Qed.

(** A frame of a run that is playing and not paused: the time and the
    progress are stored, the frame rendered, the callbacks fired, and the
    run completed or the next frame asked for. *)
Lemma animate_frame (timestamp : option Q) (now : Q) (handle : Z)
    (s : FlyoverAnimation) :
  isPlaying s = true -> isPaused s = false ->
  let t := frameTime timestamp now in
  let p' := advancedProgress s t in
  let r := renderFrame gpx p' (set_progress p' (set_lastTimestamp t s)) in
  outcomeOf r = Returned tt ->
  animate gpx timestamp now handle s
  = (Returned tt,
     (if JS.geb p' 1 then set_isPlaying false (stateAfter r)
      else set_animationFrame (Some handle) (stateAfter r)),
     effectsOf r ++ [OnProgress p'; OnFrame p']
     ++ (if JS.geb p' 1 then [OnComplete]
         else [RequestAnimationFrame handle])).
Proof.
  intros Hplay Hpause t p' r Hr.
  assert (H : animate gpx timestamp now handle s
              = bind (renderFrame gpx p')
                  (fun _ =>
                     emit (OnProgress p') ;;;
                     emit (OnFrame p') ;;;
                     if JS.geb p' 1 then
                       modify (set_isPlaying false) ;;; emit OnComplete
                     else
                       emit (RequestAnimationFrame handle) ;;;
                       modify (set_animationFrame (Some handle)))%act
                  (set_progress p' (set_lastTimestamp t s))).
  { unfold animate. rewrite bind_get. rewrite Hplay, Hpause.
    cbn [negb orb]. cbv zeta. rewrite bind_modify, bind_modify.
    unfold renderFrame. rewrite bind_assoc. reflexivity. }
  rewrite H.
  rewrite (bind_returned _ _ _ tt _ _ (run_returned _ _ tt Hr)).
  fold r. destruct (JS.geb p' 1); reflexivity.
Qed.

End AnimationFrames.

(** ** Playback *)

Lemma advancedProgress_range (s : FlyoverAnimation) (t : Q) :
  advancedProgress s t <= 1 /\
  (lastTimestamp s <= t -> 0 <= speed s -> progress s <= 1 ->
   progress s <= advancedProgress s t).
Proof.
  unfold advancedProgress. cbv zeta. split; [apply Q.le_min_l|].
  intros Ht Hs Hp. apply Q.min_glb; [exact Hp|].
  assert (Hd : 0 <= 160 * speed s * ((t - lastTimestamp s) / 1000)).
  { apply Qmult_le_0_compat; [lra|].
    apply Qle_shift_div_l; lra. }
  destruct (JS.gtb (totalDistance s) 0) eqn:Hgt; [|lra].
  apply gtb_lt in Hgt.
  assert (0 <= 160 * speed s * ((t - lastTimestamp s) / 1000)
               / totalDistance s).
  { apply Qle_shift_div_l; lra. }
  lra.
Qed.

Lemma advancedProgress_still (s : FlyoverAnimation) (t : Q) :
  t == lastTimestamp s -> progress s <= 1 ->
  advancedProgress s t == progress s.
Proof.
  intros Ht Hp. unfold advancedProgress. cbv zeta.
  assert (Hinc : (if JS.gtb (totalDistance s) 0
                  then 160 * speed s * ((t - lastTimestamp s) / 1000)
                       / totalDistance s
                  else 0) == 0).
  { destruct (JS.gtb (totalDistance s) 0); [|reflexivity].
    assert (Hz : t - lastTimestamp s == 0) by lra.
    rewrite Hz. unfold Qdiv. ring. }
  rewrite Hinc. rewrite Q.min_r; lra.
Qed.

Section PlayingFrames.

Context {M : JSMath}.

Variable gpx : GPXMap.

Lemma ensureDistanceData_initialized (s : FlyoverAnimation) :
  (2 <= length_ (GPX.getTrackPoints gpx))%Z ->
  distanceDataInitialized (stateAfter (ensureDistanceData gpx s)) = true.
Proof.
  intro Hn. rewrite ensureDistanceData_state.
  destruct (distanceDataInitialized s) eqn:Hi; [exact Hi|].
  destruct (initializeDistanceData_builds gpx s Hn)
    as [p0 [rest [D [_ [_ [Hs' _]]]]]].
  rewrite Hs'. reflexivity.
Qed.

(** After a frame on a track of two points or more the distance data is
    marked as built. *)
Lemma renderFrame_initialized (p : Q) (s : FlyoverAnimation) :
  (2 <= length_ (GPX.getTrackPoints gpx))%Z ->
  distanceDataCurrent gpx s ->
  distanceDataInitialized (stateAfter (renderFrame gpx p s)) = true /\
  lastSmoothedPosition (stateAfter (renderFrame gpx p s)) <> None.
Proof.
  intros Hn Hcur. rewrite <- renderAt_frame.
  destruct (renderAt_run gpx p false s Hn Hcur) as [tp [pose [_ [_ Hrun]]]].
  rewrite Hrun. run_simpl.
  destruct (getPointAtProgress_returns gpx p s Hn Hcur)
    as [D [tp' [point1 [point2 [s' [_ [Hrun' [_ [_ [_ [_ [_ [_ [_ [_
          [_ Hs']]]]]]]]]]]]]]]].
  rewrite Hrun'. run_simpl.
  pose proof (getCameraPosition_keeps gpx distanceDataInitialized tp) as Hki.
  pose proof (getCameraPosition_keeps gpx lastSmoothedPosition tp) as Hkl.
  unfold keeps in Hki, Hkl.
  rewrite Hki, Hkl; [|reflexivity|reflexivity]. rewrite Hs'. split.
  - pose proof (ensureDistanceData_initialized s Hn) as Hinit.
    unfold smoothBearing, smoothPosition.
    destruct (lastSmoothedPosition _); cbn [snd];
      destruct (lastBearing _); exact Hinit.
  - rewrite smoothing_stores. discriminate.
Qed.

(** Distance data that is current and marked as built has the length of
    the track as its total. *)
Lemma distanceDataCurrent_total (s : FlyoverAnimation) :
  (2 <= length_ (GPX.getTrackPoints gpx))%Z ->
  distanceDataCurrent gpx s -> distanceDataInitialized s = true ->
  totalDistance s == pathLength (GPX.getTrackPoints gpx).
Proof.
  intros Hn [Hcur | [_ Hcur]] Hinit; [congruence|].
  destruct (initializeDistanceData_builds gpx s Hn)
    as [p0 [rest [D [_ [_ [_ [_ [_ [_ Htot]]]]]]]]].
  rewrite Hcur. exact Htot.
Qed.

(** The state and the effects of a frame of a run that is playing, not
    paused, on distance data that is current. *)
Lemma animate_playing (timestamp : option Q) (now : Q) (handle : Z)
    (s : FlyoverAnimation) :
  isPlaying s = true -> isPaused s = false ->
  distanceDataCurrent gpx s ->
  let t := frameTime timestamp now in
  let p' := advancedProgress s t in
  exists s1 out,
    animate gpx timestamp now handle s
    = (Returned tt,
       (if JS.geb p' 1 then set_isPlaying false s1
        else set_animationFrame (Some handle) s1),
       out ++ [OnProgress p'; OnFrame p']
       ++ (if JS.geb p' 1 then [OnComplete]
           else [RequestAnimationFrame handle])) /\
    lastTimestamp s1 = t /\ progress s1 = p' /\
    isPlaying s1 = true /\ isPaused s1 = false /\
    animationFrame s1 = animationFrame s /\
    speed s1 = speed s /\
    distanceDataCurrent gpx s1 /\
    ((2 <= length_ (GPX.getTrackPoints gpx))%Z ->
     distanceDataInitialized s1 = true /\ lastSmoothedPosition s1 <> None).
Proof.
  intros Hplay Hpause Hcur t p'.
  set (s0 := set_progress p' (set_lastTimestamp t s)).
  assert (Hcur0 : distanceDataCurrent gpx s0).
  { apply (distanceDataCurrent_ext gpx s); [reflexivity..|exact Hcur]. }
  pose proof (renderFrame_returns gpx p' s0 Hcur0) as Hr.
  exists (stateAfter (renderFrame gpx p' s0)),
    (effectsOf (renderFrame gpx p' s0)).
  split; [apply (animate_frame gpx timestamp now handle s Hplay Hpause Hr)|].
  pose proof (renderFrame_keeps gpx lastTimestamp p') as Hkt.
  pose proof (renderFrame_keeps gpx progress p') as Hkp.
  pose proof (renderFrame_keeps gpx isPlaying p') as Hki.
  pose proof (renderFrame_keeps gpx isPaused p') as Hku.
  pose proof (renderFrame_keeps gpx animationFrame p') as Hka.
  pose proof (renderFrame_keeps gpx speed p') as Hks.
  unfold keeps in Hkt, Hkp, Hki, Hku, Hka, Hks.
  rewrite Hkt, Hkp, Hki, Hku, Hka, Hks; try reflexivity.
  split; [reflexivity|]. split; [reflexivity|]. split; [exact Hplay|].
  split; [exact Hpause|]. split; [reflexivity|]. split; [reflexivity|].
  split; [apply renderFrame_current; exact Hcur0|].
  intro Hn. apply renderFrame_initialized; assumption.
Qed.

End PlayingFrames.

(** X18.  A frame advances the run.  For a run that is playing, not
    paused, with distance data that is that of the track or still to be
    built, [animate] never throws; it stores the time of the frame and
    moves the progress by the distance flown since the last frame (160 m/s
    times the speed) over the length of the track, capped at 1.  The
    progress never exceeds 1 and, when the clock has not gone back and the
    speed is not negative, never decreases.  Below 1 the run goes on: the
    frame ends by asking for the next frame, whose handle it stores.  At 1
    the run ends: [isPlaying] is cleared, the frame handle is left as it
    was and the frame ends with [onComplete].  Either way [onProgress] and
    [onFrame] fire with the new progress just before. *)
Theorem animate_advances {M : JSMath} (gpx : GPXMap) (timestamp : option Q)
    (now : Q) (handle : Z) (s : FlyoverAnimation) :
  isPlaying s = true -> isPaused s = false ->
  distanceDataCurrent gpx s ->
  let t := frameTime timestamp now in
  let r := animate gpx timestamp now handle s in
  let s' := stateAfter r in
  outcomeOf r = Returned tt /\
  lastTimestamp s' = t /\
  progress s' = advancedProgress s t /\
  progress s' <= 1 /\
  (lastTimestamp s <= t -> 0 <= speed s -> progress s <= 1 ->
   progress s <= progress s') /\
  (progress s' < 1 ->
   isPlaying s' = true /\ animationFrame s' = Some handle /\
   exists out,
     effectsOf r
     = out ++ [OnProgress (progress s'); OnFrame (progress s');
               RequestAnimationFrame handle]) /\
  (1 <= progress s' ->
   isPlaying s' = false /\ animationFrame s' = animationFrame s /\
   exists out,
     effectsOf r
     = out ++ [OnProgress (progress s'); OnFrame (progress s');
               OnComplete]).
Proof.
  intros Hplay Hpause Hcur t r s'. subst r s'.
  destruct (animate_playing gpx timestamp now handle s Hplay Hpause Hcur)
    as [s1 [out [Hrun [Hkt [Hkp [Hki [_ [Hka _]]]]]]]].
  fold t in Hrun, Hkt, Hkp. set (p' := advancedProgress s t) in *.
  rewrite Hrun. run_simpl.
  destruct (advancedProgress_range s t) as [Hle Hmono]. fold p' in Hle, Hmono.
  assert (Hprog : progress (if JS.geb p' 1 then set_isPlaying false s1
                            else set_animationFrame (Some handle) s1) = p').
  { destruct (JS.geb p' 1); exact Hkp. }
  split; [reflexivity|]. split; [destruct (JS.geb p' 1); exact Hkt|].
  split; [exact Hprog|]. rewrite Hprog.
  split; [exact Hle|]. split; [exact Hmono|]. split.
  - intro Hlt. apply geb_lt in Hlt. rewrite Hlt.
    split; [exact Hki|]. split; [reflexivity|].
    exists out. reflexivity.
  - intro Hge. apply geb_le in Hge. rewrite Hge.
    split; [reflexivity|]. split; [exact Hka|].
    exists out. reflexivity.
Qed.

Lemma animate_advances_witness :
  progress
    (stateAfter
       (animate (M := Rational.math) seaLevelMap (Some 1000) 0 7
          (set_isPlaying true overhead)))
  <= 1.
Proof.
  destruct (animate_advances (M := Rational.math) seaLevelMap (Some 1000) 0 7
              (set_isPlaying true overhead))
    as [_ [_ [_ [H _]]]].
  - reflexivity.
  - reflexivity.
  - left. reflexivity.
  - exact H.
Defined.

(** A frame that arrives while the run is paused or not playing does
    nothing. *)
Lemma animate_idle {M : JSMath} (gpx : GPXMap) (timestamp : option Q)
    (now : Q) (handle : Z) (s : FlyoverAnimation) :
  isPlaying s = false \/ isPaused s = true ->
  animate gpx timestamp now handle s = (Returned tt, s, []).
Proof.
  intro H. unfold animate. rewrite bind_get.
  destruct H as [H | H]; rewrite H; [reflexivity|].
  rewrite orb_true_r. reflexivity.
Qed.

(** X19.  Pausing holds the run, and the pause is not flown.  A frame that
    arrives while the run is paused or not playing changes nothing, logs
    nothing and requests no further frame; so does [resume] when the run is
    not playing.  When the run is playing, [resume] restarts the clock
    before it renders: it never throws (on distance data that is current),
    clears the pause, and the progress moves by the time between the two
    clock readings of [resume] only, whatever time was stored before; when
    the two readings agree the progress does not move. *)
Theorem paused_run_waits {M : JSMath} (gpx : GPXMap) (timestamp : option Q)
    (now : Q) (handle : Z) (startClock frameClock : Q)
    (s : FlyoverAnimation) :
  (isPlaying s = false \/ isPaused s = true ->
   animate gpx timestamp now handle s = (Returned tt, s, [])) /\
  animate gpx timestamp now handle (stateAfter (pause s))
  = (Returned tt, stateAfter (pause s), []) /\
  (isPlaying s = false ->
   resume gpx startClock frameClock handle s = (Returned tt, s, [])) /\
  (isPlaying s = true -> distanceDataCurrent gpx s ->
   let r := resume gpx startClock frameClock handle s in
   outcomeOf r = Returned tt /\
   isPaused (stateAfter r) = false /\
   lastTimestamp (stateAfter r) = frameClock /\
   progress (stateAfter r)
   = advancedProgress (set_lastTimestamp startClock s) frameClock /\
   (frameClock == startClock -> progress s <= 1 ->
    progress (stateAfter r) == progress s)).
Proof.
  split; [apply animate_idle|].
  split; [apply animate_idle; right; reflexivity|]. split.
  - intro Hstop. unfold resume. rewrite bind_get. rewrite Hstop. reflexivity.
  - intros Hplay Hcur r. subst r.
    set (s0 := set_lastTimestamp startClock (set_isPaused false s)).
    assert (Hres : resume gpx startClock frameClock handle s
                   = animate gpx None frameClock handle s0).
    { unfold resume. rewrite bind_get. rewrite Hplay. cbn [negb].
      rewrite bind_modify, bind_modify. reflexivity. }
    rewrite Hres.
    assert (Hcur0 : distanceDataCurrent gpx s0).
    { apply (distanceDataCurrent_ext gpx s); [reflexivity..|exact Hcur]. }
    destruct (animate_playing gpx None frameClock handle s0 Hplay eq_refl
                Hcur0)
      as [s1 [out [Hrun [Hkt [Hkp [_ [Hku _]]]]]]].
    change (frameTime None frameClock) with frameClock in Hrun, Hkt, Hkp.
    change (advancedProgress s0 frameClock)
      with (advancedProgress (set_lastTimestamp startClock s) frameClock)
      in Hrun, Hkp.
    set (p' := advancedProgress (set_lastTimestamp startClock s) frameClock)
      in *.
    rewrite Hrun. run_simpl.
    assert (Hprog : progress (if JS.geb p' 1 then set_isPlaying false s1
                              else set_animationFrame (Some handle) s1)
                    = p').
    { destruct (JS.geb p' 1); exact Hkp. }
    split; [reflexivity|].
    split; [destruct (JS.geb p' 1); exact Hku|].
    split; [destruct (JS.geb p' 1); exact Hkt|].
    split; [exact Hprog|].
    intros Hclock Hp. rewrite Hprog. subst p'.
    apply (advancedProgress_still (set_lastTimestamp startClock s));
      assumption.
Qed.

Lemma paused_run_waits_witness :
  animate (M := Rational.math) seaLevelMap (Some 1000) 0 7
    (stateAfter (pause midRun))
  = (Returned tt, stateAfter (pause midRun), []) /\
  outcomeOf (resume (M := Rational.math) onePointMap 5 5 7 midRun)
  = Returned tt.
Proof.
  destruct (paused_run_waits (M := Rational.math) seaLevelMap (Some 1000) 0 7
              5 5 midRun) as [_ [H _]].
  split; [exact H|].
  destruct (paused_run_waits (M := Rational.math) onePointMap None 0 7
              5 5 midRun) as [_ [_ [_ H']]].
  destruct H' as [Hout _]; [reflexivity | left; reflexivity | exact Hout].
Defined.

Section Stopping.

Context {M : JSMath}.

Variable gpx : GPXMap.

Lemma stop_run (s : FlyoverAnimation) :
  stop gpx s
  = (Returned tt,
     match animationFrame s with
     | Some h => if (h =? 0)%Z then stopped s
                 else set_animationFrame None (stopped s)
     | None => stopped s
     end,
     match GPX.map gpx with
     | Some _ => [SetProgressMarkerVisible false]
     | None => []
     end
     ++ match animationFrame s with
        | Some h => if (h =? 0)%Z then [] else [CancelAnimationFrame h]
        | None => []
        end).
Proof.
  unfold stop. repeat rewrite bind_modify. fold (resetSmoothing
    (set_progress 0 (set_isPaused false (set_isPlaying false s)))).
  fold (stopped s).
  assert (Htail : forall s0,
            s0 = stopped s ->
            bind get
              (fun s1 =>
                 match animationFrame s1 with
                 | Some h =>
                     if (h =? 0)%Z then ret tt
                     else (emit (CancelAnimationFrame h) ;;;
                           modify (set_animationFrame None))%act
                 | None => ret tt
                 end) s0
            = (Returned tt,
               match animationFrame s with
               | Some h => if (h =? 0)%Z then stopped s
                           else set_animationFrame None (stopped s)
               | None => stopped s
               end,
               match animationFrame s with
               | Some h => if (h =? 0)%Z then [] else [CancelAnimationFrame h]
               | None => []
               end)).
  { intros s0 ->. rewrite bind_get.
    change (animationFrame (stopped s)) with (animationFrame s).
    destruct (animationFrame s) as [h|]; [|reflexivity].
    destruct (h =? 0)%Z; reflexivity. }
  unfold setProgressMarkerVisible.
  destruct (GPX.map gpx).
  - rewrite bind_emit. rewrite (Htail _ eq_refl). reflexivity.
  - rewrite bind_ret. rewrite (Htail _ eq_refl). reflexivity.
Qed.

End Stopping.

(** X20.  Stopping.  [stop] never throws, whatever the state and the map.
    Afterwards the run is not playing and not paused, the progress is 0,
    the altitude, bearing and position smoothing are cleared and no frame
    handle other than 0 is kept; the pending frame is cancelled exactly
    when a handle other than 0 was stored.  The mode, the speed, the camera settings and
    the distance data are kept.  Stopping twice leaves the state of
    stopping once, and a frame that still arrives after [stop] changes
    nothing. *)
Theorem stop_resets {M : JSMath} (gpx : GPXMap) (s : FlyoverAnimation) :
  let r := stop gpx s in
  let s' := stateAfter r in
  outcomeOf r = Returned tt /\
  (isPlaying s' = false /\ isPaused s' = false /\ progress s' = 0 /\
   lastCameraAltitude s' = None /\ bearingCleared s' /\
   lastSmoothedPosition s' = None) /\
  (animationFrame s' = None \/ animationFrame s' = Some 0%Z) /\
  (forall h, In (CancelAnimationFrame h) (effectsOf r) <->
             animationFrame s = Some h /\ h <> 0%Z) /\
  (mode s' = mode s /\ speed s' = speed s /\
   cameraAltitude s' = cameraAltitude s /\ cameraPitch s' = cameraPitch s /\
   cumulativeDistances s' = cumulativeDistances s /\
   totalDistance s' = totalDistance s /\
   distanceDataInitialized s' = distanceDataInitialized s) /\
  stateAfter (stop gpx s') = s' /\
  (forall timestamp now handle,
     animate gpx timestamp now handle s' = (Returned tt, s', [])).
Proof.
  intros r s'. subst r s'. rewrite (stop_run gpx s). run_simpl.
  set (s' := match animationFrame s with
             | Some h => if (h =? 0)%Z then stopped s
                         else set_animationFrame None (stopped s)
             | None => stopped s
             end).
  assert (Hfields :
            (isPlaying s' = false /\ isPaused s' = false /\ progress s' = 0 /\
             lastCameraAltitude s' = None /\ bearingCleared s' /\
             lastSmoothedPosition s' = None) /\
            (mode s' = mode s /\ speed s' = speed s /\
             cameraAltitude s' = cameraAltitude s /\
             cameraPitch s' = cameraPitch s /\
             cumulativeDistances s' = cumulativeDistances s /\
             totalDistance s' = totalDistance s /\
             distanceDataInitialized s' = distanceDataInitialized s)).
  { unfold bearingCleared. subst s'.
    destruct (animationFrame s) as [h|]; [destruct (h =? 0)%Z|];
      repeat split; reflexivity. }
  destruct Hfields as [Hreset Hkept].
  assert (Hframe : animationFrame s' = None \/ animationFrame s' = Some 0%Z).
  { subst s'. destruct (animationFrame s) as [h|] eqn:Hf.
    - destruct (h =? 0)%Z eqn:Hh.
      + right. apply Z.eqb_eq in Hh. subst h. exact Hf.
      + left. reflexivity.
    - left. exact Hf. }
  split; [reflexivity|]. split; [exact Hreset|]. split; [exact Hframe|].
  split.
  { intro h. rewrite in_app_iff. split.
    - intros [Hin | Hin].
      + destruct (GPX.map gpx); [|destruct Hin].
        destruct Hin as [Hin | []]. discriminate Hin.
      + destruct (animationFrame s) as [h'|]; [|destruct Hin].
        destruct (h' =? 0)%Z eqn:Hh; [destruct Hin|].
        destruct Hin as [Hin | []]. injection Hin as <-.
        apply Z.eqb_neq in Hh. split; [reflexivity|exact Hh].
    - intros [Hf Hh]. right. rewrite Hf.
      apply Z.eqb_neq in Hh. rewrite Hh. left. reflexivity. }
  split; [exact Hkept|]. split.
  - rewrite (stop_run gpx s'). run_simpl.
    assert (Hsame : stopped s' = s').
    { subst s'. destruct s as [? ? [h|] ? ? ? ? ? ? ? ? ? ? ? ? ?];
        cbn [animationFrame]; [destruct (h =? 0)%Z|]; cbv; reflexivity. }
    rewrite Hsame.
    destruct Hframe as [Hf | Hf]; rewrite Hf; reflexivity.
  - intros timestamp now handle. apply animate_idle. left.
    destruct Hreset as [Hstopped _]. exact Hstopped.
Qed.

(** X21.  Starting.  From a run that is not playing, on a track of two
    points or more, [start] never throws, whatever distance data was
    stored: it builds the distance data anew (the total is the length of
    the track), clears the pause and renders a first frame, which stores
    a smoothed position and the time of the frame.  The progress after
    that frame is at most 1; it is 0 when the two clock readings agree and
    at least 0 when the clock has not gone back and the speed is not
    negative.  Below 1 the run is playing and the handle of the next frame
    is stored; at 1 (a track so short that the first frame completes it)
    the run is not playing when [start] returns. *)
Theorem start_plays {M : JSMath} (gpx : GPXMap) (startClock frameClock : Q)
    (handle : Z) (s : FlyoverAnimation) :
  isPlaying s = false ->
  (2 <= length_ (GPX.getTrackPoints gpx))%Z ->
  let r := start gpx startClock frameClock handle s in
  let s' := stateAfter r in
  outcomeOf r = Returned tt /\
  isPaused s' = false /\
  lastTimestamp s' = frameClock /\
  distanceDataInitialized s' = true /\
  totalDistance s' == pathLength (GPX.getTrackPoints gpx) /\
  lastSmoothedPosition s' <> None /\
  progress s' <= 1 /\
  (startClock <= frameClock -> 0 <= speed s -> 0 <= progress s') /\
  (frameClock == startClock -> progress s' == 0) /\
  (progress s' < 1 -> isPlaying s' = true /\ animationFrame s' = Some handle) /\
  (1 <= progress s' -> isPlaying s' = false).
Proof.
  intros Hstopped Hn r s'. subst r s'.
  rewrite (start_first_frame gpx startClock frameClock handle s Hstopped Hn).
  cbv zeta. run_simpl.
  set (s1 := set_lastTimestamp startClock
               (set_progress 0
                  (set_isPaused false
                     (set_isPlaying true
                        (resetSmoothing
                           (stateAfter (initializeDistanceData gpx s))))))).
  assert (Hcur1 : distanceDataCurrent gpx s1).
  { apply (distanceDataCurrent_ext gpx
             (stateAfter (initializeDistanceData gpx s)));
      [reflexivity.. | apply initializeDistanceData_current]. }
  destruct (animate_playing gpx None frameClock handle s1 eq_refl eq_refl
              Hcur1)
    as [s2 [out [Hrun [Hkt [Hkp [Hki [Hku [_ [_ [Hcur2 Hinit]]]]]]]]]].
  change (frameTime None frameClock) with frameClock in Hrun, Hkt, Hkp.
  set (p' := advancedProgress s1 frameClock) in *.
  destruct (Hinit Hn) as [Hinit2 Hpos2].
  pose proof (distanceDataCurrent_total gpx s2 Hn Hcur2 Hinit2) as Htot.
  destruct (advancedProgress_range s1 frameClock) as [Hle Hmono].
  fold p' in Hle, Hmono.
  assert (Hspeed : speed s1 = speed s).
  { apply (initializeDistanceData_keeps gpx speed). reflexivity. }
  rewrite Hspeed in Hmono.
  change (lastTimestamp s1) with startClock in Hmono.
  change (progress s1) with 0 in Hmono.
  pose proof (advancedProgress_still s1 frameClock) as Hstill.
  fold p' in Hstill.
  change (lastTimestamp s1) with startClock in Hstill.
  change (progress s1) with 0 in Hstill.
  rewrite Hrun. run_simpl.
  assert (Hprog : progress (if JS.geb p' 1 then set_isPlaying false s2
                            else set_animationFrame (Some handle) s2) = p').
  { destruct (JS.geb p' 1); exact Hkp. }
  split; [reflexivity|].
  split; [destruct (JS.geb p' 1); exact Hku|].
  split; [destruct (JS.geb p' 1); exact Hkt|].
  split; [destruct (JS.geb p' 1); exact Hinit2|].
  split; [destruct (JS.geb p' 1); exact Htot|].
  split; [destruct (JS.geb p' 1); exact Hpos2|].
  rewrite Hprog.
  split; [exact Hle|].
  split; [intros Hc Hs; apply Hmono; [exact Hc | exact Hs | lra]|].
  split; [intro Hc; apply Hstill; [exact Hc | lra]|].
  split.
  - intro Hlt. apply geb_lt in Hlt. rewrite Hlt.
    split; [exact Hki|reflexivity].
  - intro Hge. apply geb_le in Hge. rewrite Hge. reflexivity.
Qed.

Lemma start_plays_witness :
  outcomeOf (start (M := Rational.math) seaLevelMap 0 0 1 constructor)
  = Returned tt /\
  progress (stateAfter
              (start (M := Rational.math) seaLevelMap 0 0 1 constructor))
  == 0.
Proof.
  destruct (start_plays (M := Rational.math) seaLevelMap 0 0 1 constructor)
    as [Hout [_ [_ [_ [_ [_ [_ [_ [Hzero _]]]]]]]]].
  - reflexivity.
  - vm_compute. discriminate.
  - split; [exact Hout|]. apply Hzero. reflexivity.
Defined.

(** ** Recording *)



Lemma totalFrames_ceiling (duration fps : Q) :
  0 < duration -> 0 < fps ->
  let n := Recorder.totalFrames duration fps in
  (1 <= n)%Z /\
  duration * fps <= inject_Z n /\ inject_Z n < duration * fps + 1.
Proof.
  intros Hd Hf. cbv zeta. unfold Recorder.totalFrames.
  assert (Hpos : 0 < duration * fps) by nra.
  pose proof (Qle_ceiling (duration * fps)) as Hup.
  pose proof (Qceiling_lt (duration * fps)) as Hlow.
  assert (Hone : (1 <= Qceiling (duration * fps))%Z).
  { assert (H : inject_Z 0 < inject_Z (Qceiling (duration * fps))).
    { change (inject_Z 0) with 0. lra. }
    rewrite <- Zlt_Qlt in H. lia. }
  split; [exact Hone|]. split; [exact Hup|].
  unfold Z.sub in Hlow. rewrite inject_Z_plus in Hlow.
  change (inject_Z (- (1))) with (- (1)) in Hlow. lra.
Qed.

Lemma frameProgress_range (n k : Z) :
  (1 <= n)%Z ->
  Recorder.frameProgress n 0 == 0 /\
  Recorder.frameProgress n n == 1 /\
  ((0 <= k <= n)%Z ->
   0 <= Recorder.frameProgress n k /\ Recorder.frameProgress n k <= 1).
Proof.
  intro Hn. unfold Recorder.frameProgress.
  assert (HN : 0 < inject_Z n).
  { change 0 with (inject_Z 0). rewrite <- Zlt_Qlt. lia. }
  split; [unfold Qdiv; change (inject_Z 0) with 0; ring|].
  split; [field; lra|].
  intros [Hk0 Hk1].
  assert (0 <= inject_Z k).
  { change 0 with (inject_Z 0). rewrite <- Zle_Qle. exact Hk0. }
  assert (inject_Z k <= inject_Z n) by (rewrite <- Zle_Qle; exact Hk1).
  split; [apply Qle_shift_div_l; lra | apply Qle_shift_div_r; lra].
Qed.

Lemma frameProgress_increasing (n j k : Z) :
  (1 <= n)%Z -> (j < k)%Z ->
  Recorder.frameProgress n j < Recorder.frameProgress n k.
Proof.
  intros Hn Hjk. unfold Recorder.frameProgress.
  assert (HN : 0 < inject_Z n).
  { change 0 with (inject_Z 0). rewrite <- Zlt_Qlt. lia. }
  assert (Hlt : inject_Z j < inject_Z k) by (rewrite <- Zlt_Qlt; exact Hjk).
  unfold Qdiv. apply Qmult_lt_compat_r; [apply Qinv_lt_0_compat; exact HN|].
  exact Hlt.
Qed.

(** X22.  The schedule of a recording.  For a duration and a frame rate
    above 0 the recorder steps through [n + 1] frames, [n] being the
    duration times the frame rate rounded up, at least 1.  The progress of
    the frames starts at 0, ends at 1, stays in [0, 1] and grows from each
    frame to the next; so [stepToProgress] clears the smoothing at the
    first frame, whatever progress was stored, and at no later frame of
    the recording. *)
Theorem recorder_schedule (duration fps : Q) :
  0 < duration -> 0 < fps ->
  let n := Recorder.totalFrames duration fps in
  (1 <= n)%Z /\
  duration * fps <= inject_Z n /\ inject_Z n < duration * fps + 1 /\
  Recorder.frameProgress n 0 == 0 /\
  Recorder.frameProgress n n == 1 /\
  (forall k, (0 <= k <= n)%Z ->
     0 <= Recorder.frameProgress n k /\ Recorder.frameProgress n k <= 1) /\
  (forall j k, (j < k)%Z ->
     Recorder.frameProgress n j < Recorder.frameProgress n k) /\
  (forall s, stepsBack (Recorder.frameProgress n 0) s = true) /\
  (forall k s, (0 < k)%Z ->
     progress s == Recorder.frameProgress n (k - 1) ->
     stepsBack (Recorder.frameProgress n k) s = false).
Proof.
  intros Hd Hf n.
  destruct (totalFrames_ceiling duration fps Hd Hf) as [Hn [Hup Hlow]].
  fold n in Hn, Hup, Hlow.
  destruct (frameProgress_range n 0 Hn) as [H0 [H1 _]].
  split; [exact Hn|]. split; [exact Hup|]. split; [exact Hlow|].
  split; [exact H0|]. split; [exact H1|].
  split; [intros k Hk; apply (frameProgress_range n k Hn); exact Hk|].
  split; [intros j k Hjk; apply frameProgress_increasing; assumption|].
  split.
  - intro s. unfold stepsBack, JS.eqb.
    apply orb_true_iff. left. apply Qeq_bool_iff. exact H0.
  - intros k s Hk Hs. unfold stepsBack. apply orb_false_iff. split.
    + unfold JS.eqb. apply not_true_is_false. intro Heq.
      apply Qeq_bool_iff in Heq.
      pose proof (frameProgress_increasing n 0 k Hn Hk) as Hlt. lra.
    + apply ltb_ge. rewrite Hs.
      apply Qlt_le_weak. apply frameProgress_increasing; [exact Hn|lia].
Qed.

Lemma recorder_schedule_witness :
  (1 <= Recorder.totalFrames (7 # 2) 30)%Z /\
  Recorder.frameProgress (Recorder.totalFrames (7 # 2) 30)
    (Recorder.totalFrames (7 # 2) 30) == 1.
Proof.
  destruct (recorder_schedule (7 # 2) 30) as [Hn [_ [_ [_ [H1 _]]]]].
  - reflexivity.
  - reflexivity.
  - split; [exact Hn | exact H1].
Defined.



Section RecordingRun.

Context {M : JSMath}.

Variable gpx : GPXMap.





End RecordingRun.



(** ** The bird's eye camera *)

Lemma fold_Qmax_map {A} (f : A -> Q) (l : list A) (acc : Q) :
  fold_left (fun m k => Qmax m (f k)) l acc
  = fold_left Qmax (List.map f l) acc.
Proof.
  revert acc. induction l as [|k l IH]; intro acc; [reflexivity|].
  cbn [fold_left List.map]. apply IH.
Qed.

Lemma maxTerrainAround_maximum {M : JSMath} (gpx : GPXMap)
    (position : TrackPoint) (trackElevation : Q) :
  isMaximumOf (maxTerrainAround gpx position trackElevation)
    (trackElevation :: List.map (terrainAround gpx position) (range 8)).
Proof.
  assert (H : maxTerrainAround gpx position trackElevation
              = fold_left Qmax
                  (List.map (terrainAround gpx position) (range 8))
                  trackElevation).
  { unfold maxTerrainAround. cbv zeta.
    rewrite <- (fold_Qmax_map (terrainAround gpx position)).
    reflexivity. }
  rewrite H. apply fold_Qmax_maximum.
Qed.

(** X24.  The bird's eye camera clears the terrain.  In bird's eye mode,
    on an engine whose free camera works, [getCameraPosition] returns a
    free camera directly above the position, logs nothing and leaves the
    state as it was (no smoothing).  Its altitude is three times the
    altitude setting plus 80 m above the highest of nine terrain
    elevations: the one at the position and the eight sampled 500 m away,
    every 45 degrees. *)
Theorem birdseyeCamera_clears_terrain {M : JSMath} (gpx : GPXMap)
    (engine : MapEngine) (tp : TrackPosition) (s : FlyoverAnimation) :
  mode s = birdseye ->
  GPX.map gpx = Some engine ->
  engine_freeCamera engine = FreeCameraWorks ->
  let samples :=
    queryTerrainElevation gpx (lon (position tp)) (lat (position tp)) None
    :: List.map (terrainAround gpx (position tp)) (range 8) in
  exists alt lLon lLat,
    getCameraPosition gpx tp s
    = (Returned (FreeCamera (lon (position tp)) (lat (position tp)) alt
                   lLon lLat None), s, []) /\
    (forall e, In e samples ->
       e + cameraAltitude s * 3 + minTerrainClearance <= alt) /\
    (exists e, In e samples /\
       alt == e + cameraAltitude s * 3 + minTerrainClearance).
Proof.
  intros Hmode Hmap Hfree samples.
  destruct (maxTerrainAround_maximum gpx (position tp)
              (queryTerrainElevation gpx (lon (position tp))
                 (lat (position tp)) None)) as [[e [Hin He]] Hub].
  fold samples in Hin, Hub.
  unfold getCameraPosition. rewrite bind_get. rewrite Hmode.
  unfold metersToLatLon. cbv beta iota zeta.
  unfold emitPose. rewrite Hmap, Hfree.
  eexists. eexists. eexists. split; [reflexivity|]. split.
  - intros x Hx. specialize (Hub x Hx). lra.
  - exists e. split; [exact Hin|]. rewrite He. reflexivity.
Qed.

Lemma birdseyeCamera_clears_terrain_witness :
  exists alt lLon lLat,
    getCameraPosition (M := Rational.math) flatMap
      {| position := mkPoint 0 0.01 0; rawPosition := mkPoint 0 0.01 0;
         bearing := 90; rawBearing := 90; index := 1%Z |} overhead
    = (Returned (FreeCamera 0.01 0 alt lLon lLat None), overhead, []).
Proof.
  destruct (birdseyeCamera_clears_terrain (M := Rational.math) flatMap
              (mkEngine (fun _ _ => TerrainNull) FreeCameraWorks)
              {| position := mkPoint 0 0.01 0; rawPosition := mkPoint 0 0.01 0;
                 bearing := 90; rawBearing := 90; index := 1%Z |} overhead)
    as [alt [lLon [lLat [Hrun _]]]].
  - reflexivity.
  - reflexivity.
  - reflexivity.
  - exists alt, lLon, lLat. exact Hrun.
Defined.

(** ** The properties above, on concrete inputs *)

Lemma smoothAltitude_never_below_witness :
  fst (smoothAltitude 200 midRun) <= 250.
Proof.
  destruct (smoothAltitude_never_below midRun 200) as [_ [_ H]].
  destruct (H 250 eq_refl) as [_ H2].
  apply H2. vm_compute. discriminate.
Defined.

Lemma easeInOutCubic_shape_witness :
  easeInOutCubic (1 # 4) <= easeInOutCubic (3 # 4).
Proof.
  destruct (easeInOutCubic_shape (1 # 4) (3 # 4)) as [_ [_ [_ [_ [H _]]]]].
  apply H. vm_compute. discriminate.
Defined.

Lemma interpolate_between_witness :
  betweenPoints (mkPoint 0 0 100) (mkPoint 0 0.01 300)
    (interpolate (mkPoint 0 0 100) (mkPoint 0 0.01 300) (1 # 4)).
Proof.
  destruct (interpolate_between (mkPoint 0 0 100) (mkPoint 0 0.01 300)
              (1 # 4)) as [_ [_ H]].
  apply H; vm_compute; discriminate.
Defined.

Lemma normalizeBearing_canonical_witness : normalizeBearing 90 == 90.
Proof.
  destruct (normalizeBearing_canonical 90) as [_ [_ [_ [H _]]]].
  apply H; [vm_compute; discriminate | reflexivity].
Defined.

Lemma bearingDifference_shortest_turn_witness :
  bearingDifference 10 350 == - bearingDifference 350 10.
Proof.
  destruct (bearingDifference_shortest_turn 350 10) as [_ [_ [_ [_ H]]]].
  apply H. vm_compute. reflexivity.
Defined.

Lemma getTrackElevationNear_nearest_witness :
  exists p,
    In p (GPX.getTrackPoints deadSeaMap) /\
    getTrackElevationNear (M := Rational.math) deadSeaMap 0.01 0 = ele p.
Proof.
  destruct (getTrackElevationNear_nearest (M := Rational.math) deadSeaMap
              0.01 0) as [_ H].
  destruct H as [p [Hin [Hele _]]]; [discriminate|].
  exists p. split; [exact Hin | exact Hele].
Defined.

Lemma findSegmentAtDistance_clamped_witness :
  (0 <= findSegmentAtDistance [0%Q; 10%Q; 20%Q] 5%Q <= 1)%Z.
Proof.
  destruct (findSegmentAtDistance_clamped [0; 10; 20] 5) as [_ H].
  destruct H as [H _]; [vm_compute; discriminate|].
  exact H.
Defined.
